(** * Rubric classification engine: caching, retries and error envelopes

    A shallow embedding of [utils_groq_PT.py] (class
    [OptimizedPrototypeClassifier]), of [utlis_groq.py]
    ([classify_problem_statement], [_parse_classification_response]) and
    of the caller of the latter in [main_groq.py]
    ([evaluate_problem_statement]), followed by the properties of the
    classification engine.

    Conventions of the embedding.
    - A Python [str] is a [string]; each character stands for one code
      point in the range U+0000..U+00FF. Texts with other code points are
      outside the embedding, and with them the [UnicodeEncodeError] that
      [_hash] raises on a text with a lone surrogate.
    - The language model, [json.loads], the API-key environment variable,
      the set-up of logging and [print] are outside the repository: they
      are the variables of the sections below.  A small JSON reader
      ([Json.loads]) is provided to run the definitions on concrete
      responses.
    - The [OrderedDict] used as cache is an association list in dictionary
      order (oldest first).
    - Effects (model calls, sleeps, cache evictions) are logged in the
      state, newest last. *)

From Stdlib Require Import ZArith List String Ascii Bool Lia PeanoNat.
From Stdlib Require Import DecimalString DecimalNat.
Import ListNotations.

Local Open Scope string_scope.
Local Open Scope Z_scope.

(* ------------------------------------------------------------------ *)
(** ** Python string primitives *)

Module PyStr.

(** Code point of a character. *)
Definition ord (c : ascii) : Z := Z.of_N (N_of_ascii c).

Definition chr (n : Z) : ascii := ascii_of_N (Z.to_N n).

(** [str.isspace] on one code point below U+0100. *)
Definition isspace (c : ascii) : bool :=
  let n := ord c in
  ((9 <=? n) && (n <=? 13)) || ((28 <=? n) && (n <=? 32))
  || (n =? 133) || (n =? 160).

Fixpoint lstrip (s : string) : string :=
  match s with
  | EmptyString => EmptyString
  | String c r => if isspace c then lstrip r else s
  end.

Fixpoint rstrip (s : string) : string :=
  match s with
  | EmptyString => EmptyString
  | String c r =>
      match rstrip r with
      | EmptyString => if isspace c then EmptyString else String c EmptyString
      | r' => String c r'
      end
  end.

(** [s.strip()] *)
Definition strip (s : string) : string := rstrip (lstrip s).

(** [s[:n]] for a non-negative [n]. *)
Fixpoint take (n : nat) (s : string) : string :=
  match n, s with
  | S k, String c r => String c (take k r)
  | _, _ => EmptyString
  end.

(** [str.lower] on one code point below U+0100. *)
Definition lower_char (c : ascii) : ascii :=
  let n := ord c in
  if ((65 <=? n) && (n <=? 90))
     || ((192 <=? n) && (n <=? 222) && negb (n =? 215))
  then chr (n + 32) else c.

Fixpoint lower (s : string) : string :=
  match s with
  | EmptyString => EmptyString
  | String c r => String (lower_char c) (lower r)
  end.

(** [needle in hay] on two strings. *)
Fixpoint contains (needle hay : string) : bool :=
  prefix needle hay
  || match hay with
     | EmptyString => false
     | String _ r => contains needle r
     end.

(** [s.encode()]: UTF-8, two bytes from U+0080 on. *)
Fixpoint encode (s : string) : list Z :=
  match s with
  | EmptyString => []
  | String c r =>
      let n := ord c in
      if n <? 128 then n :: encode r
      else Z.lor 192 (Z.shiftr n 6) :: Z.lor 128 (Z.land n 63) :: encode r
  end.

Definition all_space (s : string) : bool :=
  forallb isspace (list_ascii_of_string s).

End PyStr.

(* ------------------------------------------------------------------ *)
(** ** [hashlib.md5] (RFC 1321) on 32-bit words held in [Z] *)

Module MD5.

Definition w32 (x : Z) : Z := x mod 2 ^ 32.

Definition rotl (x c : Z) : Z :=
  w32 (Z.lor (Z.shiftl x c) (Z.shiftr x (32 - c))).

Definition not32 (x : Z) : Z := Z.lxor x 0xFFFFFFFF.

Definition K : list Z :=
  [ 0xd76aa478; 0xe8c7b756; 0x242070db; 0xc1bdceee; 0xf57c0faf; 0x4787c62a;
    0xa8304613; 0xfd469501; 0x698098d8; 0x8b44f7af; 0xffff5bb1; 0x895cd7be;
    0x6b901122; 0xfd987193; 0xa679438e; 0x49b40821; 0xf61e2562; 0xc040b340;
    0x265e5a51; 0xe9b6c7aa; 0xd62f105d; 0x02441453; 0xd8a1e681; 0xe7d3fbc8;
    0x21e1cde6; 0xc33707d6; 0xf4d50d87; 0x455a14ed; 0xa9e3e905; 0xfcefa3f8;
    0x676f02d9; 0x8d2a4c8a; 0xfffa3942; 0x8771f681; 0x6d9d6122; 0xfde5380c;
    0xa4beea44; 0x4bdecfa9; 0xf6bb4b60; 0xbebfbc70; 0x289b7ec6; 0xeaa127fa;
    0xd4ef3085; 0x04881d05; 0xd9d4d039; 0xe6db99e5; 0x1fa27cf8; 0xc4ac5665;
    0xf4292244; 0x432aff97; 0xab9423a7; 0xfc93a039; 0x655b59c3; 0x8f0ccc92;
    0xffeff47d; 0x85845dd1; 0x6fa87e4f; 0xfe2ce6e0; 0xa3014314; 0x4e0811a1;
    0xf7537e82; 0xbd3af235; 0x2ad7d2bb; 0xeb86d391 ].

Definition shifts : list Z :=
  [ 7; 12; 17; 22; 7; 12; 17; 22; 7; 12; 17; 22; 7; 12; 17; 22;
    5; 9; 14; 20; 5; 9; 14; 20; 5; 9; 14; 20; 5; 9; 14; 20;
    4; 11; 16; 23; 4; 11; 16; 23; 4; 11; 16; 23; 4; 11; 16; 23;
    6; 10; 15; 21; 6; 10; 15; 21; 6; 10; 15; 21; 6; 10; 15; 21 ].

(** Little-endian bytes of a word, and back. *)
Fixpoint le_bytes (n : nat) (x : Z) : list Z :=
  match n with
  | O => []
  | S k => Z.land x 255 :: le_bytes k (Z.shiftr x 8)
  end.

Fixpoint of_le_bytes (bs : list Z) : Z :=
  match bs with
  | [] => 0
  | b :: r => Z.lor b (Z.shiftl (of_le_bytes r) 8)
  end.

(** Padding: a 1 bit, zeros up to 56 mod 64, the bit length on 8 bytes. *)
Definition pad (msg : list Z) : list Z :=
  let len := Z.of_nat (List.length msg) in
  msg ++ [128] ++ repeat 0 (Z.to_nat ((55 - len) mod 64))
      ++ le_bytes 8 ((8 * len) mod 2 ^ 64).

(** Split the padded message into blocks of sixteen words. *)
Fixpoint words (fuel : nat) (bs : list Z) : list Z :=
  match fuel, bs with
  | S k, _ :: _ => of_le_bytes (firstn 4 bs) :: words k (skipn 4 bs)
  | _, _ => []
  end.

Fixpoint blocks (fuel : nat) (ws : list Z) : list (list Z) :=
  match fuel, ws with
  | S k, _ :: _ => firstn 16 ws :: blocks k (skipn 16 ws)
  | _, _ => []
  end.

Definition state : Type := Z * Z * Z * Z.

Definition round (M : list Z) (st : state) (i : Z) : state :=
  let '(a, b, c, d) := st in
  let f :=
    if i <? 16 then Z.lor (Z.land b c) (Z.land (not32 b) d)
    else if i <? 32 then Z.lor (Z.land d b) (Z.land (not32 d) c)
    else if i <? 48 then Z.lxor (Z.lxor b c) d
    else Z.lxor c (Z.lor b (not32 d)) in
  let g :=
    if i <? 16 then i
    else if i <? 32 then (5 * i + 1) mod 16
    else if i <? 48 then (3 * i + 5) mod 16
    else (7 * i) mod 16 in
  let f' := w32 (f + a + nth (Z.to_nat i) K 0 + nth (Z.to_nat g) M 0) in
  (d, w32 (b + rotl f' (nth (Z.to_nat i) shifts 0)), b, c).

Definition indices : list Z := map Z.of_nat (seq 0 64).

Definition block (st : state) (M : list Z) : state :=
  let '(a0, b0, c0, d0) := st in
  let '(a, b, c, d) := fold_left (round M) indices st in
  (w32 (a0 + a), w32 (b0 + b), w32 (c0 + c), w32 (d0 + d)).

Definition init : state := (0x67452301, 0xefcdab89, 0x98badcfe, 0x10325476).

Definition compress (msg : list Z) : state :=
  let p := pad msg in
  fold_left block (blocks (List.length p) (words (List.length p) p)) init.

(** [md5(msg).digest()] *)
Definition digest (msg : list Z) : list Z :=
  let '(a, b, c, d) := compress msg in
  le_bytes 4 a ++ le_bytes 4 b ++ le_bytes 4 c ++ le_bytes 4 d.

Definition hex_digit (n : Z) : ascii :=
  if n <? 10 then PyStr.chr (48 + n) else PyStr.chr (87 + n).

Definition hex_byte (b : Z) : string :=
  String (hex_digit (Z.shiftr b 4)) (String (hex_digit (Z.land b 15)) EmptyString).

(** [md5(msg).hexdigest()] *)
Definition hexdigest (msg : list Z) : string :=
  String.concat "" (map hex_byte (digest msg)).

End MD5.

(** [OptimizedPrototypeClassifier._hash] *)
Definition _hash (text : string) : string :=
  PyStr.take 16 (MD5.hexdigest (PyStr.encode text)).


(* ------------------------------------------------------------------ *)
(** ** [collections.OrderedDict] with string keys

    An association list in dictionary order: the head is the oldest
    entry, the one [popitem(last=False)] removes. Keys are unique in every
    dictionary built from [empty] with the operations below. *)

Module OD.

Definition t (V : Type) : Type := list (string * V).

Definition empty {V} : t V := [].

Definition keys {V} (d : t V) : list string := map fst d.

(** [k in d] *)
Definition contains {V} (k : string) (d : t V) : bool :=
  existsb (fun kv => String.eqb k (fst kv)) d.

(** [d[k]]; [None] stands for [KeyError]. *)
Fixpoint get {V} (k : string) (d : t V) : option V :=
  match d with
  | [] => None
  | (k', v) :: r => if String.eqb k k' then Some v else get k r
  end.

(** [d[k] = v]: an existing key keeps its position, a new key goes last. *)
Fixpoint set {V} (k : string) (v : V) (d : t V) : t V :=
  match d with
  | [] => [(k, v)]
  | (k', v') :: r =>
      if String.eqb k k' then (k, v) :: r else (k', v') :: set k v r
  end.

Definition remove {V} (k : string) (d : t V) : t V :=
  filter (fun kv => negb (String.eqb k (fst kv))) d.

(** [d.move_to_end(k)]; [None] stands for [KeyError]. *)
Definition move_to_end {V} (k : string) (d : t V) : option (t V) :=
  match get k d with
  | Some v => Some (remove k d ++ [(k, v)])%list
  | None => None
  end.

(** [d.popitem(last=False)]; [None] stands for [KeyError]. *)
Definition popitem_first {V} (d : t V) : option ((string * V) * t V) :=
  match d with
  | [] => None
  | kv :: r => Some (kv, r)
  end.

(** [len(d)] *)
Definition len {V} (d : t V) : Z := Z.of_nat (List.length d).

End OD.

(* ------------------------------------------------------------------ *)
(** ** Values and exceptions *)

#[local] Set Warnings "-register-all".

(** What [json.loads] returns; a number keeps its lexeme. *)
Inductive json : Type :=
| JNull
| JBool (b : bool)
| JNumber (lexeme : string)
| JString (s : string)
| JArray (items : list json)
| JObject (members : OD.t json).

Inductive exn_class : Type :=
| ClassificationError
| JSONDecodeError
| KeyError
| TypeError
| IndexError
| RecursionError
| ValueError
| AuthenticationError
| BadRequestError
| RateLimitError
| APIConnectionError
| APITimeoutError
| OtherException.

(** An exception object: its class and [str(e)]. *)
Record exn : Type := Exn { exn_class_of : exn_class; exn_str : string }.

Definition result (A : Type) : Type := (exn + A)%type.

Definition dq : string := String (PyStr.chr 34) EmptyString.
Definition sq : string := String (PyStr.chr 39) EmptyString.
Definition nl : string := String (PyStr.chr 10) EmptyString.

(** [repr] of a key that holds no quote and no escape. *)
Definition repr_key (k : string) : string := sq ++ k ++ sq.

(** [str(n)] for an [int]. *)
Definition str_int (n : Z) : string :=
  DecimalString.NilZero.string_of_int (Z.to_int n).

(** [str(e)] for [Optional[Exception]]. *)
Definition str_opt_exn (e : option exn) : string :=
  match e with
  | Some e => exn_str e
  | None => "None"
  end.

(** [type(v).__name__] as it appears in [TypeError] messages. *)
Definition type_name (v : json) : string :=
  match v with
  | JNull => "NoneType"
  | JBool _ => "bool"
  | JNumber l =>
      if PyStr.contains "." l || PyStr.contains "e" (PyStr.lower l)
         || PyStr.contains "n" (PyStr.lower l)
      then "float" else "int"
  | JString _ => "str"
  | JArray _ => "list"
  | JObject _ => "dict"
  end.

(** [payload[key]] with a string key. *)
Definition getitem (payload : json) (key : string) : result json :=
  match payload with
  | JObject d =>
      match OD.get key d with
      | Some v => inr v
      | None => inl (Exn KeyError (repr_key key))
      end
  | JArray _ =>
      inl (Exn TypeError "list indices must be integers or slices, not str")
  | JString _ =>
      inl (Exn TypeError ("string indices must be integers, not " ++ sq ++ "str" ++ sq))
  | v =>
      inl (Exn TypeError
             (sq ++ type_name v ++ sq ++ " object is not subscriptable"))
  end.

Definition json_eqb_str (k : string) (v : json) : bool :=
  match v with
  | JString s => String.eqb k s
  | _ => false
  end.

(** [key in parsed] with a string key. *)
Definition json_contains (key : string) (parsed : json) : result bool :=
  match parsed with
  | JObject d => inr (OD.contains key d)
  | JArray l => inr (existsb (json_eqb_str key) l)
  | JString s => inr (PyStr.contains key s)
  | v =>
      inl (Exn TypeError
             ("argument of type " ++ sq ++ type_name v ++ sq ++ " is not iterable"))
  end.

(* ------------------------------------------------------------------ *)
(** ** A JSON reader

    [json.loads] itself is a variable of the development. This reader
    covers objects, arrays, strings with the one-letter escapes, numbers
    and the three literals, reports every failure as a [JSONDecodeError]
    without its position, and serves to run the model on concrete
    responses. *)

Module Json.

Definition is_ws (c : ascii) : bool :=
  let n := PyStr.ord c in (n =? 32) || (n =? 9) || (n =? 10) || (n =? 13).

Definition is_digit (c : ascii) : bool :=
  let n := PyStr.ord c in (48 <=? n) && (n <=? 57).

Fixpoint skip_ws (s : string) : string :=
  match s with
  | String c r => if is_ws c then skip_ws r else s
  | EmptyString => s
  end.

Definition unescape (c : ascii) : option ascii :=
  let n := PyStr.ord c in
  if (n =? 34) || (n =? 92) || (n =? 47) then Some c
  else if n =? 98 then Some (PyStr.chr 8)
  else if n =? 102 then Some (PyStr.chr 12)
  else if n =? 110 then Some (PyStr.chr 10)
  else if n =? 114 then Some (PyStr.chr 13)
  else if n =? 116 then Some (PyStr.chr 9)
  else None.

(** The text of a string after its opening quote, and what follows. *)
Fixpoint str_body (s : string) : option (string * string) :=
  match s with
  | EmptyString => None
  | String c r =>
      if PyStr.ord c =? 34 then Some (EmptyString, r)
      else if PyStr.ord c =? 92 then
        match r with
        | String e r' =>
            match unescape e, str_body r' with
            | Some ch, Some (t, rest) => Some (String ch t, rest)
            | _, _ => None
            end
        | EmptyString => None
        end
      else if PyStr.ord c <? 32 then None
      else
        match str_body r with
        | Some (t, rest) => Some (String c t, rest)
        | None => None
        end
  end.

Fixpoint digits (s : string) : string * string :=
  match s with
  | String c r =>
      if is_digit c then let '(d, rest) := digits r in (String c d, rest)
      else (EmptyString, s)
  | EmptyString => (EmptyString, s)
  end.

Definition starts (c : Z) (s : string) : option string :=
  match s with
  | String c' r => if PyStr.ord c' =? c then Some r else None
  | EmptyString => None
  end.

(** An optional minus sign, an integer part without leading zero, an
    optional fraction and an optional exponent. *)
Definition number (s : string) : option (string * string) :=
  let '(sign, s1) :=
    match starts 45 s with Some r => ("-", r) | None => ("", s) end in
  let '(int, s2) :=
    match starts 48 s1 with
    | Some r => ("0", r)
    | None => digits s1
    end in
  if String.eqb int "" then None
  else
    let '(frac, s3) :=
      match starts 46 s2 with
      | Some r =>
          let '(d, rest) := digits r in
          if String.eqb d "" then ("", s2) else ("." ++ d, rest)
      | None => ("", s2)
      end in
    let '(exp, s4) :=
      match s3 with
      | String e r =>
          if (PyStr.ord e =? 101) || (PyStr.ord e =? 69) then
            let '(sg, r1) :=
              match r with
              | String g r' =>
                  if (PyStr.ord g =? 43) || (PyStr.ord g =? 45)
                  then (String g "", r') else ("", r)
              | EmptyString => ("", r)
              end in
            let '(d, rest) := digits r1 in
            if String.eqb d "" then ("", s3)
            else (String e "" ++ sg ++ d, rest)
          else ("", s3)
      | EmptyString => ("", s3)
      end in
    Some (sign ++ int ++ frac ++ exp, s4).

Definition literal (word : string) (v : json) (s : string)
  : option (json * string) :=
  if prefix word s
  then Some (v, substring (String.length word)
                          (String.length s - String.length word) s)
  else None.

Fixpoint value (fuel : nat) (s : string) {struct fuel}
  : option (json * string) :=
  match fuel with
  | O => None
  | S k =>
      match s with
      | EmptyString => None
      | String c r =>
          let n := PyStr.ord c in
          if n =? 34 then
            match str_body r with
            | Some (t, rest) => Some (JString t, rest)
            | None => None
            end
          else if n =? 123 then
            match starts 125 (skip_ws r) with
            | Some rest => Some (JObject [], rest)
            | None => members k (skip_ws r) []
            end
          else if n =? 91 then
            match starts 93 (skip_ws r) with
            | Some rest => Some (JArray [], rest)
            | None => elements k (skip_ws r) []
            end
          else if n =? 110 then literal "null" JNull s
          else if n =? 116 then literal "true" (JBool true) s
          else if n =? 102 then literal "false" (JBool false) s
          else
            match number s with
            | Some (l, rest) => Some (JNumber l, rest)
            | None => None
            end
      end
  end

with members (fuel : nat) (s : string) (acc : OD.t json) {struct fuel}
  : option (json * string) :=
  match fuel with
  | O => None
  | S k =>
      match starts 34 s with
      | None => None
      | Some r =>
          match str_body r with
          | None => None
          | Some (key, r1) =>
              match starts 58 (skip_ws r1) with
              | None => None
              | Some r2 =>
                  match value k (skip_ws r2) with
                  | None => None
                  | Some (v, r3) =>
                      let acc' := OD.set key v acc in
                      match starts 44 (skip_ws r3) with
                      | Some r4 => members k (skip_ws r4) acc'
                      | None =>
                          match starts 125 (skip_ws r3) with
                          | Some r4 => Some (JObject acc', r4)
                          | None => None
                          end
                      end
                  end
              end
          end
      end
  end

with elements (fuel : nat) (s : string) (acc : list json) {struct fuel}
  : option (json * string) :=
  match fuel with
  | O => None
  | S k =>
      match value k s with
      | None => None
      | Some (v, r1) =>
          match starts 44 (skip_ws r1) with
          | Some r2 => elements k (skip_ws r2) (acc ++ [v])%list
          | None =>
              match starts 93 (skip_ws r1) with
              | Some r2 => Some (JArray (acc ++ [v])%list, r2)
              | None => None
              end
          end
      end
  end.

Definition loads (s : string) : result json :=
  match value (3 + 2 * String.length s) (skip_ws s) with
  | Some (v, rest) =>
      match skip_ws rest with
      | EmptyString => inr v
      | _ => inl (Exn JSONDecodeError "Extra data")
      end
  | None => inl (Exn JSONDecodeError "Expecting value")
  end.

End Json.


(* ------------------------------------------------------------------ *)
(** ** The prompt of [OptimizedPrototypeClassifier]

    [_PROMPT] cut at its placeholder, with the doubled braces of the
    format string already reduced to single ones. *)

Definition _PROMPT_head_lines : list string :=
  [
    "IMPORTANT: Return EXACT strings from the lists below. Do not simplify. Your entire response must be a single, valid JSON object and nothing else.";
    "";
    "**CONTENT SAFETY CHECK**: This tool is designed for students aged 12-15. If the description contains inappropriate content (violence, adult themes, harmful activities, or content unsuitable for middle school students), return:";
    "{" ++ dq ++ "X_Axis_Rubric_Category" ++ dq ++ ": " ++ dq ++ "Content Not Appropriate for Age Group" ++ dq ++ ", " ++ dq ++ "Y_Axis_Rubric_Category" ++ dq ++ ": " ++ dq ++ "Content Safety Exception" ++ dq ++ "}";
    "";
    "**RELEVANCE CHECK**: If the description is not about a prototype, product, or invention suitable for a school project, return:";
    "{" ++ dq ++ "X_Axis_Ruric_Category" ++ dq ++ ": " ++ dq ++ "Not Relevant" ++ dq ++ ", " ++ dq ++ "Y_Axis_Rubric_Category" ++ dq ++ ": " ++ dq ++ "Not Relevant" ++ dq ++ "}";
    "";
    "Analyze this student prototype description and classify it on TWO dimensions based on the provided rubrics.";
    "";
    "**COMMUNICATION QUALITY (X-AXIS)** - Choose EXACTLY one string:";
    "1. " ++ dq ++ "Does not have grammar" ++ dq;
    "2. " ++ dq ++ "Does not Demonstrate Understanding Only" ++ dq;
    "3. " ++ dq ++ "Is not Precise and To the Point" ++ dq;
    "4. " ++ dq ++ "Lacks Visual Clarity" ++ dq;
    "5. " ++ dq ++ "Info is not Well-Structured and Is not Easy to Understand" ++ dq;
    "6. " ++ dq ++ "Does not have Grammar + Lacks Visual Clarity" ++ dq;
    "7. " ++ dq ++ "Has some Grammar" ++ dq;
    "8. " ++ dq ++ "Demonstrates some Understanding" ++ dq;
    "9. " ++ dq ++ "Is somewhat Precise and To the Point" ++ dq;
    "10. " ++ dq ++ "Has some Visual Clarity" ++ dq;
    "11. " ++ dq ++ "Info is somewhat Well-Structured and fairly Easy to Understand" ++ dq;
    "12. " ++ dq ++ "Has some Grammar + Has some Visual Clarity" ++ dq;
    "13. " ++ dq ++ "Has Very Good Grammar + Demonstrates Very Good Understanding" ++ dq;
    "14. " ++ dq ++ "Has Very Good Grammar + Has Clear Visual Clarity" ++ dq;
    "15. " ++ dq ++ "Is Precise and To the Point + Has Clear Visual Clarity" ++ dq;
    "16. " ++ dq ++ "Has Very Good Grammar + Demonstrates Very Good Understanding + Has Clear Visual Clarity" ++ dq;
    "";
    "**PROJECT COMPLETENESS (Y-AXIS)** - Choose EXACTLY one string:";
    "1. " ++ dq ++ "Clear Product/Service Description" ++ dq;
    "2. " ++ dq ++ "Prototype Status" ++ dq;
    "3. " ++ dq ++ "Unique Value Statement" ++ dq;
    "4. " ++ dq ++ "User Interaction Description" ++ dq;
    "5. " ++ dq ++ "Technical/Practical Feasibility Evidence" ++ dq;
    "6. " ++ dq ++ "Product Description + Prototype Status" ++ dq;
    "7. " ++ dq ++ "Product Description + Unique Value Statement" ++ dq;
    "8. " ++ dq ++ "Product Description + User Interaction Description" ++ dq;
    "9. " ++ dq ++ "Product Description + Technical/Practical Feasibility Evidence" ++ dq;
    "10. " ++ dq ++ "Prototype Status + Unique Value Statement" ++ dq;
    "11. " ++ dq ++ "Prototype Status + User Interaction Description" ++ dq;
    "12. " ++ dq ++ "Prototype Status + Technical/Practical Feasibility Evidence" ++ dq;
    "13. " ++ dq ++ "Unique Value Statement + User Interaction Description" ++ dq;
    "14. " ++ dq ++ "Unique Value Statement + Technical/Practical Feasibility Evidence" ++ dq;
    "15. " ++ dq ++ "User Interaction Description + Technical/Practical Feasibility Evidence" ++ dq;
    "16. " ++ dq ++ "Product Description + Prototype Status + Unique Value Statement" ++ dq;
    "17. " ++ dq ++ "Product Description + Prototype Status + User Interaction Description" ++ dq;
    "18. " ++ dq ++ "Product Description + Prototype Status + Technical/Practical Feasibility Evidence" ++ dq;
    "19. " ++ dq ++ "Product Description + Unique Value Statement + User Interaction Description" ++ dq;
    "20. " ++ dq ++ "Product Description + Unique Value Statement + Technical/Practical Feasibility Evidence" ++ dq;
    "21. " ++ dq ++ "Product Description + User Interaction Description + Technical/Practical Feasibility Evidence" ++ dq;
    "22. " ++ dq ++ "Prototype Status + Unique Value Statement + User Interaction Description" ++ dq;
    "23. " ++ dq ++ "Prototype Status + Unique Value Statement + Technical/Practical Feasibility Evidence" ++ dq;
    "24. " ++ dq ++ "Prototype Status + User Interaction Description + Technical/Practical Feasibility Evidence" ++ dq;
    "25. " ++ dq ++ "Unique Value Statement + User Interaction Description + Technical/Practical Feasibility Evidence" ++ dq;
    "26. " ++ dq ++ "Product Description + Prototype Status + Unique Value Statement + User Interaction Description" ++ dq;
    "27. " ++ dq ++ "Product Description + Prototype Status + Unique Value Statement + Technical/Practical Feasibility Evidence" ++ dq;
    "28. " ++ dq ++ "Product Description + Prototype Status + User Interaction Description + Technical/Practical Feasibility Evidence" ++ dq;
    "29. " ++ dq ++ "Product Description + Unique Value Statement + User Interaction Description + Technical/Practical Feasibility Evidence" ++ dq;
    "30. " ++ dq ++ "Prototype Status + Unique Value Statement + User Interaction Description + Technical/Practical Feasibility Evidence" ++ dq;
    "31. " ++ dq ++ "Clear Product/Service Description + Prototype Status + Unique Value Statement + User Interaction Description + Technical/Practical Feasibility Evidence" ++ dq;
    "";
    "**STUDENT DESCRIPTION TO ANALYZE:**";
    ""
  ].

Definition _PROMPT_tail_lines : list string :=
  [
    "";
    "";
    "Return ONLY a valid JSON object with keys " ++ dq ++ "X_Axis_Rubric_Category" ++ dq ++ " and " ++ dq ++ "Y_Axis_Rubric_Category" ++ dq ++ ".";
    ""
  ].

(** [_PROMPT.format(description=description)] *)
Definition _PROMPT_format (description : string) : string :=
  String.concat nl _PROMPT_head_lines ++ description
  ++ String.concat nl _PROMPT_tail_lines.

(** The category strings the prompt enumerates for each axis, the two
    exception answers of each axis included. *)
Definition x_vocabulary : list string :=
  [ "Does not have grammar";
    "Does not Demonstrate Understanding Only";
    "Is not Precise and To the Point";
    "Lacks Visual Clarity";
    "Info is not Well-Structured and Is not Easy to Understand";
    "Does not have Grammar + Lacks Visual Clarity";
    "Has some Grammar";
    "Demonstrates some Understanding";
    "Is somewhat Precise and To the Point";
    "Has some Visual Clarity";
    "Info is somewhat Well-Structured and fairly Easy to Understand";
    "Has some Grammar + Has some Visual Clarity";
    "Has Very Good Grammar + Demonstrates Very Good Understanding";
    "Has Very Good Grammar + Has Clear Visual Clarity";
    "Is Precise and To the Point + Has Clear Visual Clarity";
    "Has Very Good Grammar + Demonstrates Very Good Understanding + Has Clear Visual Clarity";
    "Content Not Appropriate for Age Group";
    "Not Relevant" ].

Definition y_elements : list string :=
  [ "Product Description"; "Prototype Status"; "Unique Value Statement";
    "User Interaction Description"; "Technical/Practical Feasibility Evidence" ].

(** The sublists of [l] of length [k], in the order of the prompt. *)
Fixpoint choose {A} (k : nat) (l : list A) : list (list A) :=
  match k, l with
  | O, _ => [[]]
  | S _, [] => []
  | S k', x :: r => (map (cons x) (choose k' r) ++ choose k r)%list
  end.

Definition y_vocabulary : list string :=
  ([ "Clear Product/Service Description" ]
   ++ tl y_elements
   ++ map (String.concat " + ")
        (choose 2 y_elements ++ choose 3 y_elements ++ choose 4 y_elements)
   ++ [ "Clear Product/Service Description + Prototype Status + Unique Value Statement + User Interaction Description + Technical/Practical Feasibility Evidence";
        "Content Safety Exception";
        "Not Relevant" ])%list.

Definition in_vocabulary (vocabulary : list string) (v : string) : bool :=
  existsb (String.eqb v) vocabulary.


(* ------------------------------------------------------------------ *)
(** ** The world outside: model calls, sleeps, the log *)

Inductive client : Type := Groq | AsyncGroq.

(** The arguments of [chat.completions.create] that vary between calls;
    the generation parameters and the timeout are constants. *)
Record request : Type :=
  Request { req_model : string; req_messages : list (string * string) }.

(** What a call to the model does: it raises, or it returns a completion,
    given here by [message.content] of each of its choices. *)
Inductive api_result : Type :=
| Raised (e : exn)
| Completion (choices : list (option string)).

(** What a method does besides returning: the calls to the model, the
    sleeps, and the messages it logs ([Cache hit for key ..],
    [Cache miss - added key ..], [Attempt i/n failed ..]). [EvEvict] is a
    ghost event: it marks each [popitem] with the key it removed. *)
Inductive event : Type :=
| EvCall (c : client) (r : request)
| EvTimeSleep (seconds : Z)
| EvAsyncioSleep (seconds : Z)
| EvLogHit (key : string)
| EvLogAdded (key : string)
| EvLogFailed (attempt max_retries : Z) (c : client) (err : exn)
| EvEvict (key : string).

Definition is_call (e : event) : bool :=
  match e with EvCall _ _ => true | _ => false end.

Definition is_sleep (e : event) : bool :=
  match e with EvTimeSleep _ | EvAsyncioSleep _ => true | _ => false end.

Definition is_evict (e : event) : bool :=
  match e with EvEvict _ => true | _ => false end.

(** Number of model calls in a log. *)
Definition calls (tr : list event) : nat := List.length (filter is_call tr).

Definition sleeps (tr : list event) : nat := List.length (filter is_sleep tr).

Definition evictions (tr : list event) : nat := List.length (filter is_evict tr).

(** [range(a, b)] *)
Definition py_range (a b : Z) : list Z :=
  map (fun i => a + Z.of_nat i) (seq 0 (Z.to_nat (b - a))).

(** A pair of categories as the cache holds it and [classify] returns it. *)
Definition categories : Type := (json * json)%type.

(** The attributes of [OptimizedPrototypeClassifier] that the methods read
    or write. *)
Record Classifier : Type :=
  mkClassifier {
      model_name : string;
      max_retries : Z;
      _cache : OD.t categories;
      _cache_size : Z }.

(** [OptimizedPrototypeClassifier(api_key, max_retries=.., cache_size=..)]
    with a key present. *)
Definition new_classifier (max_retries cache_size : Z) : Classifier :=
  mkClassifier "llama3-70b-8192" max_retries OD.empty cache_size.

Definition default_classifier : Classifier := new_classifier 2 50.

Record state : Type := mkState { self : Classifier; trace : list event }.

Definition cache (st : state) : OD.t categories := _cache (self st).

Definition set_cache (d : OD.t categories) (st : state) : state :=
  let s := self st in
  mkState (mkClassifier (model_name s) (max_retries s) d (_cache_size s))
          (trace st).

Definition emit (e : event) (st : state) : state :=
  mkState (self st) (trace st ++ [e])%list.

Definition X_KEY : string := "X_Axis_Rubric_Category".
Definition Y_KEY : string := "Y_Axis_Rubric_Category".

Section Engine.

(** [json.loads] *)
Variable json_loads : string -> result json.

(** The language model: what the call numbered [n] (from 0) answers. *)
Variable chat : nat -> client -> request -> api_result.

(** [client.chat.completions.create(model=.., messages=.., ..)] *)
Definition create (c : client) (req : request) (st : state)
  : api_result * state :=
  (chat (calls (trace st)) c req, emit (EvCall c req) st).

(** [_parse_response_and_update_cache] *)
Definition _parse_response_and_update_cache
           (response_text cache_key : string) (st : state)
  : result categories * state :=
  match json_loads response_text with
  | inl e => (inl e, st)
  | inr payload =>
      match getitem payload X_KEY with
      | inl e => (inl e, st)
      | inr x_cat =>
          match getitem payload Y_KEY with
          | inl e => (inl e, st)
          | inr y_cat =>
              let st1 := set_cache (OD.set cache_key (x_cat, y_cat) (cache st)) st in
              if OD.len (cache st1) >? _cache_size (self st1) then
                match OD.popitem_first (cache st1) with
                | Some ((k, _), d) =>
                    (inr (x_cat, y_cat),
                     emit (EvLogAdded cache_key)
                          (emit (EvEvict k) (set_cache d st1)))
                | None =>
                    (inl (Exn KeyError (sq ++ "dictionary is empty" ++ sq)), st1)
                end
              else (inr (x_cat, y_cat), emit (EvLogAdded cache_key) st1)
          end
      end
  end.

Definition user_message (prompt : string) : list (string * string) :=
  [("user", prompt)].

Definition failed_after (n : Z) (last_err : option exn) : exn :=
  Exn ClassificationError
      ("Classification failed after " ++ str_int n ++ " attempts: "
         ++ str_opt_exn last_err).

Definition empty_content (content : option string) : bool :=
  match content with
  | None => true
  | Some c => String.eqb c ""
  end.

(** The body of the [try] of one attempt, after the model has answered. *)
Definition on_response (r : api_result) (key : string) (st : state)
  : result categories * state :=
  match r with
  | Raised e => (inl e, st)
  | Completion [] => (inl (Exn IndexError "list index out of range"), st)
  | Completion (content :: _) =>
      match content with
      | Some c =>
          if String.eqb c ""
          then (inl (Exn ClassificationError "API returned an empty response."), st)
          else _parse_response_and_update_cache c key st
      | None =>
          (inl (Exn ClassificationError "API returned an empty response."), st)
      end
  end.

(** The retry loop of [classify], over the attempt numbers still to run. *)
Fixpoint classify_loop (attempts : list Z) (prompt key : string)
         (last_err : option exn) (st : state) {struct attempts}
  : result categories * state :=
  match attempts with
  | [] => (inl (failed_after (max_retries (self st)) last_err), st)
  | attempt :: rest =>
      let '(r, st1) :=
        create AsyncGroq
               (Request (model_name (self st)) (user_message prompt)) st in
      match on_response r key st1 with
      | (inr v, st2) => (inr v, st2)
      | (inl err, st2) =>
          classify_loop rest prompt key (Some err)
            (emit (EvAsyncioSleep 1)
               (emit (EvLogFailed attempt (max_retries (self st2)) AsyncGroq err) st2))
      end
  end.

(** [OptimizedPrototypeClassifier.classify] *)
Definition classify (description : string) (st : state)
  : result categories * state :=
  let description := PyStr.strip description in
  if String.eqb description "" then
    (inl (Exn ClassificationError "Description cannot be empty."), st)
  else
    let key := _hash description in
    if OD.contains key (cache st) then
      match OD.move_to_end key (cache st) with
      | None => (inl (Exn KeyError (repr_key key)), st)
      | Some d =>
          let st1 := emit (EvLogHit key) (set_cache d st) in
          match OD.get key (cache st1) with
          | Some v => (inr v, st1)
          | None => (inl (Exn KeyError (repr_key key)), st1)
          end
      end
    else
      let prompt := _PROMPT_format (PyStr.take 2000 description) in
      classify_loop (py_range 1 (max_retries (self st) + 1)) prompt key None st.

(** The retry loop of [classify_sync]. *)
Fixpoint classify_sync_loop (attempts : list Z) (prompt key : string)
         (last_err : option exn) (st : state) {struct attempts}
  : result categories * state :=
  match attempts with
  | [] => (inl (failed_after (max_retries (self st)) last_err), st)
  | attempt :: rest =>
      let '(r, st1) :=
        create Groq (Request (model_name (self st)) (user_message prompt)) st in
      match on_response r key st1 with
      | (inr v, st2) => (inr v, st2)
      | (inl err, st2) =>
          classify_sync_loop rest prompt key (Some err)
            (emit (EvTimeSleep 1)
               (emit (EvLogFailed attempt (max_retries (self st2)) Groq err) st2))
      end
  end.

(** [OptimizedPrototypeClassifier.classify_sync] *)
Definition classify_sync (description : string) (st : state)
  : result categories * state :=
  let description := PyStr.strip description in
  if String.eqb description "" then
    (inl (Exn ClassificationError "Description cannot be empty."), st)
  else
    let key := _hash description in
    if OD.contains key (cache st) then
      match OD.move_to_end key (cache st) with
      | None => (inl (Exn KeyError (repr_key key)), st)
      | Some d =>
          let st1 := emit (EvLogHit key) (set_cache d st) in
          match OD.get key (cache st1) with
          | Some v => (inr v, st1)
          | None => (inl (Exn KeyError (repr_key key)), st1)
          end
      end
    else
      let prompt := _PROMPT_format (PyStr.take 2000 description) in
      classify_sync_loop (py_range 1 (max_retries (self st) + 1)) prompt key None st.

End Engine.

(* ------------------------------------------------------------------ *)
(** ** [utlis_groq.py]: the error-as-value variant *)

(** The values held by the dictionary [classify_problem_statement]
    returns. *)
Inductive pyval : Type :=
| PBool (b : bool)
| PStr (s : string)
| PDict (d : OD.t json).

(** The returned dictionary, in insertion order. *)
Definition envelope : Type := OD.t pyval.

Definition failure (error : string) : envelope :=
  [("success", PBool false); ("error", PStr error)].

Definition failure_raw (error raw_response : string) : envelope :=
  [("success", PBool false); ("error", PStr error);
   ("raw_response", PStr raw_response)].

Definition success (x y : json) : envelope :=
  [("success", PBool true);
   ("data", PDict [(X_KEY, x); (Y_KEY, y)])].

Section ProblemStatement.

Variable json_loads : string -> result json.
Variable chat : nat -> client -> request -> api_result.

(** [os.environ.get("GROQ_API_KEY")] *)
Variable GROQ_API_KEY : option string.

(** The text assigned to [system_instruction] (lines 53 to 260). *)
Variable system_instruction : string.

(** [all(key in parsed_json for key in required_keys)] *)
Fixpoint all_in (required_keys : list string) (parsed_json : json)
  : result bool :=
  match required_keys with
  | [] => inr true
  | key :: rest =>
      match json_contains key parsed_json with
      | inl e => inl e
      | inr false => inr false
      | inr true => all_in rest parsed_json
      end
  end.

Definition is_JSONDecodeError (e : exn) : bool :=
  match exn_class_of e with JSONDecodeError => true | _ => false end.

(** [_parse_classification_response] *)
Definition _parse_classification_response (response_text : string)
  : envelope :=
  let processing e :=
    failure_raw ("Error processing response: " ++ exn_str e) response_text in
  match json_loads response_text with
  | inl e =>
      if is_JSONDecodeError e
      then failure_raw ("Failed to parse JSON from response: " ++ exn_str e)
                       response_text
      else processing e
  | inr parsed_json =>
      match all_in [X_KEY; Y_KEY] parsed_json with
      | inl e => processing e
      | inr false =>
          failure_raw "JSON response missing required keys." response_text
      | inr true =>
          match getitem parsed_json X_KEY with
          | inl e => processing e
          | inr x =>
              match getitem parsed_json Y_KEY with
              | inl e => processing e
              | inr y => success x y
              end
          end
      end
  end.

Definition user_prompt (idea_text problem_statement_text : string) : string :=
  nl ++ "**IDEA PROVIDED:**" ++ nl ++ idea_text ++ nl ++ nl
     ++ "**PROBLEM STATEMENT TO EVALUATE:**" ++ nl
     ++ problem_statement_text ++ nl.

(** [not response.choices or not response.choices[0].message.content] *)
Definition no_content (choices : list (option string)) : bool :=
  match choices with
  | [] => true
  | content :: _ => empty_content content
  end.

Definition first_content (choices : list (option string)) : string :=
  match choices with
  | Some c :: _ => c
  | _ => ""
  end.

(** The loop [for attempt in range(max_retries)]; [None] is the value
    of a call that leaves the loop without reaching a [return]. *)
Fixpoint cps_loop (max_retries : Z) (attempts : list Z)
         (messages : list (string * string)) (tr : list event)
         {struct attempts} : option envelope * list event :=
  match attempts with
  | [] => (None, tr)
  | attempt :: rest =>
      let tr1 := (tr ++ [EvCall Groq (Request "llama-3.3-70b-versatile" messages)])%list in
      match chat (calls tr) Groq (Request "llama-3.3-70b-versatile" messages) with
      | Completion choices =>
          if no_content choices then
            if attempt <? max_retries - 1
            then cps_loop max_retries rest messages
                          (tr1 ++ [EvTimeSleep (2 ^ attempt)])%list
            else (Some (failure "Empty response from API"), tr1)
          else
            (Some (_parse_classification_response (first_content choices)), tr1)
      | Raised e =>
          let error_msg := exn_str e in
          if PyStr.contains "authentication" (PyStr.lower error_msg) then
            (Some (failure "Invalid API key. Please check your OPENAI_API_KEY."), tr1)
          else if PyStr.contains "rate_limit" (PyStr.lower error_msg) then
            (Some (failure "API rate limit exceeded. Please check your API usage limits."), tr1)
          else if attempt <? max_retries - 1
          then cps_loop max_retries rest messages
                        (tr1 ++ [EvTimeSleep (2 ^ attempt)])%list
          else (Some (failure ("An unexpected error occurred: " ++ error_msg)), tr1)
      end
  end.

(** [classify_problem_statement]; the construction of the client from a
    key that passed the two checks is taken to succeed. *)
Definition classify_problem_statement
           (idea_text problem_statement_text : string) (tr : list event)
  : option envelope * list event :=
  match GROQ_API_KEY with
  | None =>
      (Some (failure "GROQ_API_KEY not found. Please create a .env file and add your key."), tr)
  | Some api_key =>
      if String.eqb api_key "" then
        (Some (failure "GROQ_API_KEY not found. Please create a .env file and add your key."), tr)
      else if Z.of_nat (String.length (PyStr.strip api_key)) <? 10 then
        (Some (failure "API key appears to be invalid (too short)."), tr)
      else
        let max_retries := 3 in
        cps_loop max_retries (py_range 0 max_retries)
                 [("system", system_instruction);
                  ("user", user_prompt idea_text problem_statement_text)]
                 tr
  end.

End ProblemStatement.

(* ------------------------------------------------------------------ *)
(** ** Sequences of calls on one classifier *)

Inductive op : Type :=
| Classify (description : string)
| ClassifySync (description : string).

Definition op_text (o : op) : string :=
  match o with Classify d | ClassifySync d => d end.

(** The cache key [classify] computes for a description. *)
Definition key_of (description : string) : string :=
  _hash (PyStr.strip description).

(** The prompt [classify] assembles for a description. *)
Definition prompt_of (description : string) : string :=
  _PROMPT_format (PyStr.take 2000 (PyStr.strip description)).

Definition is_ok {A} (r : result A) : bool :=
  match r with inr _ => true | inl _ => false end.

(** The keys a log reports as used: looked up with a hit, or added. *)
Fixpoint uses (tr : list event) : list string :=
  match tr with
  | [] => []
  | EvLogHit k :: r | EvLogAdded k :: r => k :: uses r
  | _ :: r => uses r
  end.

(** Move [k] to the most recent end of a recency order. *)
Definition touch (order : list string) (k : string) : list string :=
  (filter (fun k' => negb (String.eqb k k')) order ++ [k])%list.

(** The distinct keys of a history of uses, least recently used first. *)
Definition recency (history : list string) : list string :=
  fold_left touch history [].

(** [l] ends with [s]. *)
Definition suffix_of {A} (s l : list A) : Prop := exists p, l = (p ++ s)%list.

Section Calls.

Variable json_loads : string -> result json.
Variable chat : nat -> client -> request -> api_result.

Definition run_op (o : op) (st : state) : result categories * state :=
  match o with
  | Classify d => classify json_loads chat d st
  | ClassifySync d => classify_sync json_loads chat d st
  end.

(** The calls of [ops] one after the other; the results, and the state
    after the last one. *)
Fixpoint run_ops (ops : list op) (st : state)
  : list (result categories) * state :=
  match ops with
  | [] => ([], st)
  | o :: rest =>
      let '(r, st1) := run_op o st in
      let '(rs, st2) := run_ops rest st1 in
      (r :: rs, st2)
  end.

End Calls.

(* ------------------------------------------------------------------ *)
(** ** [classify_batch]: cooperative tasks behind a semaphore

    Each worker is a coroutine that runs until its next [await]. A task is
    [Queued] before it has entered [async with semaphore], holds a permit
    while it awaits the model ([AwaitCreate], with the answer the call will
    deliver) or the one-second sleep ([AwaitSleep]), and is [Finished] once
    [classify] has returned or raised and the permit is released. The
    event loop may resume any task that is able to continue. *)

Inductive task : Type :=
| Queued (desc : string)
| AwaitCreate (attempt : Z) (rest : list Z) (prompt key : string) (r : api_result)
| AwaitSleep (rest : list Z) (prompt key : string) (err : exn)
| Finished (r : result categories).

Definition holds_permit (t : task) : bool :=
  match t with
  | AwaitCreate _ _ _ _ _ | AwaitSleep _ _ _ _ => true
  | _ => false
  end.

(** Number of workers inside [async with semaphore]. *)
Definition in_flight (ts : list task) : Z :=
  Z.of_nat (List.length (filter holds_permit ts)).

Fixpoint set_nth {A} (i : nat) (x : A) (l : list A) : list A :=
  match i, l with
  | _, [] => []
  | O, _ :: r => x :: r
  | S j, y :: r => y :: set_nth j x r
  end.

Record batch : Type :=
  mkBatch {
      bstate : state;            (* the classifier and the log *)
      permits : Z;               (* the value of the semaphore *)
      tasks : list task;         (* one per description, in input order *)
      raised : option exn }.     (* the first exception a worker raised *)

(** The results of the tasks in task order, once all have returned. *)
Fixpoint all_values (ts : list task) : option (list categories) :=
  match ts with
  | [] => Some []
  | Finished (inr v) :: r =>
      match all_values r with
      | Some vs => Some (v :: vs)
      | None => None
      end
  | _ :: _ => None
  end.

(** What [await asyncio.gather( *tasks )] gives: the first exception as
    soon as a worker raises, the list of results in the order of the
    tasks once all have returned, nothing before. *)
Definition gathered (b : batch) : option (result (list categories)) :=
  match raised b with
  | Some e => Some (inl e)
  | None =>
      match all_values (tasks b) with
      | Some vs => Some (inr vs)
      | None => None
      end
  end.

(** [max_concurrent] as [classify_batch] receives it: the keyword
    argument if the caller gives one, the default of the signature
    otherwise. *)
Definition DEFAULT_MAX_CONCURRENT : Z := 10.

Definition concurrency_limit (max_concurrent : option Z) : Z :=
  match max_concurrent with
  | Some m => m
  | None => DEFAULT_MAX_CONCURRENT
  end.

Section Batch.

Variable json_loads : string -> result json.
Variable chat : nat -> client -> request -> api_result.

(** The head of the retry loop: leave it, or issue the next call. *)
Definition begin_attempt (attempts : list Z) (prompt key : string)
           (last_err : option exn) (st : state) : task * state :=
  match attempts with
  | [] => (Finished (inl (failed_after (max_retries (self st)) last_err)), st)
  | attempt :: rest =>
      let '(r, st1) :=
        create chat AsyncGroq
               (Request (model_name (self st)) (user_message prompt)) st in
      (AwaitCreate attempt rest prompt key r, st1)
  end.

(** [classify] from its first line to its first [await]. *)
Definition enter (description : string) (st : state) : task * state :=
  let description := PyStr.strip description in
  if String.eqb description "" then
    (Finished (inl (Exn ClassificationError "Description cannot be empty.")), st)
  else
    let key := _hash description in
    if OD.contains key (cache st) then
      match OD.move_to_end key (cache st) with
      | None => (Finished (inl (Exn KeyError (repr_key key))), st)
      | Some d =>
          let st1 := emit (EvLogHit key) (set_cache d st) in
          match OD.get key (cache st1) with
          | Some v => (Finished (inr v), st1)
          | None => (Finished (inl (Exn KeyError (repr_key key))), st1)
          end
      end
    else
      let prompt := _PROMPT_format (PyStr.take 2000 description) in
      begin_attempt (py_range 1 (max_retries (self st) + 1)) prompt key None st.

(** [classify] from one [await] to the next. *)
Definition resume (t : task) (st : state) : option (task * state) :=
  match t with
  | AwaitCreate attempt rest prompt key r =>
      match on_response json_loads r key st with
      | (inr v, st2) => Some (Finished (inr v), st2)
      | (inl err, st2) =>
          Some (AwaitSleep rest prompt key err,
                emit (EvAsyncioSleep 1)
                     (emit (EvLogFailed attempt (max_retries (self st2)) AsyncGroq err) st2))
      end
  | AwaitSleep rest prompt key err =>
      Some (begin_attempt rest prompt key (Some err) st)
  | _ => None
  end.

Definition note (t : task) (raised : option exn) : option exn :=
  match raised, t with
  | None, Finished (inl e) => Some e
  | _, _ => raised
  end.

(** The event loop runs task [i] up to its next [await], if it can run:
    a queued task needs a free permit. *)
Definition step_task (i : nat) (b : batch) : option batch :=
  match nth_error (tasks b) i with
  | None => None
  | Some (Finished _) => None
  | Some (Queued d) =>
      if 0 <? permits b then
        let '(t, st') := enter d (bstate b) in
        Some (mkBatch st'
                      (if holds_permit t then permits b - 1 else permits b)
                      (set_nth i t (tasks b)) (note t (raised b)))
      else None
  | Some t =>
      match resume t (bstate b) with
      | Some (t', st') =>
          Some (mkBatch st'
                        (if holds_permit t' then permits b else permits b + 1)
                        (set_nth i t' (tasks b)) (note t' (raised b)))
      | None => None
      end
  end.

(** [classify_batch] up to the point where the workers exist;
    [asyncio.Semaphore] refuses a negative value. *)
Definition classify_batch_start (descriptions : list string)
           (max_concurrent : option Z) (st : state) : result batch :=
  if concurrency_limit max_concurrent <? 0
  then inl (Exn ValueError "Semaphore initial value must be >= 0")
  else inr (mkBatch st (concurrency_limit max_concurrent)
                    (map Queued descriptions) None).

(** Run the tasks named by a schedule, skipping those that cannot run. *)
Fixpoint run_schedule (schedule : list nat) (b : batch) : batch :=
  match schedule with
  | [] => b
  | i :: rest =>
      match step_task i b with
      | Some b' => run_schedule rest b'
      | None => run_schedule rest b
      end
  end.

Inductive step : batch -> batch -> Prop :=
| step_intro i b b' : step_task i b = Some b' -> step b b'.

Inductive reachable (b0 : batch) : batch -> Prop :=
| reach_refl : reachable b0 b0
| reach_step b b' : reachable b0 b -> step b b' -> reachable b0 b'.

(** One task driven alone until it has finished. *)
Fixpoint drive (fuel : nat) (t : task) (st : state)
  : option (result categories * state) :=
  match t with
  | Finished r => Some (r, st)
  | _ =>
      match fuel with
      | O => None
      | S k =>
          match resume t st with
          | Some (t', st') => drive k t' st'
          | None => None
          end
      end
  end.

(** An upper bound on the number of resumptions left for a task. *)
Definition task_measure (max_retries : Z) (t : task) : nat :=
  match t with
  | Queued _ => 2 * Z.to_nat max_retries + 2
  | AwaitCreate _ rest _ _ _ => 2 * List.length rest + 2
  | AwaitSleep rest _ _ _ => 2 * List.length rest + 1
  | Finished _ => 0
  end.

Definition batch_measure (b : batch) : nat :=
  list_sum (map (task_measure (max_retries (self (bstate b)))) (tasks b)).

End Batch.

(* ------------------------------------------------------------------ *)
(** ** Vocabulary of the statements *)

Section Answers.

Variable json_loads : string -> result json.

(** What the body of the [try] extracts from an answer of the model
    before it touches the cache: the two values, or the exception. *)
Definition answer (r : api_result) : result categories :=
  match r with
  | Raised e => inl e
  | Completion [] => inl (Exn IndexError "list index out of range")
  | Completion (None :: _) =>
      inl (Exn ClassificationError "API returned an empty response.")
  | Completion (Some c :: _) =>
      if String.eqb c "" then
        inl (Exn ClassificationError "API returned an empty response.")
      else
        match json_loads c with
        | inl e => inl e
        | inr payload =>
            match getitem payload X_KEY, getitem payload Y_KEY with
            | inl e, _ => inl e
            | inr _, inl e => inl e
            | inr x, inr y => inr (x, y)
            end
        end
  end.

End Answers.

(** The request [classify] sends for a description. *)
Definition request_of (self : Classifier) (description : string) : request :=
  Request (model_name self) (user_message (prompt_of description)).

(** A test double for the model: the same completion whatever the call. *)
Definition always (r : api_result) (n : nat) (c : client) (q : request)
  : api_result := r.

(** The JSON object a well-behaved model returns. *)
Definition json_pair (x y : string) : string :=
  "{" ++ dq ++ X_KEY ++ dq ++ ": " ++ dq ++ x ++ dq ++ ", "
      ++ dq ++ Y_KEY ++ dq ++ ": " ++ dq ++ y ++ dq ++ "}".

Definition fresh (c : Classifier) : state := mkState c [].

(** The state after [_parse_response_and_update_cache] has stored a pair:
    the entry is written, the oldest entry leaves if the dictionary has
    outgrown [_cache_size], the addition is logged. *)
Definition stored (key : string) (v : categories) (st : state) : state :=
  let st1 := set_cache (OD.set key v (cache st)) st in
  if OD.len (cache st1) >? _cache_size (self st1) then
    match cache st1 with
    | (k, _) :: d => emit (EvLogAdded key) (emit (EvEvict k) (set_cache d st1))
    | [] => st1
    end
  else emit (EvLogAdded key) st1.

(** The state after a cache hit on [key] holding [v]. *)
Definition promoted (key : string) (v : categories) (st : state) : state :=
  emit (EvLogHit key) (set_cache (OD.remove key (cache st) ++ [(key, v)])%list st).

(** The events of one failed attempt. *)
Definition failed_attempt (c : client) (q : request) (attempt max : Z) (e : exn)
  : list event :=
  [EvCall c q; EvLogFailed attempt max c e;
   match c with Groq => EvTimeSleep 1 | AsyncGroq => EvAsyncioSleep 1 end].

(** Test doubles and sample inputs. *)
Definition good_answer : api_result :=
  Completion
    [Some (json_pair
             "Has Very Good Grammar + Demonstrates Very Good Understanding + Has Clear Visual Clarity"
             "Product Description + Prototype Status + Unique Value Statement")].

Definition off_list_answer : api_result :=
  Completion [Some (json_pair "Pretty Good" "Some Stuff")].

Definition malformed_answer : api_result := Completion [Some "not json"].

Definition auth_failure : api_result :=
  Raised (Exn AuthenticationError "Error code: 401 - Invalid API Key").

Definition bottle : string := "a smart water bottle that tracks hydration".

(** [stk] differs from [st] by failed or pending attempts only: the
    classifier is the same, and the log grew by events that are neither
    uses of the cache nor evictions. *)
Definition attempts_only (st stk : state) : Prop :=
  self stk = self st
  /\ exists evs, trace stk = (trace st ++ evs)%list
                 /\ uses evs = [] /\ evictions evs = 0%nat.

(** The outcome of a retry loop for client [c], in terms of the answers
    of the model to the one request [q] the loop sends. *)
Definition loop_outcome (json_loads : string -> result json)
           (chat : nat -> client -> request -> api_result)
           (c : client) (q : request) (key : string) (budget : nat)
           (st : state) (res : result categories) (st' : state) : Prop :=
  match res with
  | inr v =>
      exists stk,
        attempts_only st stk
        /\ st' = stored key v stk
        /\ (calls (trace st) < calls (trace stk) <= calls (trace st) + budget)%nat
        /\ answer json_loads (chat (calls (trace stk) - 1)%nat c q) = inr v
        /\ forall m, (calls (trace st) <= m < calls (trace stk) - 1)%nat ->
                     is_ok (answer json_loads (chat m c q)) = false
  | inl err =>
      attempts_only st st'
      /\ exn_class_of err = ClassificationError
      /\ calls (trace st') = (calls (trace st) + budget)%nat
      /\ forall m, (calls (trace st) <= m < calls (trace st'))%nat ->
                   is_ok (answer json_loads (chat m c q)) = false
  end.

Definition bad_request : api_result :=
  Raised (Exn BadRequestError "Error code: 400 - malformed request").

(** A key that passes the two checks of [classify_problem_statement]. *)
Definition usable_key (api_key : option string) : Prop :=
  exists k, api_key = Some k /\ k <> ""
            /\ 10 <= Z.of_nat (String.length (PyStr.strip k)).

Definition sample_key : option string := Some "gsk_0123456789abcdef".

Definition groq_request (system_instruction idea_text problem_statement_text : string)
  : request :=
  Request "llama-3.3-70b-versatile"
          [("system", system_instruction);
           ("user", user_prompt idea_text problem_statement_text)].

(** The settings of a classifier that no method changes. *)
Definition config (c : Classifier) : string * Z * Z :=
  (model_name c, max_retries c, _cache_size c).

(** The client an operation talks to. *)
Definition op_client (o : op) : client :=
  match o with Classify _ => AsyncGroq | ClassifySync _ => Groq end.

(** Every call takes one of three ways: the input is refused, the cache
    answers, or the retry loop runs. *)
Inductive call_outcome (json_loads : string -> result json)
          (chat : nat -> client -> request -> api_result) (o : op) (st : state)
  : result categories -> state -> Prop :=
| call_blank :
    PyStr.strip (op_text o) = "" ->
    call_outcome json_loads chat o st
      (inl (Exn ClassificationError "Description cannot be empty.")) st
| call_hit v :
    PyStr.strip (op_text o) <> "" ->
    OD.get (key_of (op_text o)) (cache st) = Some v ->
    call_outcome json_loads chat o st (inr v) (promoted (key_of (op_text o)) v st)
| call_miss res st' :
    PyStr.strip (op_text o) <> "" ->
    OD.contains (key_of (op_text o)) (cache st) = false ->
    loop_outcome json_loads chat (op_client o)
                 (request_of (self st) (op_text o)) (key_of (op_text o))
                 (Z.to_nat (max_retries (self st))) st res st' ->
    call_outcome json_loads chat o st res st'.

(** An event of the asynchronous path, seen on the synchronous path: the
    other client, [time.sleep] for [asyncio.sleep]. *)
Definition sync_event (e : event) : event :=
  match e with
  | EvCall _ q => EvCall Groq q
  | EvAsyncioSleep s => EvTimeSleep s
  | EvLogFailed a m _ err => EvLogFailed a m Groq err
  | _ => e
  end.

Definition sync_view (st : state) : state :=
  mkState (self st) (map sync_event (trace st)).

(** Two texts of 2001 characters that differ in the last one only. *)
Definition long_text (last : string) : string :=
  String.concat "" (repeat "a" 2000) ++ last.

(** The keys that left the cache, in the order they left. *)
Fixpoint evicted (tr : list event) : list string :=
  match tr with
  | [] => []
  | EvEvict k :: r => k :: evicted r
  | _ :: r => evicted r
  end.

(** The cache lists its keys from the least to the most recently used:
    they are the last keys of the recency order of the log. *)
Definition lru_ordered (st : state) : Prop :=
  suffix_of (OD.keys (cache st)) (recency (uses (trace st))).

(** [classify] on each description in turn. *)
Definition classify_each (descriptions : list string) : list op :=
  map Classify descriptions.

(** A cache of capacity [capacity] as the specification describes it, on
    keys alone: a new key goes to the most recent end, and when the
    capacity is exceeded the least recently used key leaves. The state is
    the pair of the keys held, least recently used first, and of the keys
    evicted so far. *)
Definition lru_insert (capacity : Z) (s : list string * list string) (k : string)
  : list string * list string :=
  let '(held, gone) := s in
  let grown := (held ++ [k])%list in
  if Z.of_nat (List.length grown) >? capacity
  then (tl grown, (gone ++ firstn 1 grown)%list)
  else (grown, gone).

(** The shape the docstring of [classify_problem_statement] promises:
    a boolean under ['success']; with [True], a dictionary under ['data']
    holding both category keys; with [False], a message under ['error']. *)
Definition well_formed_envelope (env : envelope) : Prop :=
  match OD.get "success" env with
  | Some (PBool true) =>
      exists d x y,
        OD.get "data" env = Some (PDict d)
        /\ OD.get X_KEY d = Some x /\ OD.get Y_KEY d = Some y
  | Some (PBool false) => exists msg, OD.get "error" env = Some (PStr msg)
  | _ => False
  end.

(** Where an envelope of the loop comes from: a failure built by the
    function itself, or the parse of a text the model returned. *)
Definition envelope_origin (json_loads : string -> result json)
           (chat : nat -> client -> request -> api_result)
           (q : request) (env : envelope) : Prop :=
  (exists msg, env = failure msg)
  \/ (exists n text rest,
         chat n Groq q = Completion (Some text :: rest)
         /\ text <> ""
         /\ env = _parse_classification_response json_loads text).

(** One task running from one [await] to the next. *)
Inductive task_step (json_loads : string -> result json)
          (chat : nat -> client -> request -> api_result) (st : state)
  : task -> task -> state -> Prop :=
| ts_enter d t' st' :
    enter chat d st = (t', st') ->
    task_step json_loads chat st (Queued d) t' st'
| ts_resume t t' st' :
    holds_permit t = true ->
    resume json_loads chat t st = Some (t', st') ->
    task_step json_loads chat st t t' st'.

Definition permit (t : task) : Z := if holds_permit t then 1 else 0.

(** A scheduler that always resumes the first task able to run. *)
Fixpoint first_step (json_loads : string -> result json)
         (chat : nat -> client -> request -> api_result)
         (candidates : list nat) (b : batch) : option batch :=
  match candidates with
  | [] => None
  | i :: rest =>
      match step_task json_loads chat i b with
      | Some b' => Some b'
      | None => first_step json_loads chat rest b
      end
  end.

Fixpoint run_to_end (json_loads : string -> result json)
         (chat : nat -> client -> request -> api_result)
         (fuel : nat) (b : batch) : batch :=
  match fuel with
  | O => b
  | S k =>
      match first_step json_loads chat (seq 0 (List.length (tasks b))) b with
      | Some b' => run_to_end json_loads chat k b'
      | None => b
      end
  end.

(** No worker has raised as long as [gather] has no exception to
    deliver. *)
Definition none_failed (b : batch) : Prop :=
  raised b = None -> forall e, ~ In (Finished (inl e)) (tasks b).

(** The batch against a stubbed model that answers each request by a
    fixed function [f] of the request, as a test double does. *)
Section BatchSpec.

Variable json_loads : string -> result json.
Variable f : request -> api_result.
Variable c0 : Classifier.

(** The classification of a description: what the answer of the model
    to its prompt holds, if that answer is accepted. *)
Definition expected (d : string) : result categories :=
  answer json_loads (f (request_of c0 d)).

(** A task works for description [d]: it carries the prompt and the key
    of [d], and if it has returned, it has returned the classification of
    [d]. *)
Definition task_for (d : string) (t : task) : Prop :=
  match t with
  | Queued d' => d' = d
  | AwaitCreate _ _ prompt key r =>
      prompt = prompt_of d /\ key = key_of d /\ r = f (request_of c0 d)
  | AwaitSleep _ prompt key _ => prompt = prompt_of d /\ key = key_of d
  | Finished (inr v) => expected d = inr v
  | Finished (inl _) => True
  end.

(** Every entry of the cache under the key of a description of the batch
    holds the classification of that description. *)
Definition cache_agrees (descriptions : list string) (st : state) : Prop :=
  forall d v,
    In d descriptions -> In (key_of d, v) (cache st) -> expected d = inr v.

(** Two descriptions of the batch with the same key have the same
    prompt. *)
Definition no_collision (descriptions : list string) : Prop :=
  forall d d',
    In d descriptions -> In d' descriptions ->
    key_of d = key_of d' -> prompt_of d = prompt_of d'.

End BatchSpec.

(** A test double that answers by the content of the prompt. *)
Definition robot_stub (q : request) : api_result :=
  match req_messages q with
  | (_, prompt) :: _ =>
      if PyStr.contains "a robot" prompt
      then Completion [Some (json_pair "Has some Grammar" "Prototype Status")]
      else good_answer
  | [] => malformed_answer
  end.

Definition sample_batch : list string :=
  ["a simple todo list app"; "a robot that waters plants"; " a simple todo list app "].

(** The model behind a stub: the call number and the client do not
    matter. *)
Definition stubbed_by (f : request -> api_result)
           (n : nat) (c : client) (q : request) : api_result := f q.

(** A schedule in which the second task completes first and the third
    one, kept waiting for a permit, completes last. *)
Definition sample_schedule : list nat := [0; 1; 2; 1; 2; 0; 2]%nat.

Definition sample_results : list categories :=
  [(JString "Has Very Good Grammar + Demonstrates Very Good Understanding + Has Clear Visual Clarity",
    JString "Product Description + Prototype Status + Unique Value Statement");
   (JString "Has some Grammar", JString "Prototype Status");
   (JString "Has Very Good Grammar + Demonstrates Very Good Understanding + Has Clear Visual Clarity",
    JString "Product Description + Prototype Status + Unique Value Statement")].

(** The keys are sixteen hexadecimal digits: the first two words of the
    MD5 state. There are [2 ^ 64] of them. *)
Definition key_space : nat := Z.to_nat (2 ^ 64).

Definition hex_word (x : Z) : string :=
  String.concat "" (map MD5.hex_byte (MD5.le_bytes 4 x)).

Definition key_words (text : string) : Z * Z :=
  let '(a, b, _, _) := MD5.compress (PyStr.encode text) in (a, b).

Definition key_code (text : string) : nat :=
  let '(a, b) := key_words text in Z.to_nat (a + 2 ^ 32 * b).

Definition no_space (s : string) : bool :=
  forallb (fun c => negb (PyStr.isspace c)) (list_ascii_of_string s).

(** Texts of at most 2021 characters that agree on their first 2000
    characters and differ after them. *)
Definition numbered_text (i : nat) : string :=
  long_text ("b" ++ DecimalString.NilEmpty.string_of_uint (Nat.to_uint i)).

(* ------------------------------------------------------------------ *)
(** ** [OptimizedPrototypeClassifier.__init__] *)

(** [x or y] on two optional strings. *)
Definition py_or (x y : option string) : option string :=
  match x with
  | Some s => if String.eqb s "" then y else x
  | None => y
  end.

(** A key that is missing or empty. *)
Definition no_key (k : option string) : Prop := k = None \/ k = Some "".

Section Constructor.

(** The first statement of the constructor,
    [logging.basicConfig(level=getattr(logging, log_level.upper(),
    logging.INFO), format=...)]: the exception it raises for a
    [log_level], if it raises one. A [log_level] that names an attribute
    of [logging] which is no level, such as [basic_format], gets a
    [ValueError] when the root logger has no handler yet; what happens
    depends on the handlers the process has installed, so the outcome is
    a parameter. *)
Variable basicConfig : string -> option exn.

(** The constructor, with its keyword arguments resolved. It sets up
    logging, and then fixes the key both clients are built with, from the
    argument or else from the environment variable [GROQ_API_KEY], or
    raises. The construction of the clients from a key that is not empty
    is taken to succeed; [timeout] is only stored and has no part in the
    model of the calls. *)
Definition __init__ (GROQ_API_KEY api_key : option string)
           (model_name : string) (max_retries cache_size : Z)
           (log_level : string)
  : result (string * Classifier) :=
  let not_set :=
    Exn ClassificationError
        "GROQ_API_KEY not set. Add it to your .env or environment variables." in
  match basicConfig log_level with
  | Some e => inl e
  | None =>
      match py_or api_key GROQ_API_KEY with
      | None => inl not_set
      | Some key =>
          if String.eqb key "" then inl not_set
          else inr (key, mkClassifier model_name max_retries OD.empty cache_size)
      end
  end.

End Constructor.

(* ------------------------------------------------------------------ *)
(** ** [main_groq.py]: the caller of [classify_problem_statement] *)

(** What [evaluate_problem_statement] gives [print] to write to the
    standard output: the result it received, or the text of the
    exception it caught. *)
Inductive printed : Type :=
| PrintResult (result : option envelope)
| PrintError (message : string).

(** [bool(v)] *)
Definition truthy (v : pyval) : bool :=
  match v with
  | PBool b => b
  | PStr s => negb (String.eqb s "")
  | PDict d => match d with [] => false | _ :: _ => true end
  end.

(** The two dictionaries [evaluate_problem_statement] returns. *)
Definition evaluation (data : pyval) : envelope :=
  [("success", PBool true); ("evaluation", data)].

Definition no_evaluation (error : pyval) : envelope :=
  [("success", PBool false); ("error", error)].

Section Caller.

(** [print] on the standard output of the process: the exception it
    raises, if it raises one that [except Exception] catches, as a
    [UnicodeEncodeError] under an encoding that lacks a character of the
    text, or an [OSError] on a closed pipe. *)
Variable print : printed -> option exn.
Variable json_loads : string -> result json.
Variable chat : nat -> client -> request -> api_result.
Variable GROQ_API_KEY : option string.
Variable system_instruction : string.

(** [main_groq.evaluate_problem_statement]: the dictionary it returns or
    the exception that leaves it, the texts [print] has written, and the
    log of the calls. Both [print]s belong to the function: the first one
    is inside the [try], the second one inside the [except] branch, from
    where an exception leaves the function. *)
Definition evaluate_problem_statement (idea problem_statement : string)
           (tr : list event) : result envelope * list printed * list event :=
  let '(result, tr1) :=
    classify_problem_statement json_loads chat GROQ_API_KEY system_instruction
                               idea problem_statement tr in
  let caught (out : list printed) (e : exn) :=
    match print (PrintError (exn_str e)) with
    | Some e' => (inl e', out, tr1)
    | None =>
        (inr (no_evaluation (PStr (exn_str e))),
         (out ++ [PrintError (exn_str e)])%list, tr1)
    end in
  match print (PrintResult result) with
  | Some e => caught [] e
  | None =>
      let out := [PrintResult result] in
      match result with
      | None =>
          caught out
                 (Exn TypeError
                      (sq ++ "NoneType" ++ sq ++ " object is not subscriptable"))
      | Some env =>
          match OD.get "success" env with
          | None => caught out (Exn KeyError (repr_key "success"))
          | Some s =>
              if truthy s then
                match OD.get "data" env with
                | None => caught out (Exn KeyError (repr_key "data"))
                | Some data => (inr (evaluation data), out, tr1)
                end
              else
                match OD.get "error" env with
                | Some error => (inr (no_evaluation error), out, tr1)
                | None =>
                    (inr (no_evaluation
                            (PStr "An unknown error occurred in the classifier.")),
                     out, tr1)
                end
          end
      end
  end.

End Caller.

(* ------------------------------------------------------------------ *)
(** ** Vocabulary of the further properties *)

(** A digit of [hexdigest]: [0-9] or [a-f]. *)
Definition is_hex_digit (c : ascii) : bool :=
  let n := PyStr.ord c in
  ((48 <=? n) && (n <=? 57)) || ((97 <=? n) && (n <=? 102)).

(** The seconds a log spends asleep. *)
Fixpoint slept_seconds (tr : list event) : Z :=
  match tr with
  | [] => 0
  | EvTimeSleep s :: r | EvAsyncioSleep s :: r => s + slept_seconds r
  | _ :: r => slept_seconds r
  end.

(** What one run of a retry loop costs: the calls it made, within its
    budget, and the seconds it slept; a run that fails has used the
    whole budget and slept after every call. *)
Definition loop_cost (budget : nat) (st : state) (res : result categories)
           (st' : state) : Prop :=
  exists made : nat,
    calls (trace st') = (calls (trace st) + made)%nat
    /\ (made <= budget)%nat
    /\ match res with
       | inr _ =>
           (1 <= made)%nat
           /\ slept_seconds (trace st')
              = slept_seconds (trace st) + Z.of_nat made - 1
       | inl e =>
           made = budget
           /\ slept_seconds (trace st') = slept_seconds (trace st) + Z.of_nat made
           /\ self st' = self st
           /\ exists last, e = failed_after (max_retries (self st)) last
       end.

(** The cache holds no more entries than its capacity allows, and no key
    twice. *)
Definition within_capacity (st : state) : Prop :=
  OD.len (cache st) <= Z.max 0 (_cache_size (self st))
  /\ NoDup (OD.keys (cache st)).

(** The worker of a blank description is waiting for a permit or has
    raised; the exception [gather] holds is a [ClassificationError]. *)
Definition blank_at (i : nat) (b : batch) : Prop :=
  (exists t, nth_error (tasks b) i = Some t
             /\ ((exists d, t = Queued d /\ PyStr.strip d = "")
                 \/ exists e, t = Finished (inl e)))
  /\ forall e, raised b = Some e -> exn_class_of e = ClassificationError.

(** The log of the longest run of [classify_problem_statement]: three
    calls, with sleeps of one and two seconds between them. *)
Definition backoff_log (q : request) : list event :=
  [EvCall Groq q; EvTimeSleep 1; EvCall Groq q; EvTimeSleep 2; EvCall Groq q].


(** An answer after which [classify_problem_statement] tries again when
    it has an attempt left: a completion without content, or an exception
    whose message names neither an authentication failure nor a rate
    limit. *)
Definition retriable (r : api_result) : bool :=
  match r with
  | Completion choices => no_content choices
  | Raised e =>
      negb (PyStr.contains "authentication" (PyStr.lower (exn_str e)))
      && negb (PyStr.contains "rate_limit" (PyStr.lower (exn_str e)))
  end.

(** What a loop that classifies the descriptions one after the other
    hands over once all of them have been tried: the first exception, or
    the list of the pairs. *)
Fixpoint collect (rs : list (result categories)) : result (list categories) :=
  match rs with
  | [] => inr []
  | inl e :: _ => inl e
  | inr v :: rest =>
      match collect rest with
      | inl e => inl e
      | inr vs => inr (v :: vs)
      end
  end.

(** A task runs to its end, alone, from state [st]. *)
Definition finishes (json_loads : string -> result json)
           (chat : nat -> client -> request -> api_result)
           (t : task) (st : state) (r : result categories) (st' : state)
  : Prop :=
  exists fuel, drive json_loads chat fuel t st = Some (r, st').

(** Every task of a list has returned or raised. *)
Definition all_finished (pre : list task) : Prop :=
  forall t, In t pre -> exists r, t = Finished r.

(** The calls to the model a task may still make, with a retry budget of
    [budget] attempts. *)
Definition calls_left (budget : nat) (t : task) : nat :=
  match t with
  | Queued _ => budget
  | AwaitCreate _ rest _ _ _ | AwaitSleep rest _ _ _ => List.length rest
  | Finished _ => 0
  end.

(** What every step of a batch of [n] descriptions started in [st0]
    keeps: the settings, the capacity of the cache, the budget of
    calls. *)
Definition batch_kept (st0 : state) (n : nat) (b : batch) : Prop :=
  let budget := Z.to_nat (max_retries (self st0)) in
  config (self (bstate b)) = config (self st0)
  /\ within_capacity (bstate b)
  /\ (calls (trace (bstate b)) + list_sum (map (calls_left budget) (tasks b))
      <= calls (trace st0) + n * budget)%nat.

(** A test double that plays a script: the call numbered [n] gets the
    [n]-th answer of the list, and [otherwise] once the list is used
    up. *)
Definition scripted (answers : list api_result) (otherwise : api_result)
           (n : nat) (c : client) (q : request) : api_result :=
  nth n answers otherwise.

Definition rate_limited : api_result :=
  Raised (Exn RateLimitError "Error code: 429 - Rate_Limit_Exceeded").

(** [[await self.classify(d) for d in descriptions]]: the descriptions
    classified one after the other, each call returning before the next
    begins, up to the first call that raises. *)
Fixpoint classify_all (json_loads : string -> result json)
         (chat : nat -> client -> request -> api_result)
         (descriptions : list string) (st : state)
  : result (list categories) * state :=
  match descriptions with
  | [] => (inr [], st)
  | d :: rest =>
      match classify json_loads chat d st with
      | (inl e, st1) => (inl e, st1)
      | (inr v, st1) =>
          match classify_all json_loads chat rest st1 with
          | (inl e, st2) => (inl e, st2)
          | (inr vs, st2) => (inr (v :: vs), st2)
          end
      end
  end.

(** The event loop up to the point where [gather] has something to
    deliver: it resumes the first task able to run until a worker has
    raised or all workers have returned. What the workers still pending
    do after an exception is left open. *)
Fixpoint run_to_gather (json_loads : string -> result json)
         (chat : nat -> client -> request -> api_result)
         (fuel : nat) (b : batch) : batch :=
  match gathered b, fuel with
  | Some _, _ | None, O => b
  | None, S k =>
      match first_step json_loads chat (seq 0 (List.length (tasks b))) b with
      | Some b' => run_to_gather json_loads chat k b'
      | None => b
      end
  end.

(* ================================================================== *)
(** * Properties *)

(* ------------------------------------------------------------------ *)
(** ** The primitives on known values *)

Example md5_empty : MD5.hexdigest [] = "d41d8cd98f00b204e9800998ecf8427e".
Proof. vm_compute. reflexivity. Qed.

Example md5_abc :
  MD5.hexdigest (PyStr.encode "abc") = "900150983cd24fb0d6963f7d28e17f72".
Proof. vm_compute. reflexivity. Qed.

Example md5_latin1 :
  MD5.hexdigest (PyStr.encode (String (PyStr.chr 233) ""))
  = "66ddcd97cfdeabb2f6fb8a999b4bc76f".
Proof. vm_compute. reflexivity. Qed.

Example hash_bottle : _hash "a smart water bottle" = "0fb0dffd44bf7132".
Proof. vm_compute. reflexivity. Qed.

Example json_loads_pair :
  Json.loads ("{" ++ dq ++ "a" ++ dq ++ ": [1, -2.5e3, true, null], "
                  ++ dq ++ "b" ++ dq ++ " : " ++ dq ++ "x y" ++ dq ++ " } ")
  = inr (JObject [("a", JArray [JNumber "1"; JNumber "-2.5e3"; JBool true; JNull]);
                  ("b", JString "x y")]).
Proof. vm_compute. reflexivity. Qed.

Example json_loads_bad : Json.loads "not json" = inl (Exn JSONDecodeError "Expecting value").
Proof. vm_compute. reflexivity. Qed.

(** Every vocabulary entry is quoted in the text sent to the model. *)
Example vocabulary_in_prompt :
  forallb (fun v => PyStr.contains (dq ++ v ++ dq) (_PROMPT_format ""))
          (x_vocabulary ++ y_vocabulary)%list = true
  /\ List.length x_vocabulary = 18%nat /\ List.length y_vocabulary = 33%nat.
Proof. vm_compute. repeat split. Qed.

(* ------------------------------------------------------------------ *)
(** ** Stripping *)

Module PyStrFacts.
Import PyStr.

Lemma lstrip_all_space s : all_space s = true -> lstrip s = "".
Proof.
  unfold all_space.
  induction s as [|c s IH]; simpl; [reflexivity|].
  intros H. apply andb_true_iff in H as [Hc Hs].
  rewrite Hc. auto.
Qed.

Lemma rstrip_empty s : rstrip s = "" -> all_space s = true.
Proof.
  unfold all_space.
  induction s as [|c s IH]; simpl; [reflexivity|].
  destruct (rstrip s) eqn:E.
  - destruct (isspace c); [intros _; simpl; auto | discriminate].
  - discriminate.
Qed.

Lemma lstrip_head s c r : lstrip s = String c r -> isspace c = false.
Proof.
  induction s as [|c' s IH]; simpl; [discriminate|].
  destruct (isspace c') eqn:E; [exact IH|].
  intros H. injection H as -> _. exact E.
Qed.

Lemma lstrip_empty s : lstrip s = "" -> all_space s = true.
Proof.
  unfold all_space.
  induction s as [|c s IH]; simpl; [reflexivity|].
  destruct (isspace c); [simpl; exact IH | discriminate].
Qed.

(** [s.strip()] is empty exactly when [s] holds nothing but whitespace. *)
Lemma strip_empty_iff s : strip s = "" <-> all_space s = true.
Proof.
  unfold strip. split.
  - intros H. apply rstrip_empty in H.
    destruct (lstrip s) as [|c r] eqn:E.
    + apply lstrip_empty. exact E.
    + apply lstrip_head in E. unfold all_space in H. simpl in H.
      rewrite E in H. discriminate.
  - intros H. rewrite (lstrip_all_space _ H). reflexivity.
Qed.

Lemma take_app n s t : String.length s = n -> take n (s ++ t) = s.
Proof.
  revert n. induction s as [|c s IH]; intros n <-; simpl.
  - destruct t; reflexivity.
  - now rewrite IH.
Qed.

End PyStrFacts.

(* ------------------------------------------------------------------ *)
(** ** The ordered dictionary *)

Module ODFacts.
Import OD.

Section Facts.
Context {V : Type}.
Implicit Types (d : t V) (k : string) (v : V).

Lemma contains_In k d : contains k d = true <-> In k (keys d).
Proof.
  unfold contains, keys. rewrite existsb_exists. split.
  - intros ((k', v) & Hin & He). apply String.eqb_eq in He. simpl in He.
    subst. change k' with (fst (k', v)). now apply in_map.
  - intros H. apply in_map_iff in H as ((k', v) & <- & Hin).
    exists (k', v). split; [exact Hin | apply String.eqb_refl].
Qed.

Lemma contains_false k d : contains k d = false <-> ~ In k (keys d).
Proof.
  rewrite <- contains_In. destruct (contains k d); split; congruence.
Qed.

Lemma contains_get k d : contains k d = true <-> exists v, get k d = Some v.
Proof.
  induction d as [|(k', v') d IH]; simpl.
  - split; [discriminate | intros (? & ?); discriminate].
  - destruct (String.eqb k k'); simpl.
    + split; eauto.
    + exact IH.
Qed.

Lemma get_none k d : contains k d = false <-> get k d = None.
Proof.
  pose proof (contains_get k d) as [H1 H2].
  destruct (contains k d), (get k d) as [v|]; split; try congruence.
  - intros _. destruct (H1 eq_refl). discriminate.
  - intros _. assert (false = true) by (apply H2; eauto). discriminate.
Qed.

Lemma set_new k v d : contains k d = false -> set k v d = (d ++ [(k, v)])%list.
Proof.
  induction d as [|(k', v') d IH]; simpl; [reflexivity|].
  destruct (String.eqb k k'); simpl; [discriminate|].
  intros H. now rewrite IH.
Qed.

Lemma set_not_nil k v d : set k v d <> [].
Proof.
  destruct d as [|(k', v') d]; simpl; [discriminate|].
  destruct (String.eqb k k'); discriminate.
Qed.

Lemma get_set_same k v d : get k (set k v d) = Some v.
Proof.
  induction d as [|(k', v') d IH]; simpl.
  - now rewrite String.eqb_refl.
  - destruct (String.eqb k k') eqn:E; simpl.
    + now rewrite String.eqb_refl.
    + now rewrite E.
Qed.

Lemma get_set_other k k' v d : k <> k' -> get k (set k' v d) = get k d.
Proof.
  intros Hne. apply String.eqb_neq in Hne.
  induction d as [|(k2, v2) d IH]; simpl.
  - now rewrite Hne.
  - destruct (String.eqb k' k2) eqn:E; simpl.
    + apply String.eqb_eq in E. subst. now rewrite Hne.
    + now rewrite IH.
Qed.

Lemma get_app k d d' :
  get k (d ++ d')%list = match get k d with Some v => Some v | None => get k d' end.
Proof.
  induction d as [|(k2, v2) d IH]; simpl; [reflexivity|].
  destruct (String.eqb k k2); [reflexivity | exact IH].
Qed.

Lemma get_remove_same k d : get k (remove k d) = None.
Proof.
  unfold remove. induction d as [|(k2, v2) d IH]; simpl; [reflexivity|].
  destruct (String.eqb k k2) eqn:E; simpl; [exact IH|].
  now rewrite E.
Qed.

Lemma get_remove_other k k' d : k <> k' -> get k (remove k' d) = get k d.
Proof.
  intros Hne. unfold remove.
  induction d as [|(k2, v2) d IH]; simpl; [reflexivity|].
  destruct (String.eqb k' k2) eqn:E; simpl.
  - apply String.eqb_eq in E. subst.
    apply String.eqb_neq in Hne. now rewrite Hne.
  - now rewrite IH.
Qed.

Lemma keys_remove k d :
  keys (remove k d) = filter (fun k' => negb (String.eqb k k')) (keys d).
Proof.
  unfold keys, remove.
  induction d as [|(k2, v2) d IH]; simpl; [reflexivity|].
  destruct (String.eqb k k2); simpl; now rewrite IH.
Qed.

(** A hit moves the key to the most recent end and keeps its value. *)
Lemma move_to_end_spec k d :
  contains k d = true ->
  exists v, get k d = Some v
            /\ move_to_end k d = Some (remove k d ++ [(k, v)])%list
            /\ get k (remove k d ++ [(k, v)])%list = Some v.
Proof.
  intros H. apply contains_get in H as (v & Hv).
  exists v. unfold move_to_end. rewrite Hv. repeat split.
  rewrite get_app, get_remove_same. simpl. now rewrite String.eqb_refl.
Qed.

Lemma keys_app d d' : keys (d ++ d')%list = (keys d ++ keys d')%list.
Proof. apply map_app. Qed.

Lemma keys_tl d : keys (tl d) = tl (keys d).
Proof. now destruct d. Qed.

End Facts.
End ODFacts.

(* ------------------------------------------------------------------ *)
(** ** Logs *)

Lemma calls_app tr tr' : calls (tr ++ tr') = (calls tr + calls tr')%nat.
Proof. unfold calls. now rewrite filter_app, length_app. Qed.

Lemma sleeps_app tr tr' : sleeps (tr ++ tr') = (sleeps tr + sleeps tr')%nat.
Proof. unfold sleeps. now rewrite filter_app, length_app. Qed.

Lemma evictions_app tr tr' :
  evictions (tr ++ tr') = (evictions tr + evictions tr')%nat.
Proof. unfold evictions. now rewrite filter_app, length_app. Qed.

Lemma uses_app tr tr' : uses (tr ++ tr') = (uses tr ++ uses tr')%list.
Proof.
  induction tr as [|e tr IH]; simpl; [reflexivity|].
  destruct e; simpl; now rewrite ?IH.
Qed.

Lemma py_range_length a b : List.length (py_range a b) = Z.to_nat (b - a).
Proof. unfold py_range. now rewrite length_map, length_seq. Qed.

Lemma py_range_attempts n :
  List.length (py_range 1 (n + 1)) = Z.to_nat n.
Proof. rewrite py_range_length. f_equal. lia. Qed.

(* ------------------------------------------------------------------ *)
(** ** One attempt *)

Section EngineFacts.

Variable json_loads : string -> result json.
Variable chat : nat -> client -> request -> api_result.

Abbreviation classify := (classify json_loads chat).
Abbreviation classify_sync := (classify_sync json_loads chat).
Abbreviation classify_loop := (classify_loop json_loads chat).
Abbreviation classify_sync_loop := (classify_sync_loop json_loads chat).
Abbreviation on_response := (on_response json_loads).
Abbreviation answer := (answer json_loads).

(** Parsing either fails and leaves the state alone, or stores the two
    values found under the two keys. *)
Lemma parse_spec text key st :
  _parse_response_and_update_cache json_loads text key st
  = match json_loads text with
    | inl e => (inl e, st)
    | inr payload =>
        match getitem payload X_KEY, getitem payload Y_KEY with
        | inl e, _ => (inl e, st)
        | inr _, inl e => (inl e, st)
        | inr x, inr y => (inr (x, y), stored key (x, y) st)
        end
    end.
Proof.
  unfold _parse_response_and_update_cache, stored.
  destruct (json_loads text) as [e|payload]; [reflexivity|].
  destruct (getitem payload X_KEY) as [e|x]; [reflexivity|].
  destruct (getitem payload Y_KEY) as [e|y]; [reflexivity|].
  cbv zeta.
  destruct (OD.len _ >? _); [|reflexivity].
  unfold OD.popitem_first.
  destruct (cache (set_cache _ st)) as [|(k, w) d] eqn:E; [|reflexivity].
  exfalso. unfold cache, set_cache in E. simpl in E.
  exact (ODFacts.set_not_nil _ _ _ E).
Qed.

Lemma on_response_answer r key st :
  on_response r key st
  = match answer r with
    | inl e => (inl e, st)
    | inr v => (inr v, stored key v st)
    end.
Proof.
  unfold on_response, answer.
  destruct r as [e|[|[c|] cs]]; try reflexivity.
  destruct (String.eqb c ""); [reflexivity|].
  rewrite parse_spec.
  destruct (json_loads c) as [e|payload]; [reflexivity|].
  destruct (getitem payload X_KEY) as [e|x]; [reflexivity|].
  destruct (getitem payload Y_KEY) as [e|y]; reflexivity.
Qed.

(** One turn of the retry loop of [classify]. *)
Lemma classify_loop_cons attempt rest prompt key last st :
  classify_loop (attempt :: rest) prompt key last st
  = let q := Request (model_name (self st)) (user_message prompt) in
    match answer (chat (calls (trace st)) AsyncGroq q) with
    | inr v => (inr v, stored key v (emit (EvCall AsyncGroq q) st))
    | inl e =>
        classify_loop rest prompt key (Some e)
          (mkState (self st)
                   (trace st ++ failed_attempt AsyncGroq q attempt
                                              (max_retries (self st)) e))
    end.
Proof.
  simpl. unfold create. rewrite on_response_answer.
  destruct (answer _) as [e|v]; [|reflexivity].
  unfold emit. simpl. rewrite <- !app_assoc. reflexivity.
Qed.

Lemma classify_sync_loop_cons attempt rest prompt key last st :
  classify_sync_loop (attempt :: rest) prompt key last st
  = let q := Request (model_name (self st)) (user_message prompt) in
    match answer (chat (calls (trace st)) Groq q) with
    | inr v => (inr v, stored key v (emit (EvCall Groq q) st))
    | inl e =>
        classify_sync_loop rest prompt key (Some e)
          (mkState (self st)
                   (trace st ++ failed_attempt Groq q attempt
                                              (max_retries (self st)) e))
    end.
Proof.
  simpl. unfold create. rewrite on_response_answer.
  destruct (answer _) as [e|v]; [|reflexivity].
  unfold emit. simpl. rewrite <- !app_assoc. reflexivity.
Qed.

(** The three ways through [classify]. *)
Lemma classify_blank d st :
  PyStr.strip d = "" ->
  classify d st = (inl (Exn ClassificationError "Description cannot be empty."), st).
Proof. intros H. unfold classify. now rewrite H. Qed.

Lemma classify_hit d st v :
  PyStr.strip d <> "" ->
  OD.get (key_of d) (cache st) = Some v ->
  classify d st = (inr v, promoted (key_of d) v st).
Proof.
  intros Hne Hget. unfold classify.
  apply String.eqb_neq in Hne. rewrite Hne.
  fold (key_of d).
  assert (Hc : OD.contains (key_of d) (cache st) = true)
    by (apply ODFacts.contains_get; eauto).
  rewrite Hc.
  destruct (ODFacts.move_to_end_spec _ _ Hc) as (v' & Hv' & Hm & Hg).
  rewrite Hget in Hv'. injection Hv' as <-.
  rewrite Hm. unfold promoted, emit, set_cache, cache in *. simpl.
  now rewrite Hg.
Qed.

Lemma classify_miss d st :
  PyStr.strip d <> "" ->
  OD.contains (key_of d) (cache st) = false ->
  classify d st
  = classify_loop (py_range 1 (max_retries (self st) + 1))
                  (prompt_of d) (key_of d) None st.
Proof.
  intros Hne Hc. unfold classify.
  apply String.eqb_neq in Hne. rewrite Hne.
  fold (key_of d). now rewrite Hc.
Qed.

Lemma classify_sync_blank d st :
  PyStr.strip d = "" ->
  classify_sync d st
  = (inl (Exn ClassificationError "Description cannot be empty."), st).
Proof. intros H. unfold classify_sync. now rewrite H. Qed.

Lemma classify_sync_hit d st v :
  PyStr.strip d <> "" ->
  OD.get (key_of d) (cache st) = Some v ->
  classify_sync d st = (inr v, promoted (key_of d) v st).
Proof.
  intros Hne Hget. unfold classify_sync.
  apply String.eqb_neq in Hne. rewrite Hne.
  fold (key_of d).
  assert (Hc : OD.contains (key_of d) (cache st) = true)
    by (apply ODFacts.contains_get; eauto).
  rewrite Hc.
  destruct (ODFacts.move_to_end_spec _ _ Hc) as (v' & Hv' & Hm & Hg).
  rewrite Hget in Hv'. injection Hv' as <-.
  rewrite Hm. unfold promoted, emit, set_cache, cache in *. simpl.
  now rewrite Hg.
Qed.

Lemma classify_sync_miss d st :
  PyStr.strip d <> "" ->
  OD.contains (key_of d) (cache st) = false ->
  classify_sync d st
  = classify_sync_loop (py_range 1 (max_retries (self st) + 1))
                       (prompt_of d) (key_of d) None st.
Proof.
  intros Hne Hc. unfold classify_sync.
  apply String.eqb_neq in Hne. rewrite Hne.
  fold (key_of d). now rewrite Hc.
Qed.

End EngineFacts.

(* ------------------------------------------------------------------ *)
(** ** Input rejection *)

(** C4. An empty or whitespace-only description makes [classify] raise
    [ClassificationError("Description cannot be empty.")] at once: the
    state after the call is the state before it, so no prompt was
    assembled, no call to the model was made, and the cache is as it
    was. *)
Theorem classify_rejects_blank_input :
  forall json_loads chat description st,
    PyStr.all_space description = true ->
    classify json_loads chat description st
    = (inl (Exn ClassificationError "Description cannot be empty."), st).
Proof.
  intros json_loads chat description st H.
  apply classify_blank. now apply PyStrFacts.strip_empty_iff.
Qed.

Lemma classify_rejects_blank_input_witness :
  PyStr.all_space "   " = true
  /\ classify Json.loads (always good_answer) "   " (fresh default_classifier)
     = (inl (Exn ClassificationError "Description cannot be empty."),
        fresh default_classifier).
Proof.
  split; [reflexivity|].
  apply classify_rejects_blank_input. reflexivity.
Defined.

(* ------------------------------------------------------------------ *)
(** ** Retry exhaustion *)

Section RetryFacts.

Variable json_loads : string -> result json.
Variable chat : nat -> client -> request -> api_result.

Abbreviation classify_loop := (classify_loop json_loads chat).
Abbreviation answer := (answer json_loads).

(** When every answer to the request is refused, the loop runs once per
    attempt number, leaves the classifier as it was, and raises with
    the error of the last attempt. *)
Lemma classify_loop_all_fail attempts prompt key :
  forall last st,
    (forall n, is_ok (answer (chat n AsyncGroq
                                (Request (model_name (self st)) (user_message prompt))))
               = false) ->
    exists last' st',
      classify_loop attempts prompt key last st
      = (inl (failed_after (max_retries (self st)) last'), st')
      /\ self st' = self st
      /\ calls (trace st') = (calls (trace st) + List.length attempts)%nat
      /\ sleeps (trace st') = (sleeps (trace st) + List.length attempts)%nat
      /\ match attempts with
         | [] => last' = last
         | _ :: _ =>
             exists e, last' = Some e
               /\ answer (chat (calls (trace st') - 1) AsyncGroq
                            (Request (model_name (self st)) (user_message prompt)))
                  = inl e
         end.
Proof.
  induction attempts as [|a rest IH]; intros last st Hfail.
  - exists last, st. simpl. repeat split; lia.
  - rewrite classify_loop_cons. cbv zeta.
    pose proof (Hfail (calls (trace st))) as Hn.
    destruct (answer _) as [e|v] eqn:Ea; [|discriminate].
    set (st1 := mkState _ _).
    destruct (IH (Some e) st1 Hfail) as (last' & st' & Hr & Hs & Hc & Hsl & Hl).
    exists last', st'. rewrite Hr. simpl in *.
    unfold st1 in Hc, Hsl. simpl in Hc, Hsl.
    rewrite calls_app in Hc. rewrite sleeps_app in Hsl.
    change (calls (failed_attempt AsyncGroq _ a _ e)) with 1%nat in Hc.
    change (sleeps (failed_attempt AsyncGroq _ a _ e)) with 1%nat in Hsl.
    repeat split; try assumption; try lia.
    destruct rest as [|b rest'].
    + subst last'. exists e. split; [reflexivity|].
      simpl in Hc. replace (calls (trace st') - 1)%nat with (calls (trace st)) by lia.
      exact Ea.
    + exact Hl.
Qed.

End RetryFacts.

(** C3, as the code has it. If every answer of the model to the request
    of a description is refused by the parsing and checks of [classify]
    (an exception of the call, no choice, empty content, text that is not
    JSON, a value that is not an object, a missing key; membership of the
    two values in the vocabulary is not among the checks), then
    [classify], called with a positive
    [max_retries] on a description that is not blank and not cached, makes
    exactly [max_retries] calls to the model and then raises a
    [ClassificationError] whose message ends with the text of the error
    of the last attempt. The classifier, its cache included, is left
    unchanged. *)
Theorem classify_retry_exhaustion :
  forall json_loads chat description st,
    0 < max_retries (self st) ->
    PyStr.strip description <> "" ->
    OD.contains (key_of description) (cache st) = false ->
    (forall n, is_ok (answer json_loads
                        (chat n AsyncGroq (request_of (self st) description)))
               = false) ->
    exists err last st',
      classify json_loads chat description st = (inl err, st')
      /\ exn_class_of err = ClassificationError
      /\ exn_str err
         = "Classification failed after " ++ str_int (max_retries (self st))
             ++ " attempts: " ++ exn_str last
      /\ answer json_loads
           (chat (calls (trace st') - 1)%nat AsyncGroq
                 (request_of (self st) description))
         = inl last
      /\ Z.of_nat (calls (trace st'))
         = Z.of_nat (calls (trace st)) + max_retries (self st)
      /\ self st' = self st.
Proof.
  intros json_loads chat description st Hpos Hne Hmiss Hfail.
  rewrite (classify_miss _ _ _ _ Hne Hmiss).
  destruct (classify_loop_all_fail json_loads chat
              (py_range 1 (max_retries (self st) + 1))
              (prompt_of description) (key_of description) None st Hfail)
    as (last' & st' & Hr & Hs & Hc & _ & Hl).
  rewrite py_range_attempts in Hc.
  destruct (py_range 1 (max_retries (self st) + 1)) as [|a rest] eqn:E.
  - apply (f_equal (@List.length Z)) in E. rewrite py_range_attempts in E.
    simpl in E. lia.
  - destruct Hl as (e & -> & He).
    exists (failed_after (max_retries (self st)) (Some e)), e, st'.
    repeat split; try assumption. lia.
Qed.

Lemma classify_retry_exhaustion_witness :
  exists err last st',
    classify Json.loads (always malformed_answer) bottle (fresh default_classifier)
    = (inl err, st')
    /\ exn_class_of err = ClassificationError
    /\ exn_str err
       = "Classification failed after " ++ str_int 2 ++ " attempts: " ++ exn_str last
    /\ answer Json.loads malformed_answer = inl last
    /\ Z.of_nat (calls (trace st')) = 0 + 2
    /\ self st' = default_classifier.
Proof.
  apply (classify_retry_exhaustion Json.loads (always malformed_answer) bottle
           (fresh default_classifier)).
  - reflexivity.
  - vm_compute. discriminate.
  - reflexivity.
  - intros n. reflexivity.
Defined.

(** C3 as stated fails: an answer whose values are outside the
    vocabulary does not fail in [classify]. With three attempts allowed
    and a model that gives such an answer at every call, [classify]
    returns after one call, without a sleep, and raises nothing. *)
Lemma off_list_answer_ends_the_attempts :
  let r := classify Json.loads (always off_list_answer) bottle
                    (fresh (new_classifier 3 50)) in
  in_vocabulary x_vocabulary "Pretty Good" = false
  /\ in_vocabulary y_vocabulary "Some Stuff" = false
  /\ max_retries (self (snd r)) = 3
  /\ is_ok (fst r) = true
  /\ calls (trace (snd r)) = 1%nat
  /\ sleeps (trace (snd r)) = 0%nat.
Proof. vm_compute. repeat split. Qed.

(* ------------------------------------------------------------------ *)
(** ** What the retry loops do *)

Lemma attempts_only_refl st : attempts_only st st.
Proof.
  split; [reflexivity|]. exists []. now rewrite app_nil_r.
Qed.

Lemma attempts_only_trans st1 st2 st3 :
  attempts_only st1 st2 -> attempts_only st2 st3 -> attempts_only st1 st3.
Proof.
  intros (Hs & evs & Ht & Hu & He) (Hs' & evs' & Ht' & Hu' & He').
  split; [congruence|].
  exists (evs ++ evs')%list. rewrite Ht', Ht, app_assoc.
  rewrite uses_app, evictions_app, Hu, Hu', He, He'. auto.
Qed.

Lemma attempts_only_uses st stk :
  attempts_only st stk -> uses (trace stk) = uses (trace st).
Proof.
  intros (_ & evs & -> & Hu & _). now rewrite uses_app, Hu, app_nil_r.
Qed.

Lemma attempts_only_evictions st stk :
  attempts_only st stk -> evictions (trace stk) = evictions (trace st).
Proof.
  intros (_ & evs & -> & _ & He). rewrite evictions_app, He. lia.
Qed.

Lemma attempts_only_call st c q : attempts_only st (emit (EvCall c q) st).
Proof.
  split; [reflexivity|]. exists [EvCall c q]. auto.
Qed.

Lemma attempts_only_failed st c q a m e :
  attempts_only st (mkState (self st) (trace st ++ failed_attempt c q a m e)).
Proof.
  split; [reflexivity|]. exists (failed_attempt c q a m e).
  destruct c; auto.
Qed.

Lemma calls_failed_attempt c q a m e : calls (failed_attempt c q a m e) = 1%nat.
Proof. destruct c; reflexivity. Qed.

Section LoopFacts.

Variable json_loads : string -> result json.
Variable chat : nat -> client -> request -> api_result.

(** Both retry loops obey the same two equations, up to the client. *)
Lemma loop_outcome_gen (c : client)
      (loop : list Z -> string -> string -> option exn -> state
              -> result categories * state) :
  (forall prompt key last st,
      loop [] prompt key last st
      = (inl (failed_after (max_retries (self st)) last), st)) ->
  (forall a rest prompt key last st,
      loop (a :: rest) prompt key last st
      = let q := Request (model_name (self st)) (user_message prompt) in
        match answer json_loads (chat (calls (trace st)) c q) with
        | inr v => (inr v, stored key v (emit (EvCall c q) st))
        | inl e =>
            loop rest prompt key (Some e)
                 (mkState (self st)
                          (trace st ++ failed_attempt c q a (max_retries (self st)) e))
        end) ->
  forall attempts prompt key last st res st',
    loop attempts prompt key last st = (res, st') ->
    loop_outcome json_loads chat c
                 (Request (model_name (self st)) (user_message prompt))
                 key (List.length attempts) st res st'.
Proof.
  intros Hnil Hcons attempts prompt key.
  induction attempts as [|a rest IH]; intros last st res st' H.
  - rewrite Hnil in H. injection H as <- <-. unfold loop_outcome.
    split; [apply attempts_only_refl|]. split; [reflexivity|].
    split; [simpl; lia|]. intros m Hm. lia.
  - rewrite Hcons in H. cbv zeta in H.
    set (q := Request (model_name (self st)) (user_message prompt)) in *.
    destruct (answer json_loads (chat (calls (trace st)) c q)) as [e|v] eqn:Ea.
    + apply IH in H.
      set (st1 := mkState (self st) _) in H.
      change (model_name (self st1)) with (model_name (self st)) in H.
      fold q in H.
      assert (Hf : attempts_only st st1) by apply attempts_only_failed.
      assert (Hc1 : calls (trace st1) = (calls (trace st) + 1)%nat)
        by (unfold st1; simpl; now rewrite calls_app, calls_failed_attempt).
      assert (Hlen : List.length (a :: rest) = S (List.length rest)) by reflexivity.
      unfold loop_outcome in *. rewrite Hlen.
      destruct res as [err|w].
      * destruct H as (Ha & Hcls & Hc & Hall).
        split; [eapply attempts_only_trans; eassumption|].
        split; [exact Hcls|]. split; [lia|].
        intros m Hm.
        destruct (Nat.eq_dec m (calls (trace st))) as [->|Hne];
          [now rewrite Ea | apply Hall; lia].
      * destruct H as (stk & Ha & Hst & Hc & Hans & Hall).
        exists stk.
        split; [eapply attempts_only_trans; eassumption|].
        split; [exact Hst|]. split; [lia|]. split; [exact Hans|].
        intros m Hm.
        destruct (Nat.eq_dec m (calls (trace st))) as [->|Hne];
          [now rewrite Ea | apply Hall; lia].
    + injection H as <- <-. unfold loop_outcome.
      exists (emit (EvCall c q) st).
      assert (Hc1 : calls (trace (emit (EvCall c q) st))
                    = (calls (trace st) + 1)%nat)
        by (simpl; now rewrite calls_app).
      split; [apply attempts_only_call|]. split; [reflexivity|].
      rewrite Hc1. split; [simpl; lia|].
      replace (calls (trace st) + 1 - 1)%nat with (calls (trace st)) by lia.
      split; [exact Ea|]. intros m Hm. lia.
Qed.

Lemma classify_loop_outcome attempts prompt key last st res st' :
  classify_loop json_loads chat attempts prompt key last st = (res, st') ->
  loop_outcome json_loads chat AsyncGroq
               (Request (model_name (self st)) (user_message prompt))
               key (List.length attempts) st res st'.
Proof.
  apply (loop_outcome_gen AsyncGroq (classify_loop json_loads chat)).
  - reflexivity.
  - intros. apply classify_loop_cons.
Qed.

Lemma classify_sync_loop_outcome attempts prompt key last st res st' :
  classify_sync_loop json_loads chat attempts prompt key last st = (res, st') ->
  loop_outcome json_loads chat Groq
               (Request (model_name (self st)) (user_message prompt))
               key (List.length attempts) st res st'.
Proof.
  apply (loop_outcome_gen Groq (classify_sync_loop json_loads chat)).
  - reflexivity.
  - intros. apply classify_sync_loop_cons.
Qed.

End LoopFacts.

(* ------------------------------------------------------------------ *)
(** ** What is accepted as a classification *)

(** An answer is accepted exactly when it is a completion whose first
    choice is a non-empty text that parses to a value holding something
    under each of the two keys. *)
Lemma answer_ok_iff json_loads r x y :
  answer json_loads r = inr (x, y)
  <-> exists text rest payload,
      r = Completion (Some text :: rest)
      /\ text <> ""
      /\ json_loads text = inr payload
      /\ getitem payload X_KEY = inr x
      /\ getitem payload Y_KEY = inr y.
Proof.
  split.
  - unfold answer. destruct r as [e|[|[c|] cs]]; try discriminate.
    destruct (String.eqb c "") eqn:Ec; [discriminate|].
    destruct (json_loads c) as [e|payload] eqn:Ej; [discriminate|].
    destruct (getitem payload X_KEY) as [e|x'] eqn:Ex; [discriminate|].
    destruct (getitem payload Y_KEY) as [e|y'] eqn:Ey; [discriminate|].
    intros H. injection H as <- <-.
    exists c, cs, payload. apply String.eqb_neq in Ec. auto.
  - intros (text & rest & payload & -> & Hne & Hj & Hx & Hy).
    unfold answer. apply String.eqb_neq in Hne.
    now rewrite Hne, Hj, Hx, Hy.
Qed.

(** When the first answer of the model is accepted, [classify] returns
    its pair at once and stores it. *)
Lemma classify_first_answer json_loads chat description st v :
  PyStr.strip description <> "" ->
  OD.contains (key_of description) (cache st) = false ->
  0 < max_retries (self st) ->
  answer json_loads
         (chat (calls (trace st)) AsyncGroq (request_of (self st) description))
  = inr v ->
  classify json_loads chat description st
  = (inr v,
     stored (key_of description) v
            (emit (EvCall AsyncGroq (request_of (self st) description)) st)).
Proof.
  intros Hne Hmiss Hpos Ha.
  rewrite (classify_miss _ _ _ _ Hne Hmiss).
  destruct (py_range 1 (max_retries (self st) + 1)) as [|a l] eqn:E.
  - apply (f_equal (@List.length Z)) in E. rewrite py_range_attempts in E.
    simpl in E. lia.
  - rewrite classify_loop_cons. cbv zeta.
    fold (request_of (self st) description). now rewrite Ha.
Qed.

(** C1, as the code has it. On a description that is neither blank nor
    cached, (a) when the first answer of the model is a JSON object that
    holds values under the two keys, [classify] returns that pair and
    stores it in the cache, whatever the two values are: no vocabulary
    is consulted; (b) a pair that [classify] returns always comes from
    such an answer; (c) when [classify] fails, every answer it received
    was refused (an exception, no choice, empty content, text that is
    not JSON, a value without one of the keys), it made one call per
    attempt of the retry budget, the error is a [ClassificationError],
    and the classifier, its cache included, is unchanged. *)
Theorem classify_accepts_any_pair :
  forall json_loads chat description st,
    PyStr.strip description <> "" ->
    OD.contains (key_of description) (cache st) = false ->
    let q := request_of (self st) description in
    (forall text rest payload x y,
        0 < max_retries (self st) ->
        chat (calls (trace st)) AsyncGroq q = Completion (Some text :: rest) ->
        text <> "" ->
        json_loads text = inr payload ->
        getitem payload X_KEY = inr x ->
        getitem payload Y_KEY = inr y ->
        classify json_loads chat description st
        = (inr (x, y),
           stored (key_of description) (x, y) (emit (EvCall AsyncGroq q) st)))
    /\ (forall res st',
           classify json_loads chat description st = (res, st') ->
           match res with
           | inr (x, y) =>
               exists n text rest payload stk,
               chat n AsyncGroq q = Completion (Some text :: rest)
               /\ json_loads text = inr payload
               /\ getitem payload X_KEY = inr x
               /\ getitem payload Y_KEY = inr y
               /\ self stk = self st
               /\ st' = stored (key_of description) (x, y) stk
           | inl err =>
               exn_class_of err = ClassificationError
               /\ self st' = self st
               /\ calls (trace st')
                  = (calls (trace st) + Z.to_nat (max_retries (self st)))%nat
               /\ forall n, (calls (trace st) <= n < calls (trace st'))%nat ->
                            is_ok (answer json_loads (chat n AsyncGroq q)) = false
           end).
Proof.
  intros json_loads chat description st Hne Hmiss q. split.
  - intros text rest payload x y Hpos Hc Ht Hj Hx Hy.
    apply classify_first_answer; try assumption.
    apply answer_ok_iff. exists text, rest, payload. auto.
  - intros res st' H.
    rewrite (classify_miss _ _ _ _ Hne Hmiss) in H.
    apply classify_loop_outcome in H.
    rewrite py_range_attempts in H.
    fold (request_of (self st) description) in H. fold q in H.
    destruct res as [err|(x, y)]; simpl in H.
    + destruct H as ((Hs & _) & Hcls & Hc & Hall).
      repeat split; assumption.
    + destruct H as (stk & (Hs & _) & Hst & _ & Hans & _).
      apply answer_ok_iff in Hans as (text & rest & payload & Hc & _ & Hj & Hx & Hy).
      exists (calls (trace stk) - 1)%nat, text, rest, payload, stk.
      repeat split; assumption.
Qed.

Lemma classify_accepts_any_pair_witness :
  classify Json.loads (always off_list_answer) bottle (fresh default_classifier)
  = (inr (JString "Pretty Good", JString "Some Stuff"),
     stored (key_of bottle) (JString "Pretty Good", JString "Some Stuff")
            (emit (EvCall AsyncGroq (request_of default_classifier bottle))
                  (fresh default_classifier))).
Proof.
  refine (proj1 (classify_accepts_any_pair Json.loads (always off_list_answer)
                   bottle (fresh default_classifier) _ _)
                (json_pair "Pretty Good" "Some Stuff") []
                (JObject [(X_KEY, JString "Pretty Good"); (Y_KEY, JString "Some Stuff")])
                (JString "Pretty Good") (JString "Some Stuff") _ _ _ _ _ _).
  - vm_compute. discriminate.
  - reflexivity.
  - reflexivity.
  - reflexivity.
  - vm_compute. discriminate.
  - vm_compute. reflexivity.
  - reflexivity.
  - reflexivity.
Defined.

(** C1 as stated fails: an answer whose two values are in neither
    vocabulary is returned by [classify] on the first attempt and is in
    the cache afterwards. *)
Lemma classify_returns_off_list_pair :
  let r := classify Json.loads (always off_list_answer) bottle
                    (fresh default_classifier) in
  fst r = inr (JString "Pretty Good", JString "Some Stuff")
  /\ in_vocabulary x_vocabulary "Pretty Good" = false
  /\ in_vocabulary y_vocabulary "Some Stuff" = false
  /\ OD.get (key_of bottle) (cache (snd r))
     = Some (JString "Pretty Good", JString "Some Stuff")
  /\ calls (trace (snd r)) = 1%nat.
Proof. vm_compute. repeat split. Qed.

(* ------------------------------------------------------------------ *)
(** ** Exceptions of the model call *)

Lemma classify_problem_statement_usable json_loads chat key sys idea ps tr :
  usable_key key ->
  classify_problem_statement json_loads chat key sys idea ps tr
  = cps_loop json_loads chat 3 [0; 1; 2]
             [("system", sys); ("user", user_prompt idea ps)] tr.
Proof.
  intros (k & -> & Hne & Hlen). unfold classify_problem_statement.
  apply String.eqb_neq in Hne. rewrite Hne.
  destruct (Z.ltb_spec (Z.of_nat (String.length (PyStr.strip k))) 10); [lia|].
  reflexivity.
Qed.

(** C2 as stated fails: an authentication failure makes [classify] use
    its whole retry budget, two calls and two sleeps. *)
Lemma classify_retries_authentication_failure :
  let r := classify Json.loads (always auth_failure) bottle
                    (fresh default_classifier) in
  fst r = inl (Exn ClassificationError
                   "Classification failed after 2 attempts: Error code: 401 - Invalid API Key")
  /\ calls (trace (snd r)) = 2%nat
  /\ sleeps (trace (snd r)) = 2%nat.
Proof. vm_compute. repeat split. Qed.

(* ------------------------------------------------------------------ *)
(** ** Outcome of one call of [classify] or [classify_sync] *)

Section CallFacts.

Variable json_loads : string -> result json.
Variable chat : nat -> client -> request -> api_result.

Lemma run_op_outcome o st res st' :
  run_op json_loads chat o st = (res, st') ->
  call_outcome json_loads chat o st res st'.
Proof.
  intros H.
  destruct (string_dec (PyStr.strip (op_text o)) "") as [Hb|Hne].
  - destruct o as [d|d]; simpl in *;
      [rewrite (classify_blank _ _ _ _ Hb) in H
      | rewrite (classify_sync_blank _ _ _ _ Hb) in H];
      injection H as <- <-;
      [exact (call_blank _ _ (Classify d) st Hb)
      | exact (call_blank _ _ (ClassifySync d) st Hb)].
  - destruct (OD.get (key_of (op_text o)) (cache st)) as [v|] eqn:Eg.
    + destruct o as [d|d]; simpl in *;
        [rewrite (classify_hit _ _ _ _ _ Hne Eg) in H
        | rewrite (classify_sync_hit _ _ _ _ _ Hne Eg) in H];
        injection H as <- <-;
        [exact (call_hit _ _ (Classify d) st v Hne Eg)
        | exact (call_hit _ _ (ClassifySync d) st v Hne Eg)].
    + apply ODFacts.get_none in Eg.
      apply call_miss; try assumption.
      rewrite <- py_range_attempts.
      destruct o as [d|d]; simpl in *.
      * rewrite (classify_miss _ _ _ _ Hne Eg) in H.
        now apply classify_loop_outcome in H.
      * rewrite (classify_sync_miss _ _ _ _ Hne Eg) in H.
        now apply classify_sync_loop_outcome in H.
Qed.

End CallFacts.

(* ------------------------------------------------------------------ *)
(** ** The two ways the cache changes *)

Lemma promoted_cache k v st :
  cache (promoted k v st) = (OD.remove k (cache st) ++ [(k, v)])%list.
Proof. reflexivity. Qed.

Lemma promoted_trace k v st :
  trace (promoted k v st) = (trace st ++ [EvLogHit k])%list.
Proof. reflexivity. Qed.

Lemma promoted_config k v st : config (self (promoted k v st)) = config (self st).
Proof. reflexivity. Qed.

Lemma promoted_get k v st k' :
  OD.get k (cache st) = Some v ->
  OD.get k' (cache (promoted k v st)) = OD.get k' (cache st).
Proof.
  intros Hg. rewrite promoted_cache, ODFacts.get_app.
  destruct (string_dec k' k) as [->|Hne].
  - rewrite ODFacts.get_remove_same, Hg. simpl. now rewrite String.eqb_refl.
  - rewrite (ODFacts.get_remove_other _ _ _ Hne).
    destruct (OD.get k' (cache st)); [reflexivity|].
    simpl. apply String.eqb_neq in Hne. now rewrite Hne.
Qed.

(** Storing a pair either keeps every entry, or removes the oldest one
    and says so in the log. *)
Lemma stored_cases key v st :
  let d1 := OD.set key v (cache st) in
  (OD.len d1 <= _cache_size (self st)
   /\ cache (stored key v st) = d1
   /\ trace (stored key v st) = (trace st ++ [EvLogAdded key])%list)
  \/ (OD.len d1 > _cache_size (self st)
      /\ exists k w, d1 = (k, w) :: cache (stored key v st)
         /\ trace (stored key v st)
            = (trace st ++ [EvEvict k; EvLogAdded key])%list).
Proof.
  cbv zeta. unfold stored. cbv zeta.
  change (cache (set_cache (OD.set key v (cache st)) st))
    with (OD.set key v (cache st)).
  change (_cache_size (self (set_cache (OD.set key v (cache st)) st)))
    with (_cache_size (self st)).
  destruct (Z.gtb_spec (OD.len (OD.set key v (cache st))) (_cache_size (self st))).
  - right. split; [lia|].
    destruct (OD.set key v (cache st)) as [|(k, w) d] eqn:E.
    + exfalso. exact (ODFacts.set_not_nil _ _ _ E).
    + exists k, w. split; [reflexivity|].
      simpl. now rewrite <- app_assoc.
  - left. split; [lia|]. split; reflexivity.
Qed.

Lemma stored_config key v st : config (self (stored key v st)) = config (self st).
Proof.
  unfold stored. cbv zeta.
  destruct (_ >? _); [|reflexivity].
  destruct (cache _) as [|(k, w) d]; reflexivity.
Qed.

Lemma attempts_only_config st stk :
  attempts_only st stk -> config (self stk) = config (self st).
Proof. intros (-> & _). reflexivity. Qed.

Lemma attempts_only_cache st stk : attempts_only st stk -> cache stk = cache st.
Proof. intros (Hs & _). unfold cache. now rewrite Hs. Qed.

(* ------------------------------------------------------------------ *)
(** ** Entries stay until they are evicted *)

Section CacheFacts.

Variable json_loads : string -> result json.
Variable chat : nat -> client -> request -> api_result.

Lemma stored_evictions key v st :
  (evictions (trace st) <= evictions (trace (stored key v st)))%nat.
Proof.
  destruct (stored_cases key v st) as [(_ & _ & ->)|(_ & k & w & _ & ->)];
    rewrite evictions_app; lia.
Qed.

Lemma call_evictions o st res st' :
  call_outcome json_loads chat o st res st' ->
  (evictions (trace st) <= evictions (trace st'))%nat.
Proof.
  intros [Hb|v Hne Hg|res' st'' Hne Hc Hl].
  - lia.
  - rewrite promoted_trace, evictions_app. lia.
  - destruct res' as [err|w]; simpl in Hl.
    + destruct Hl as (Ha & _). rewrite (attempts_only_evictions _ _ Ha). lia.
    + destruct Hl as (stk & Ha & -> & _).
      rewrite <- (attempts_only_evictions _ _ Ha). apply stored_evictions.
Qed.

Lemma call_config o st res st' :
  call_outcome json_loads chat o st res st' ->
  config (self st') = config (self st).
Proof.
  intros [Hb|v Hne Hg|res' st'' Hne Hc Hl].
  - reflexivity.
  - apply promoted_config.
  - destruct res' as [err|w]; simpl in Hl.
    + destruct Hl as (Ha & _). now apply attempts_only_config.
    + destruct Hl as (stk & Ha & -> & _).
      rewrite stored_config. now apply attempts_only_config.
Qed.

(** An entry that a call found in the cache is still there, with the same
    value, after the call, unless the call evicted something. *)
Lemma call_keeps_entry o st res st' k v :
  call_outcome json_loads chat o st res st' ->
  OD.get k (cache st) = Some v ->
  evictions (trace st') = evictions (trace st) ->
  OD.get k (cache st') = Some v.
Proof.
  intros [Hb|v0 Hne Hg|res' st'' Hne Hc Hl] Hk Hev.
  - exact Hk.
  - now rewrite (promoted_get _ _ _ _ Hg).
  - destruct res' as [err|w]; simpl in Hl.
    + destruct Hl as (Ha & _). now rewrite (attempts_only_cache _ _ Ha).
    + destruct Hl as (stk & Ha & -> & _).
      pose proof (attempts_only_cache _ _ Ha) as Hcache.
      pose proof (attempts_only_evictions _ _ Ha) as Hevk.
      destruct (stored_cases (key_of (op_text o)) w stk)
        as [(_ & Hd & _)|(_ & k' & w' & _ & Ht)].
      * rewrite Hd, Hcache.
        rewrite ODFacts.get_set_other; [exact Hk|].
        intros ->. apply ODFacts.get_none in Hc. congruence.
      * rewrite Ht, evictions_app in Hev.
        change (evictions [EvEvict k'; EvLogAdded (key_of (op_text o))])
          with 1%nat in Hev.
        lia.
Qed.

(** A pair that a call returned is in the cache after the call, unless
    the call evicted something. *)
Lemma call_leaves_entry o st v st' :
  call_outcome json_loads chat o st (inr v) st' ->
  evictions (trace st') = evictions (trace st) ->
  PyStr.strip (op_text o) <> ""
  /\ OD.get (key_of (op_text o)) (cache st') = Some v.
Proof.
  intros H Hev. inversion H as [Hb|v0 Hne Hg|res' st'' Hne Hc Hl]; subst.
  - split; [exact Hne|]. now rewrite (promoted_get _ _ _ _ Hg).
  - split; [exact Hne|]. simpl in Hl.
    destruct Hl as (stk & Ha & -> & _).
    pose proof (attempts_only_evictions _ _ Ha) as Hevk.
    destruct (stored_cases (key_of (op_text o)) v stk)
      as [(_ & Hd & _)|(_ & k' & w' & _ & Ht)].
    + rewrite Hd. apply ODFacts.get_set_same.
    + rewrite Ht, evictions_app in Hev.
      change (evictions [EvEvict k'; EvLogAdded (key_of (op_text o))])
        with 1%nat in Hev.
      lia.
Qed.

Lemma run_ops_evictions ops :
  forall st rs st',
    run_ops json_loads chat ops st = (rs, st') ->
    (evictions (trace st) <= evictions (trace st'))%nat.
Proof.
  induction ops as [|o ops IH]; intros st rs st' H; simpl in H.
  - injection H as _ <-. lia.
  - destruct (run_op json_loads chat o st) as (r, st1) eqn:E1.
    destruct (run_ops json_loads chat ops st1) as (rs', st2) eqn:E2.
    injection H as _ <-.
    apply run_op_outcome, call_evictions in E1. apply IH in E2. lia.
Qed.

Lemma run_ops_keep_entry ops k v :
  forall st rs st',
    run_ops json_loads chat ops st = (rs, st') ->
    OD.get k (cache st) = Some v ->
    evictions (trace st') = evictions (trace st) ->
    OD.get k (cache st') = Some v.
Proof.
  induction ops as [|o ops IH]; intros st rs st' H Hk Hev; simpl in H.
  - injection H as _ <-. exact Hk.
  - destruct (run_op json_loads chat o st) as (r, st1) eqn:E1.
    destruct (run_ops json_loads chat ops st1) as (rs', st2) eqn:E2.
    injection H as _ <-.
    apply run_op_outcome in E1.
    pose proof (call_evictions _ _ _ _ E1).
    pose proof (run_ops_evictions _ _ _ _ E2).
    apply (IH st1 rs'); [exact E2| |lia].
    eapply call_keeps_entry; [exact E1|exact Hk|lia].
Qed.

(** Two calls on the same text, of either kind: if nothing was evicted
    from the start of the first to the start of the second, the second
    returns the pair of the first from the cache, without any call to the
    model. *)
Lemma second_call_is_a_hit o1 o2 ops st v st1 rs st2 :
  op_text o2 = op_text o1 ->
  run_op json_loads chat o1 st = (inr v, st1) ->
  run_ops json_loads chat ops st1 = (rs, st2) ->
  evictions (trace st2) = evictions (trace st) ->
  run_op json_loads chat o2 st2
  = (inr v, promoted (key_of (op_text o1)) v st2).
Proof.
  intros Ht H1 Hops Hev.
  apply run_op_outcome in H1.
  pose proof (call_evictions _ _ _ _ H1).
  pose proof (run_ops_evictions _ _ _ _ Hops).
  destruct (call_leaves_entry _ _ _ _ H1) as (Hne & Hg); [lia|].
  assert (Hg2 : OD.get (key_of (op_text o1)) (cache st2) = Some v)
    by (eapply run_ops_keep_entry; [exact Hops|exact Hg|lia]).
  destruct o2 as [d|d]; simpl in Ht; subst d; simpl.
  - now apply classify_hit.
  - now apply classify_sync_hit.
Qed.

End CacheFacts.

(* ------------------------------------------------------------------ *)
(** ** Determinism under cache hit *)

(** C5. If [classify(T)] returns a pair and then, after any calls of
    [classify] and [classify_sync] on any texts, [classify(T)] is called
    again, and no entry was evicted from the cache from the start of the
    first call to the start of the second, then the second call returns
    the same pair, makes no call to the model and no sleep: all it adds to
    the log is the cache-hit message. *)
Theorem classify_twice_same_pair :
  forall json_loads chat T st v st1 between rs st2,
    classify json_loads chat T st = (inr v, st1) ->
    run_ops json_loads chat between st1 = (rs, st2) ->
    evictions (trace st2) = evictions (trace st) ->
    exists st3,
      classify json_loads chat T st2 = (inr v, st3)
      /\ trace st3 = (trace st2 ++ [EvLogHit (key_of T)])%list
      /\ calls (trace st3) = calls (trace st2).
Proof.
  intros json_loads chat T st v st1 between rs st2 H1 Hops Hev.
  exists (promoted (key_of T) v st2).
  split; [|split].
  - exact (second_call_is_a_hit json_loads chat (Classify T) (Classify T)
             between st v st1 rs st2 eq_refl H1 Hops Hev).
  - reflexivity.
  - rewrite promoted_trace, calls_app.
    change (calls [EvLogHit (key_of T)]) with 0%nat. lia.
Qed.

Lemma classify_twice_same_pair_witness :
  exists st3,
    classify Json.loads (always good_answer) bottle
             (snd (run_ops Json.loads (always good_answer)
                           [Classify "a robot that waters plants"]
                           (snd (classify Json.loads (always good_answer) bottle
                                          (fresh default_classifier)))))
    = (inr (JString "Has Very Good Grammar + Demonstrates Very Good Understanding + Has Clear Visual Clarity",
            JString "Product Description + Prototype Status + Unique Value Statement"),
       st3)
    /\ calls (trace st3) = 2%nat.
Proof.
  destruct (classify_twice_same_pair Json.loads (always good_answer) bottle
              (fresh default_classifier)
              (JString "Has Very Good Grammar + Demonstrates Very Good Understanding + Has Clear Visual Clarity",
               JString "Product Description + Prototype Status + Unique Value Statement")
              (snd (classify Json.loads (always good_answer) bottle
                             (fresh default_classifier)))
              [Classify "a robot that waters plants"]
              (fst (run_ops Json.loads (always good_answer)
                            [Classify "a robot that waters plants"]
                            (snd (classify Json.loads (always good_answer) bottle
                                           (fresh default_classifier)))))
              (snd (run_ops Json.loads (always good_answer)
                            [Classify "a robot that waters plants"]
                            (snd (classify Json.loads (always good_answer) bottle
                                           (fresh default_classifier))))))
    as (st3 & H3 & _ & Hc).
  - vm_compute. reflexivity.
  - vm_compute. reflexivity.
  - vm_compute. reflexivity.
  - exists st3. split; [exact H3|]. rewrite Hc. vm_compute. reflexivity.
Defined.

(* ------------------------------------------------------------------ *)
(** ** The synchronous and the asynchronous path *)

Section SyncFacts.

Variable json_loads : string -> result json.
Variable chat : nat -> client -> request -> api_result.

Lemma calls_sync_view tr : calls (map sync_event tr) = calls tr.
Proof.
  unfold calls. induction tr as [|e tr IH]; [reflexivity|].
  destruct e; simpl; now rewrite ?IH.
Qed.

Lemma stored_sync_view key v st :
  stored key v (sync_view st) = sync_view (stored key v st).
Proof.
  unfold stored. cbv zeta.
  change (cache (sync_view st)) with (cache st).
  change (self (set_cache (OD.set key v (cache st)) (sync_view st)))
    with (self (set_cache (OD.set key v (cache st)) st)).
  change (cache (set_cache (OD.set key v (cache st)) (sync_view st)))
    with (cache (set_cache (OD.set key v (cache st)) st)).
  destruct (_ >? _).
  - destruct (cache (set_cache (OD.set key v (cache st)) st)) as [|(k, w) d].
    + reflexivity.
    + unfold sync_view, emit, set_cache. simpl.
      now rewrite !map_app.
  - unfold sync_view, emit, set_cache. simpl. now rewrite map_app.
Qed.

Hypothesis one_model : forall n c q, chat n c q = chat n AsyncGroq q.

(** The retry loop of [classify_sync] is the retry loop of [classify]
    with the other client and the other sleep. *)
Lemma sync_loop_simulates attempts prompt key :
  forall last st,
    classify_sync_loop json_loads chat attempts prompt key last (sync_view st)
    = (fst (classify_loop json_loads chat attempts prompt key last st),
       sync_view (snd (classify_loop json_loads chat attempts prompt key last st))).
Proof.
  induction attempts as [|a rest IH]; intros last st; [reflexivity|].
  rewrite classify_sync_loop_cons, classify_loop_cons. cbv zeta.
  change (self (sync_view st)) with (self st).
  change (trace (sync_view st)) with (map sync_event (trace st)).
  rewrite calls_sync_view, one_model.
  destruct (answer json_loads _) as [e|v].
  - rewrite <- IH. f_equal.
    unfold sync_view. simpl. now rewrite map_app.
  - cbn [fst snd]. f_equal. rewrite <- stored_sync_view. f_equal.
    unfold sync_view, emit. simpl. now rewrite map_app.
Qed.

Lemma sync_simulates d st :
  classify_sync json_loads chat d (sync_view st)
  = (fst (classify json_loads chat d st),
     sync_view (snd (classify json_loads chat d st))).
Proof.
  unfold classify_sync, classify.
  change (cache (sync_view st)) with (cache st).
  change (self (sync_view st)) with (self st).
  destruct (String.eqb (PyStr.strip d) ""); [reflexivity|].
  destruct (OD.contains _ (cache st)).
  - destruct (OD.move_to_end _ (cache st)) as [d'|]; [|reflexivity].
    change (cache (emit (EvLogHit (_hash (PyStr.strip d))) (set_cache d' (sync_view st))))
      with (cache (emit (EvLogHit (_hash (PyStr.strip d))) (set_cache d' st))).
    destruct (OD.get _ _);
      cbn [fst snd]; f_equal; unfold sync_view, emit, set_cache; simpl;
        now rewrite map_app.
  - apply sync_loop_simulates.
Qed.

End SyncFacts.

(** C10. [classify_sync] runs the logic of [classify]: with one model
    behind both clients, a call of [classify_sync] returns what the call
    of [classify] returns and leaves the same classifier and cache, its
    log being that of [classify] with the synchronous client and
    [time.sleep] for the asynchronous ones. And both read the one cache
    under the one key: after a call of either method on [T] has returned
    a pair, and as long as nothing has been evicted since that call
    started, a call of either method on [T] returns that pair from the
    cache and ends in the same state, having logged the cache hit and
    nothing else, so without any call to the model. *)
Theorem classify_sync_agrees_with_classify :
  forall json_loads chat T st,
    ((forall n c q, chat n c q = chat n AsyncGroq q) ->
     classify_sync json_loads chat T (sync_view st)
     = (fst (classify json_loads chat T st),
        sync_view (snd (classify json_loads chat T st))))
    /\ (forall v st1 between rs st2,
           classify json_loads chat T st = (inr v, st1)
           \/ classify_sync json_loads chat T st = (inr v, st1) ->
           run_ops json_loads chat between st1 = (rs, st2) ->
           evictions (trace st2) = evictions (trace st) ->
           classify json_loads chat T st2
           = (inr v, promoted (key_of T) v st2)
           /\ classify_sync json_loads chat T st2
              = (inr v, promoted (key_of T) v st2)
           /\ trace (promoted (key_of T) v st2)
              = (trace st2 ++ [EvLogHit (key_of T)])%list).
Proof.
  intros json_loads chat T st. split.
  - intros Hone. now apply sync_simulates.
  - intros v st1 between rs st2 H1 Hops Hev.
    split; [|split; [|reflexivity]].
    + destruct H1 as [H1|H1].
      * exact (second_call_is_a_hit json_loads chat (Classify T) (Classify T)
                 between st v st1 rs st2 eq_refl H1 Hops Hev).
      * exact (second_call_is_a_hit json_loads chat (ClassifySync T) (Classify T)
                 between st v st1 rs st2 eq_refl H1 Hops Hev).
    + destruct H1 as [H1|H1].
      * exact (second_call_is_a_hit json_loads chat (Classify T) (ClassifySync T)
                 between st v st1 rs st2 eq_refl H1 Hops Hev).
      * exact (second_call_is_a_hit json_loads chat (ClassifySync T) (ClassifySync T)
                 between st v st1 rs st2 eq_refl H1 Hops Hev).
Qed.

Lemma classify_sync_agrees_with_classify_witness :
  let st1 := snd (classify Json.loads (always good_answer) bottle
                           (fresh default_classifier)) in
  classify_sync Json.loads (always good_answer) bottle st1
  = (inr (JString "Has Very Good Grammar + Demonstrates Very Good Understanding + Has Clear Visual Clarity",
          JString "Product Description + Prototype Status + Unique Value Statement"),
     promoted (key_of bottle)
              (JString "Has Very Good Grammar + Demonstrates Very Good Understanding + Has Clear Visual Clarity",
               JString "Product Description + Prototype Status + Unique Value Statement")
              st1)
  /\ calls (trace st1) = 1%nat.
Proof.
  intros st1. split; [|vm_compute; reflexivity].
  refine (proj1 (proj2 (proj2 (classify_sync_agrees_with_classify
                          Json.loads (always good_answer) bottle
                          (fresh default_classifier))
                        _ st1 [] [] st1 _ _ _))).
  - left. vm_compute. reflexivity.
  - reflexivity.
  - vm_compute. reflexivity.
Defined.

(* ------------------------------------------------------------------ *)
(** ** Truncated prompt, whole-text key *)

Section TruncationFacts.

Variable json_loads : string -> result json.
Variable chat : nat -> client -> request -> api_result.

Lemma stored_trace key v st :
  exists evs, trace (stored key v st) = (trace st ++ evs)%list.
Proof.
  destruct (stored_cases key v st) as [(_ & _ & ->)|(_ & k & w & _ & ->)]; eauto.
Qed.

Lemma classify_loop_trace attempts prompt key :
  forall last st,
  exists evs,
    trace (snd (classify_loop json_loads chat attempts prompt key last st))
    = (trace st ++ evs)%list.
Proof.
  induction attempts as [|a rest IH]; intros last st.
  - exists []. simpl. now rewrite app_nil_r.
  - rewrite classify_loop_cons. cbv zeta.
    destruct (answer json_loads _) as [e|v].
    + destruct (IH (Some e)
                   (mkState (self st)
                            (trace st ++ failed_attempt AsyncGroq
                               (Request (model_name (self st)) (user_message prompt))
                               a (max_retries (self st)) e))) as (evs & ->).
      simpl. rewrite <- app_assoc. eauto.
    + cbn [snd]. destruct (stored_trace key v
                    (emit (EvCall AsyncGroq
                             (Request (model_name (self st)) (user_message prompt))) st))
        as (evs & ->).
      simpl. rewrite <- app_assoc. eauto.
Qed.

(** A cache miss with a positive retry budget starts with a call to the
    model, carrying the prompt of the description. *)
Lemma classify_miss_calls d st :
  PyStr.strip d <> "" ->
  OD.contains (key_of d) (cache st) = false ->
  0 < max_retries (self st) ->
  exists evs,
    trace (snd (classify json_loads chat d st))
    = (trace st ++ EvCall AsyncGroq (request_of (self st) d) :: evs)%list.
Proof.
  intros Hne Hmiss Hpos.
  rewrite (classify_miss _ _ _ _ Hne Hmiss).
  destruct (py_range 1 (max_retries (self st) + 1)) as [|a rest] eqn:E.
  - apply (f_equal (@List.length Z)) in E. rewrite py_range_attempts in E.
    simpl in E. lia.
  - rewrite classify_loop_cons. cbv zeta.
    fold (request_of (self st) d).
    destruct (answer json_loads _) as [e|v].
    + destruct (classify_loop_trace rest (prompt_of d) (key_of d) (Some e)
                  (mkState (self st)
                           (trace st ++ failed_attempt AsyncGroq
                              (request_of (self st) d) a (max_retries (self st)) e)))
        as (evs & ->).
      simpl. rewrite <- app_assoc. simpl. eauto.
    + cbn [snd].
      destruct (stored_trace (key_of d) v
                  (emit (EvCall AsyncGroq (request_of (self st) d)) st))
        as (evs & ->).
      simpl. rewrite <- app_assoc. simpl. eauto.
Qed.

Lemma keys_set k (v : categories) d :
  forall k', In k' (OD.keys (OD.set k v d)) -> k' = k \/ In k' (OD.keys d).
Proof.
  induction d as [|(k2, v2) d IH]; simpl; intros k' H.
  - destruct H as [<-|[]]. now left.
  - destruct (String.eqb k k2) eqn:E; simpl in H.
    + destruct H as [<-|H]; [now left | right; now right].
    + destruct H as [<-|H]; [right; now left|].
      destruct (IH _ H); [now left | right; now right].
Qed.

(** A call adds at most the key of its own text to the cache. *)
Lemma call_adds_own_key o st res st' k :
  call_outcome json_loads chat o st res st' ->
  In k (OD.keys (cache st')) ->
  k = key_of (op_text o) \/ In k (OD.keys (cache st)).
Proof.
  intros [Hb|v Hne Hg|res' st'' Hne Hc Hl] Hin.
  - now right.
  - rewrite promoted_cache, ODFacts.keys_app, in_app_iff in Hin.
    destruct Hin as [Hin|[<-|[]]]; [right|now left].
    rewrite ODFacts.keys_remove in Hin. now apply filter_In in Hin.
  - destruct res' as [err|w]; simpl in Hl.
    + destruct Hl as (Ha & _). rewrite (attempts_only_cache _ _ Ha) in Hin.
      now right.
    + destruct Hl as (stk & Ha & -> & _).
      pose proof (attempts_only_cache _ _ Ha) as Hcache.
      destruct (stored_cases (key_of (op_text o)) w stk)
        as [(_ & Hd & _)|(_ & k' & w' & Hd & _)].
      * rewrite Hd, Hcache in Hin. now apply keys_set in Hin.
      * rewrite Hcache in Hd.
        apply (keys_set (key_of (op_text o)) w (cache st)).
        rewrite Hd. simpl. now right.
Qed.

Lemma take_nonempty n s : (0 < n)%nat -> PyStr.take n s = "" -> s = "".
Proof.
  destruct n; [lia|]. destruct s; [reflexivity | discriminate].
Qed.

End TruncationFacts.

(** C9, with what it takes for granted made explicit. Let two
    descriptions have stripped forms that agree on their first 2000
    characters and differ after them. Then the prompts assembled for
    them are identical, while their cache keys are the hashes of two
    different texts. When these two keys differ, neither is in the
    cache, and the retry budget is positive: [classify] on the first
    calls the model, and [classify] on the second, called next, finds no
    entry under its key, whatever the first call has stored, and calls the
    model again with the very same request. *)
Theorem long_texts_same_prompt_own_call :
  forall json_loads chat d1 d2 st res1 st1,
    PyStr.take 2000 (PyStr.strip d1) = PyStr.take 2000 (PyStr.strip d2) ->
    PyStr.strip d1 <> PyStr.strip d2 ->
    key_of d1 <> key_of d2 ->
    0 < max_retries (self st) ->
    OD.contains (key_of d1) (cache st) = false ->
    OD.contains (key_of d2) (cache st) = false ->
    classify json_loads chat d1 st = (res1, st1) ->
    prompt_of d1 = prompt_of d2
    /\ key_of d1 = _hash (PyStr.strip d1)
    /\ key_of d2 = _hash (PyStr.strip d2)
    /\ (exists evs,
           trace st1
           = (trace st ++ EvCall AsyncGroq (request_of (self st) d1) :: evs)%list)
    /\ (exists res st2 evs,
           classify json_loads chat d2 st1 = (res, st2)
           /\ trace st2
              = (trace st1 ++ EvCall AsyncGroq (request_of (self st) d1) :: evs)%list).
Proof.
  intros json_loads chat d1 d2 st res1 st1 Htake Hdiff Hkeys Hpos Hm1 Hm2 H1.
  assert (Hprompt : prompt_of d1 = prompt_of d2)
    by (unfold prompt_of; now rewrite Htake).
  pose proof (run_op_outcome json_loads chat (Classify d1) st _ _ H1) as Ho.
  assert (Hne1 : PyStr.strip d1 <> "").
  { intros E. apply Hdiff. rewrite E in Htake |- *.
    change (PyStr.take 2000 "") with "" in Htake. symmetry in Htake.
    apply take_nonempty in Htake; [now symmetry | apply Nat.lt_0_succ]. }
  assert (Hne2 : PyStr.strip d2 <> "").
  { intros E. rewrite E in Htake.
    change (PyStr.take 2000 "") with "" in Htake.
    apply take_nonempty in Htake; [contradiction|].
    apply Nat.lt_0_succ. }
  pose proof (call_config _ _ _ _ _ _ Ho) as Hcfg.
  assert (Hmr : max_retries (self st1) = max_retries (self st))
    by (unfold config in Hcfg; congruence).
  assert (Hmn : model_name (self st1) = model_name (self st))
    by (unfold config in Hcfg; congruence).
  assert (Hm2' : OD.contains (key_of d2) (cache st1) = false).
  { apply ODFacts.contains_false. intros Hin.
    destruct (call_adds_own_key _ _ _ _ _ _ _ Ho Hin) as [E|Hin'].
    - simpl in E. congruence.
    - apply ODFacts.contains_false in Hm2. contradiction. }
  split; [exact Hprompt|]. split; [reflexivity|]. split; [reflexivity|]. split.
  - pose proof (classify_miss_calls json_loads chat d1 st Hne1 Hm1 Hpos) as (evs & He).
    rewrite H1 in He. eauto.
  - destruct (classify_miss_calls json_loads chat d2 st1 Hne2 Hm2')
      as (evs & He); [lia|].
    destruct (classify json_loads chat d2 st1) as (res, st2) eqn:E2.
    exists res, st2, evs. split; [reflexivity|].
    simpl in He. rewrite He. unfold request_of. now rewrite Hmn, Hprompt.
Qed.

Lemma long_texts_same_prompt_own_call_witness :
  prompt_of (long_text "b") = prompt_of (long_text "c")
  /\ key_of (long_text "b") = _hash (PyStr.strip (long_text "b"))
  /\ key_of (long_text "c") = _hash (PyStr.strip (long_text "c"))
  /\ (exists evs,
         trace (snd (classify Json.loads (always good_answer) (long_text "b")
                              (fresh default_classifier)))
         = ([] ++ EvCall AsyncGroq (request_of default_classifier (long_text "b"))
               :: evs)%list)
  /\ (exists res st2 evs,
         classify Json.loads (always good_answer) (long_text "c")
                  (snd (classify Json.loads (always good_answer) (long_text "b")
                                 (fresh default_classifier)))
         = (res, st2)
         /\ trace st2
            = (trace (snd (classify Json.loads (always good_answer) (long_text "b")
                                    (fresh default_classifier)))
                 ++ EvCall AsyncGroq (request_of default_classifier (long_text "b"))
                 :: evs)%list).
Proof.
  apply (long_texts_same_prompt_own_call Json.loads (always good_answer)
           (long_text "b") (long_text "c") (fresh default_classifier)
           (inr (JString "Has Very Good Grammar + Demonstrates Very Good Understanding + Has Clear Visual Clarity",
                 JString "Product Description + Prototype Status + Unique Value Statement"))).
  - vm_compute. reflexivity.
  - intros E. apply (f_equal (String.get 2000)) in E. vm_compute in E. discriminate.
  - vm_compute. discriminate.
  - reflexivity.
  - reflexivity.
  - reflexivity.
  - vm_compute. reflexivity.
Defined.

(* ------------------------------------------------------------------ *)
(** ** Least recently used first *)

Lemma recency_snoc history k :
  recency (history ++ [k]) = touch (recency history) k.
Proof. unfold recency. now rewrite fold_left_app. Qed.

Lemma touch_absent order k : ~ In k order -> touch order k = (order ++ [k])%list.
Proof.
  intros Hn. unfold touch. f_equal.
  induction order as [|x order IH]; [reflexivity|]. simpl.
  destruct (String.eqb k x) eqn:E.
  - apply String.eqb_eq in E. subst. exfalso. apply Hn. now left.
  - simpl. f_equal. apply IH. intros H. apply Hn. now right.
Qed.

Lemma suffix_touch (s l : list string) k :
  suffix_of s l -> suffix_of (touch s k) (touch l k).
Proof.
  intros (p & ->). exists (filter (fun k' => negb (String.eqb k k')) p).
  unfold touch. now rewrite filter_app, app_assoc.
Qed.

Lemma suffix_tl {A} (s l : list A) : suffix_of s l -> suffix_of (tl s) l.
Proof.
  intros (p & ->). destruct s as [|x s]; simpl.
  - now exists p.
  - exists (p ++ [x])%list. now rewrite <- app_assoc.
Qed.

Lemma evicted_app tr tr' : evicted (tr ++ tr') = (evicted tr ++ evicted tr')%list.
Proof.
  induction tr as [|e tr IH]; simpl; [reflexivity|].
  destruct e; simpl; now rewrite ?IH.
Qed.

Lemma evictions_evicted tr : evictions tr = List.length (evicted tr).
Proof.
  unfold evictions. induction tr as [|e tr IH]; [reflexivity|].
  destruct e; simpl; now rewrite ?IH.
Qed.

Lemma attempts_only_evicted st stk :
  attempts_only st stk -> evicted (trace stk) = evicted (trace st).
Proof.
  intros (_ & evs & -> & _ & He). rewrite evicted_app.
  rewrite evictions_evicted in He.
  destruct (evicted evs); [now rewrite app_nil_r | discriminate].
Qed.

Section LruFacts.

Variable json_loads : string -> result json.
Variable chat : nat -> client -> request -> api_result.

(** A hit moves the key to the most recent end of the cache. *)
Lemma hit_promotes o st v :
  OD.get (key_of (op_text o)) (cache st) = Some v ->
  OD.keys (cache (promoted (key_of (op_text o)) v st))
  = touch (OD.keys (cache st)) (key_of (op_text o)).
Proof.
  intros _. rewrite promoted_cache, ODFacts.keys_app, ODFacts.keys_remove.
  reflexivity.
Qed.

(** Storing the pair of a missed key puts it at the most recent end;
    if the cache has then more than [_cache_size] entries, its first
    entry, and only that one, leaves. *)
Lemma store_evicts_oldest key v st :
  OD.contains key (cache st) = false ->
  let grown := (cache st ++ [(key, v)])%list in
  if OD.len grown >? _cache_size (self st) then
    cache (stored key v st) = tl grown
    /\ evicted (trace (stored key v st))
       = (evicted (trace st) ++ firstn 1 (OD.keys grown))%list
  else
    cache (stored key v st) = grown
    /\ evicted (trace (stored key v st)) = evicted (trace st).
Proof.
  intros Hmiss. cbv zeta.
  rewrite <- (ODFacts.set_new key v _ Hmiss).
  destruct (stored_cases key v st) as [(Hle & Hd & Ht)|(Hgt & k & w & Hd & Ht)].
  - destruct (Z.gtb_spec (OD.len (OD.set key v (cache st))) (_cache_size (self st)));
      [lia|].
    split; [exact Hd|].
    rewrite Ht, evicted_app. simpl. now rewrite app_nil_r.
  - destruct (Z.gtb_spec (OD.len (OD.set key v (cache st))) (_cache_size (self st)));
      [|lia].
    rewrite Hd. split; [reflexivity|].
    rewrite Ht, evicted_app. reflexivity.
Qed.

Lemma stored_uses key v st :
  uses (trace (stored key v st)) = (uses (trace st) ++ [key])%list.
Proof.
  destruct (stored_cases key v st) as [(_ & _ & ->)|(_ & k & w & _ & ->)];
    now rewrite uses_app.
Qed.

(** Every call keeps the cache in least-recently-used-first order. *)
Lemma call_keeps_lru_order o st res st' :
  call_outcome json_loads chat o st res st' ->
  lru_ordered st -> lru_ordered st'.
Proof.
  unfold lru_ordered.
  intros [Hb|v Hne Hg|res' st'' Hne Hc Hl] Hinv.
  - exact Hinv.
  - rewrite (hit_promotes o st v Hg), promoted_trace, uses_app.
    simpl. rewrite recency_snoc. now apply suffix_touch.
  - destruct res' as [err|w]; simpl in Hl.
    + destruct Hl as (Ha & _).
      now rewrite (attempts_only_cache _ _ Ha), (attempts_only_uses _ _ Ha).
    + destruct Hl as (stk & Ha & -> & _).
      pose proof (attempts_only_cache _ _ Ha) as Hcache.
      rewrite stored_uses, (attempts_only_uses _ _ Ha), recency_snoc.
      assert (Hmiss : OD.contains (key_of (op_text o)) (cache stk) = false)
        by now rewrite Hcache.
      pose proof (store_evicts_oldest _ w _ Hmiss) as Hs. cbv zeta in Hs.
      assert (Hsuf : suffix_of (OD.keys (cache st) ++ [key_of (op_text o)])%list
                               (touch (recency (uses (trace st))) (key_of (op_text o)))).
      { rewrite <- (touch_absent (OD.keys (cache st)) (key_of (op_text o))).
        - now apply suffix_touch.
        - now apply ODFacts.contains_false. }
      destruct (_ >? _); destruct Hs as (-> & _); rewrite Hcache.
      * rewrite ODFacts.keys_tl, ODFacts.keys_app. now apply suffix_tl.
      * now rewrite ODFacts.keys_app.
Qed.

Lemma run_ops_keep_lru_order ops :
  forall st rs st',
    run_ops json_loads chat ops st = (rs, st') ->
    lru_ordered st -> lru_ordered st'.
Proof.
  induction ops as [|o ops IH]; intros st rs st' H Hinv; simpl in H.
  - injection H as _ <-. exact Hinv.
  - destruct (run_op json_loads chat o st) as (r, st1) eqn:E1.
    destruct (run_ops json_loads chat ops st1) as (rs', st2) eqn:E2.
    injection H as _ <-.
    apply (IH st1 rs'); [exact E2|].
    eapply call_keeps_lru_order; [|exact Hinv].
    apply run_op_outcome. exact E1.
Qed.

End LruFacts.

(** Inserting distinct new keys one after the other into a cache within
    its capacity: the keys that exceed the capacity leave in the order
    they came. *)
Lemma lru_insert_all capacity :
  0 <= capacity ->
  forall new held gone,
    Z.of_nat (List.length held) <= capacity ->
    let n := (List.length (held ++ new) - Z.to_nat capacity)%nat in
    fold_left (lru_insert capacity) new (held, gone)
    = (skipn n (held ++ new), (gone ++ firstn n (held ++ new))%list).
Proof.
  intros Hcap new. induction new as [|k new IH]; intros held gone Hlen n.
  - subst n. rewrite app_nil_r.
    replace (List.length held - Z.to_nat capacity)%nat with 0%nat by lia.
    simpl. now rewrite app_nil_r.
  - change (fold_left (lru_insert capacity) (k :: new) (held, gone))
      with (fold_left (lru_insert capacity) new
                      (let grown := (held ++ [k])%list in
                       if Z.of_nat (List.length grown) >? capacity
                       then (tl grown, (gone ++ firstn 1 grown)%list)
                       else (grown, gone))).
    cbv zeta.
    destruct (Z.gtb_spec (Z.of_nat (List.length (held ++ [k]))) capacity) as [Hgt|Hle].
    + rewrite length_app in Hgt. simpl in Hgt.
      destruct (held ++ [k])%list as [|x g'] eqn:Eg.
      { destruct held; discriminate. }
      assert (Hg' : List.length g' = Z.to_nat capacity).
      { apply (f_equal (@List.length string)) in Eg.
        rewrite length_app in Eg. simpl in Eg. lia. }
      simpl tl. simpl firstn.
      rewrite IH by lia.
      assert (Hall : (held ++ k :: new = x :: g' ++ new)%list).
      { change (k :: new) with ([k] ++ new)%list. now rewrite app_assoc, Eg. }
      subst n. rewrite Hall.
      assert (Hge : (Z.to_nat capacity <= List.length (g' ++ new))%nat)
        by (rewrite length_app; lia).
      change (List.length (x :: g' ++ new)) with (S (List.length (g' ++ new))).
      replace (S (List.length (g' ++ new)) - Z.to_nat capacity)%nat
        with (S (List.length (g' ++ new) - Z.to_nat capacity)) by lia.
      simpl. now rewrite <- app_assoc.
    + rewrite IH by exact Hle.
      subst n. change (k :: new) with ([k] ++ new)%list.
      now rewrite app_assoc.
Qed.

Section FillFacts.

Variable json_loads : string -> result json.
Variable chat : nat -> client -> request -> api_result.

(** A successful call on a key that is not cached is an insertion of the
    specified cache. *)
Lemma miss_is_lru_insert o st v st' :
  call_outcome json_loads chat o st (inr v) st' ->
  OD.contains (key_of (op_text o)) (cache st) = false ->
  (OD.keys (cache st'), evicted (trace st'))
  = lru_insert (_cache_size (self st))
               (OD.keys (cache st), evicted (trace st)) (key_of (op_text o)).
Proof.
  intros H Hmiss. inversion H as [Hb|v0 Hne Hg|res' st'' Hne Hc Hl]; subst.
  - apply ODFacts.get_none in Hmiss. congruence.
  - simpl in Hl. destruct Hl as (stk & Ha & -> & _).
    pose proof (attempts_only_cache _ _ Ha) as Hcache.
    assert (Hmk : OD.contains (key_of (op_text o)) (cache stk) = false)
      by now rewrite Hcache.
    pose proof (store_evicts_oldest _ v _ Hmk) as Hs. cbv zeta in Hs.
    assert (Hsz : _cache_size (self stk) = _cache_size (self st)).
    { apply attempts_only_config in Ha. unfold config in Ha. congruence. }
    unfold lru_insert.
    rewrite Hsz, Hcache, (attempts_only_evicted _ _ Ha) in Hs.
    replace (Z.of_nat (List.length (OD.keys (cache st) ++ [key_of (op_text o)])))
      with (OD.len (cache st ++ [(key_of (op_text o), v)])%list)
      by (unfold OD.len, OD.keys; now rewrite !length_app, length_map).
    destruct (_ >? _); destruct Hs as (-> & ->).
    + now rewrite ODFacts.keys_tl, ODFacts.keys_app.
    + now rewrite ODFacts.keys_app.
Qed.

Lemma lru_insert_nodup capacity held gone k rest :
  NoDup ((held ++ [k]) ++ rest) ->
  NoDup (fst (lru_insert capacity (held, gone) k) ++ rest).
Proof.
  unfold lru_insert. destruct (_ >? _); simpl; [|auto].
  destruct (held ++ [k])%list as [|x g]; simpl; [auto|].
  intros H. now apply NoDup_cons_iff in H.
Qed.

(** Classifying texts whose keys are new and distinct, each call
    succeeding, fills the cache as the specified cache is filled. *)
Lemma classify_each_is_lru descriptions :
  forall st rs st',
    run_ops json_loads chat (classify_each descriptions) st = (rs, st') ->
    forallb is_ok rs = true ->
    NoDup (OD.keys (cache st) ++ map key_of descriptions) ->
    (OD.keys (cache st'), evicted (trace st'))
    = fold_left (lru_insert (_cache_size (self st))) (map key_of descriptions)
                (OD.keys (cache st), evicted (trace st)).
Proof.
  induction descriptions as [|d ds IH]; intros st rs st' H Hok Hnd; simpl in H.
  - injection H as _ <-. reflexivity.
  - destruct (classify json_loads chat d st) as (r, st1) eqn:E1.
    destruct (run_ops json_loads chat (classify_each ds) st1) as (rs', st2) eqn:E2.
    injection H as <- <-.
    simpl in Hok. apply andb_true_iff in Hok as (Hr & Hok).
    destruct r as [err|v]; [discriminate|].
    pose proof (run_op_outcome json_loads chat (Classify d) st _ _ E1) as Ho.
    assert (Hmiss : OD.contains (key_of d) (cache st) = false).
    { apply ODFacts.contains_false. intros Hin.
      simpl in Hnd. apply NoDup_remove_2 in Hnd.
      apply Hnd, in_app_iff. now left. }
    pose proof (miss_is_lru_insert _ _ _ _ Ho Hmiss) as Hstep.
    change (op_text (Classify d)) with d in Hstep.
    change (map key_of (d :: ds)) with (key_of d :: map key_of ds).
    change (fold_left (lru_insert (_cache_size (self st)))
                      (key_of d :: map key_of ds)
                      (OD.keys (cache st), evicted (trace st)))
      with (fold_left (lru_insert (_cache_size (self st))) (map key_of ds)
                      (lru_insert (_cache_size (self st))
                                  (OD.keys (cache st), evicted (trace st))
                                  (key_of d))).
    rewrite <- Hstep.
    assert (Hsz : _cache_size (self st1) = _cache_size (self st)).
    { apply call_config in Ho. unfold config in Ho. congruence. }
    rewrite <- Hsz.
    apply (IH st1 rs'); [exact E2 | exact Hok |].
    change (OD.keys (cache st1))
      with (fst (OD.keys (cache st1), evicted (trace st1))).
    rewrite Hstep. apply lru_insert_nodup.
    change (map key_of (d :: ds)) with ([key_of d] ++ map key_of ds)%list in Hnd.
    now rewrite app_assoc in Hnd.
Qed.

End FillFacts.

(** X24. Under calls made one after the other the cache is a
    least-recently-used cache.
    (a) A hit, in [classify] or [classify_sync], returns the cached pair
    and moves its key to the most recent end of the cache, the other keys
    keeping their order.
    (b) A call that stores the pair of a key that was not cached acts on
    the keys as an insertion into the specified cache [lru_insert]: the
    key goes to the most recent end, and if the cache then holds more
    than [_cache_size] entries exactly one entry leaves, the first one.
    (c) On a classifier that starts with an empty cache, after any calls
    of [classify] and [classify_sync] made one after the other, each
    returning before the next begins, the cache lists its keys in the
    order of their last use, least recently used first, so that the entry
    that leaves is the least recently used one.
    (d) After [classify] has succeeded on [capacity + 1] texts with
    distinct keys, on a new classifier of that capacity, exactly one key
    has been evicted, that of the first text: looking it up is a miss,
    and the keys of all other texts are present. The capacity of a
    classifier built with the default arguments is 50. *)
Theorem cache_is_least_recently_used :
  forall json_loads chat,
    (forall o st v,
        PyStr.strip (op_text o) <> "" ->
        OD.get (key_of (op_text o)) (cache st) = Some v ->
        exists st',
          run_op json_loads chat o st = (inr v, st')
          /\ OD.keys (cache st')
             = touch (OD.keys (cache st)) (key_of (op_text o)))
    /\ (forall o st v st',
           run_op json_loads chat o st = (inr v, st') ->
           OD.contains (key_of (op_text o)) (cache st) = false ->
           (OD.keys (cache st'), evicted (trace st'))
           = lru_insert (_cache_size (self st))
                        (OD.keys (cache st), evicted (trace st))
                        (key_of (op_text o)))
    /\ (forall retries capacity ops rs st',
           run_ops json_loads chat ops (fresh (new_classifier retries capacity))
           = (rs, st') ->
           lru_ordered st')
    /\ (forall retries capacity first others rs st',
           0 <= capacity ->
           Z.of_nat (List.length others) = capacity ->
           NoDup (map key_of (first :: others)) ->
           run_ops json_loads chat (classify_each (first :: others))
                   (fresh (new_classifier retries capacity)) = (rs, st') ->
           forallb is_ok rs = true ->
           evicted (trace st') = [key_of first]
           /\ OD.contains (key_of first) (cache st') = false
           /\ (forall d, In d others -> OD.contains (key_of d) (cache st') = true)
           /\ OD.keys (cache st') = map key_of others)
    /\ _cache_size default_classifier = 50.
Proof.
  intros json_loads chat.
  split; [|split; [|split; [|split; [|reflexivity]]]].
  - intros o st v Hne Hg. exists (promoted (key_of (op_text o)) v st). split.
    + destruct o as [d|d]; [now apply classify_hit | now apply classify_sync_hit].
    + exact (hit_promotes o st v Hg).
  - intros o st v st' H Hmiss.
    apply (miss_is_lru_insert json_loads chat o st v st'); [|exact Hmiss].
    now apply run_op_outcome.
  - intros retries capacity ops rs st' H.
    apply (run_ops_keep_lru_order json_loads chat ops _ _ _ H).
    exists []. reflexivity.
  - intros retries capacity first others rs st' Hcap Hlen Hnd H Hok.
    pose proof (classify_each_is_lru json_loads chat _ _ _ _ H Hok) as Hfill.
    simpl self in Hfill. simpl cache in Hfill.
    change (OD.keys (cache (fresh (new_classifier retries capacity))))
      with (@nil string) in Hfill.
    change (evicted (trace (fresh (new_classifier retries capacity))))
      with (@nil string) in Hfill.
    specialize (Hfill Hnd).
    rewrite (lru_insert_all capacity Hcap) in Hfill by (simpl; lia).
    cbv zeta in Hfill. rewrite app_nil_l in Hfill.
    assert (Hn : (List.length (map key_of (first :: others)) - Z.to_nat capacity)%nat
                 = 1%nat).
    { rewrite length_map.
      change (List.length (first :: others)) with (S (List.length others)). lia. }
    rewrite Hn in Hfill.
    simpl in Hfill. injection Hfill as Hk He.
    apply NoDup_cons_iff in Hnd as (Hnotin & _).
    repeat split.
    + exact He.
    + apply ODFacts.contains_false. now rewrite Hk.
    + intros d Hin. apply ODFacts.contains_In. rewrite Hk. now apply in_map.
    + exact Hk.
Qed.

Lemma cache_is_least_recently_used_witness :
  let st' := snd (run_ops Json.loads (always good_answer)
                          (classify_each ["first"; "second"; "third"])
                          (fresh (new_classifier 2 2))) in
  evicted (trace st') = [key_of "first"]
  /\ OD.contains (key_of "first") (cache st') = false
  /\ (forall d, In d ["second"; "third"] -> OD.contains (key_of d) (cache st') = true)
  /\ OD.keys (cache st') = map key_of ["second"; "third"].
Proof.
  intros st'.
  refine (proj1 (proj2 (proj2 (proj2
            (cache_is_least_recently_used Json.loads (always good_answer)))))
                2 2 "first" ["second"; "third"]
                (fst (run_ops Json.loads (always good_answer)
                              (classify_each ["first"; "second"; "third"])
                              (fresh (new_classifier 2 2))))
                st' _ _ _ _ _).
  - lia.
  - reflexivity.
  - vm_compute. repeat constructor; simpl; intuition discriminate.
  - vm_compute. reflexivity.
  - vm_compute. reflexivity.
Defined.

(** C6 fails on a batch that names a text twice. [classify_batch] runs
    on the texts T, U, T with a cache of two entries: the three workers
    find the cache empty and call the model, and the answers come back in
    the order of the calls. The third worker writes the pair of T over
    the entry of the first, and the entry keeps its place at the old end
    of the dictionary: the cache lists T before U although T was used
    last. The next text, V, then evicts T, and U, the least recently used
    key, stays. *)
Lemma batch_duplicate_evicts_most_recent :
  exists b0 v,
    classify_batch_start ["T"; "U"; "T"] None (fresh (new_classifier 2 2))
    = inr b0
    /\ let b := run_schedule Json.loads (always good_answer)
                             [0; 1; 2; 0; 1; 2]%nat b0 in
       let r := classify Json.loads (always good_answer) "V" (bstate b) in
       gathered b = Some (inr [v; v; v])
       /\ OD.keys (cache (bstate b)) = [key_of "T"; key_of "U"]
       /\ recency (uses (trace (bstate b))) = [key_of "U"; key_of "T"]
       /\ is_ok (fst r) = true
       /\ evicted (trace (snd r)) = [key_of "T"]
       /\ OD.keys (cache (snd r)) = [key_of "U"; key_of "V"].
Proof. eexists _, _. split; [reflexivity|]. vm_compute. repeat split. Qed.

(* ------------------------------------------------------------------ *)
(** ** The envelope of [classify_problem_statement] *)

Section EnvelopeFacts.

Variable json_loads : string -> result json.
Variable chat : nat -> client -> request -> api_result.

(** Parsing gives the success envelope, or a failure that carries the
    text it was given. *)
Lemma parse_envelope text :
  (exists x y, _parse_classification_response json_loads text = success x y)
  \/ (exists msg,
         _parse_classification_response json_loads text = failure_raw msg text).
Proof.
  unfold _parse_classification_response.
  destruct (json_loads text) as [e|parsed].
  - right. destruct (is_JSONDecodeError e); eauto.
  - destruct (all_in [X_KEY; Y_KEY] parsed) as [e|[|]]; [right; eauto| |right; eauto].
    destruct (getitem parsed X_KEY) as [e|x]; [right; eauto|].
    destruct (getitem parsed Y_KEY) as [e|y]; [right; eauto|].
    left. eauto.
Qed.

Lemma success_well_formed x y : well_formed_envelope (success x y).
Proof. exists [(X_KEY, x); (Y_KEY, y)], x, y. repeat split. Qed.

Lemma failure_well_formed msg : well_formed_envelope (failure msg).
Proof. exists msg. reflexivity. Qed.

Lemma failure_raw_well_formed msg raw : well_formed_envelope (failure_raw msg raw).
Proof. exists msg. reflexivity. Qed.

(** The loop returns a dictionary as soon as its attempts include one
    that is not below [max_retries - 1]. *)
Lemma cps_loop_returns max_retries messages attempts :
  forall tr,
    (exists a, In a attempts /\ max_retries - 1 <= a) ->
    exists env tr',
      cps_loop json_loads chat max_retries attempts messages tr = (Some env, tr')
      /\ envelope_origin json_loads chat
                         (Request "llama-3.3-70b-versatile" messages) env.
Proof.
  induction attempts as [|a rest IH]; intros tr (a0 & Hin & Ha0).
  - destruct Hin.
  - assert (Hrest : a < max_retries - 1 ->
                    exists a1, In a1 rest /\ max_retries - 1 <= a1).
    { intros Hlt. destruct Hin as [->|Hin]; [lia|eauto]. }
    cbn [cps_loop].
    destruct (chat (calls tr) Groq _) as [e|choices] eqn:Ec.
    + destruct (PyStr.contains "authentication" _);
        [eexists _, _; split; [reflexivity | left; eauto]|].
      destruct (PyStr.contains "rate_limit" _);
        [eexists _, _; split; [reflexivity | left; eauto]|].
      destruct (Z.ltb_spec a (max_retries - 1)) as [Hlt|Hge].
      * apply IH. auto.
      * eexists _, _; split; [reflexivity | left; eauto].
    + destruct (no_content choices) eqn:En.
      * destruct (Z.ltb_spec a (max_retries - 1)) as [Hlt|Hge].
        -- apply IH. auto.
        -- eexists _, _; split; [reflexivity | left; eauto].
      * eexists _, _; split; [reflexivity|]. right.
        destruct choices as [|[text|] rest']; try discriminate.
        exists (calls tr), text, rest'. simpl. split; [exact Ec|].
        split; [|reflexivity].
        simpl in En. now apply String.eqb_neq.
Qed.

End EnvelopeFacts.

(** C8. [classify_problem_statement] returns a dictionary on every
    input, whatever the environment holds for the key and whatever the
    model does (the construction of the client from a key that passed the
    checks is taken to succeed): it never leaves the loop without a
    [return] and lets no exception of the call or of the parsing through.
    The dictionary has a boolean under ['success']; with [True] it has
    under ['data'] a dictionary holding both category keys; with [False]
    it has a message under ['error']. It is either a failure built by the
    function itself or the parse of a text the model returned, and a
    failed parse keeps that text under ['raw_response']. *)
Theorem classify_problem_statement_returns_envelope :
  forall json_loads chat api_key system_instruction idea problem_statement tr,
    (exists env tr',
        classify_problem_statement json_loads chat api_key system_instruction
                                   idea problem_statement tr
        = (Some env, tr')
        /\ well_formed_envelope env
        /\ envelope_origin json_loads chat
             (groq_request system_instruction idea problem_statement) env)
    /\ (forall text,
           let parsed := _parse_classification_response json_loads text in
           well_formed_envelope parsed
           /\ (OD.get "success" parsed = Some (PBool false) ->
               OD.get "raw_response" parsed = Some (PStr text))).
Proof.
  intros json_loads chat api_key sys idea ps tr.
  assert (Hparse : forall text,
             let parsed := _parse_classification_response json_loads text in
             well_formed_envelope parsed
             /\ (OD.get "success" parsed = Some (PBool false) ->
                 OD.get "raw_response" parsed = Some (PStr text))).
  { intros text parsed. subst parsed.
    destruct (parse_envelope json_loads text) as [(x & y & ->)|(msg & ->)].
    - split; [apply success_well_formed | discriminate].
    - split; [apply failure_raw_well_formed | reflexivity]. }
  split; [|exact Hparse].
  assert (Hloop : exists env tr',
             cps_loop json_loads chat 3 [0; 1; 2]
                      [("system", sys); ("user", user_prompt idea ps)] tr
             = (Some env, tr')
             /\ envelope_origin json_loads chat (groq_request sys idea ps) env).
  { apply cps_loop_returns. exists 2. split; [simpl; auto | lia]. }
  assert (Hwf : forall env,
             envelope_origin json_loads chat (groq_request sys idea ps) env ->
             well_formed_envelope env).
  { intros env [(msg & ->)|(n & text & rest & _ & _ & ->)].
    - apply failure_well_formed.
    - apply Hparse. }
  unfold classify_problem_statement.
  destruct api_key as [k|].
  - destruct (String.eqb k "").
    + eexists _, _. split; [reflexivity|].
      split; [apply failure_well_formed | left; eauto].
    + destruct (_ <? 10).
      * eexists _, _. split; [reflexivity|].
        split; [apply failure_well_formed | left; eauto].
      * destruct Hloop as (env & tr' & Hl & Ho).
        exists env, tr'. split; [exact Hl|]. split; [now apply Hwf | exact Ho].
  - eexists _, _. split; [reflexivity|].
    split; [apply failure_well_formed | left; eauto].
Qed.

(* ------------------------------------------------------------------ *)
(** ** The batch: steps of the event loop *)

Lemma nth_error_set_nth_same {A} (l : list A) i x y :
  nth_error l i = Some x -> nth_error (set_nth i y l) i = Some y.
Proof.
  revert i. induction l as [|a l IH]; intros [|i]; simpl; try discriminate; auto.
Qed.

Lemma nth_error_set_nth_other {A} (l : list A) i j y :
  i <> j -> nth_error (set_nth i y l) j = nth_error l j.
Proof.
  revert i j. induction l as [|a l IH]; intros [|i] [|j] H; simpl; auto.
  congruence.
Qed.

Lemma length_set_nth {A} (l : list A) i y :
  List.length (set_nth i y l) = List.length l.
Proof.
  revert i. induction l as [|a l IH]; intros [|i]; simpl; auto.
Qed.

Lemma in_flight_cons t ts : in_flight (t :: ts) = permit t + in_flight ts.
Proof.
  unfold in_flight, permit. cbn [filter].
  destruct (holds_permit t); cbn [List.length]; lia.
Qed.

Lemma in_flight_set_nth ts i t t' :
  nth_error ts i = Some t ->
  in_flight (set_nth i t' ts) = in_flight ts - permit t + permit t'.
Proof.
  revert i. induction ts as [|a ts IH]; intros [|i] H; simpl in H; try discriminate.
  - injection H as ->. simpl set_nth. rewrite !in_flight_cons. lia.
  - simpl set_nth. rewrite !in_flight_cons, (IH _ H). lia.
Qed.

Lemma in_flight_nonneg ts : 0 <= in_flight ts.
Proof. unfold in_flight. lia. Qed.

Lemma in_flight_queued ds : in_flight (map Queued ds) = 0.
Proof.
  induction ds as [|d ds IH]; [reflexivity|].
  simpl map. rewrite in_flight_cons, IH. reflexivity.
Qed.

Section BatchFacts.

Variable json_loads : string -> result json.
Variable chat : nat -> client -> request -> api_result.


(** What a step of the event loop is made of. *)
Lemma step_task_inv i b b' :
  step_task json_loads chat i b = Some b' ->
  exists t t',
    nth_error (tasks b) i = Some t
    /\ task_step json_loads chat (bstate b) t t' (bstate b')
    /\ tasks b' = set_nth i t' (tasks b)
    /\ permits b' = permits b + permit t - permit t'
    /\ (permit t = 0 -> 0 < permits b)
    /\ raised b' = note t' (raised b).
Proof.
  unfold step_task.
  destruct (nth_error (tasks b) i) as [t|] eqn:En; [|discriminate].
  destruct t as [d|a rest prompt key r|rest prompt key err|r].
  - destruct (Z.ltb_spec 0 (permits b)) as [Hp|]; [|discriminate].
    destruct (enter chat d (bstate b)) as (t', st') eqn:Ee.
    intros H. injection H as <-. exists (Queued d), t'. simpl.
    split; [reflexivity|]. split; [now apply ts_enter|].
    split; [reflexivity|]. unfold permit. simpl.
    split; [destruct (holds_permit t'); lia|]. split; [lia | reflexivity].
  - destruct (resume json_loads chat _ (bstate b)) as [(t', st')|] eqn:Er;
      [|discriminate].
    intros H. injection H as <-.
    exists (AwaitCreate a rest prompt key r), t'. simpl.
    split; [reflexivity|]. split; [now apply ts_resume|].
    split; [reflexivity|]. unfold permit. simpl.
    split; [destruct (holds_permit t'); lia|]. split; [lia | reflexivity].
  - destruct (resume json_loads chat _ (bstate b)) as [(t', st')|] eqn:Er;
      [|discriminate].
    intros H. injection H as <-.
    exists (AwaitSleep rest prompt key err), t'. simpl.
    split; [reflexivity|]. split; [now apply ts_resume|].
    split; [reflexivity|]. unfold permit. simpl.
    split; [destruct (holds_permit t'); lia|]. split; [lia | reflexivity].
  - discriminate.
Qed.

(** A task that has started never goes back to the queue. *)
Lemma task_step_not_queued st t t' st' :
  task_step json_loads chat st t t' st' -> forall d, t' <> Queued d.
Proof.
  intros [d t1 st1 He|t0 t1 st1 Hh Hr] d'.
  - unfold enter in He.
    destruct (String.eqb _ ""); [injection He as <- _; discriminate|].
    destruct (OD.contains _ _).
    + destruct (OD.move_to_end _ _); [|injection He as <- _; discriminate].
      destruct (OD.get _ _); injection He as <- _; discriminate.
    + unfold begin_attempt in He.
      destruct (py_range _ _); injection He as <- _; discriminate.
  - destruct t0; try discriminate; simpl in Hr.
    + destruct (on_response _ _ _ _) as ([e|v], st2);
        injection Hr as <- _; discriminate.
    + unfold begin_attempt in Hr.
      destruct rest; injection Hr as <- _; discriminate.
Qed.

(** The semaphore: its value and the number of workers inside
    [async with] always add up to the value it was created with. *)
Lemma step_keeps_permits b b' n :
  step json_loads chat b b' ->
  permits b + in_flight (tasks b) = n -> 0 <= permits b ->
  permits b' + in_flight (tasks b') = n /\ 0 <= permits b'.
Proof.
  intros [i b0 b1 Hs] Hsum Hpos.
  apply step_task_inv in Hs
    as (t & t' & Hn & Hts & Ht & Hp & Hq & _).
  rewrite Ht, (in_flight_set_nth _ _ _ _ Hn), Hp.
  split; [lia|].
  unfold permit in *. destruct (holds_permit t), (holds_permit t'); lia.
Qed.

Lemma step_keeps_length b b' :
  step json_loads chat b b' ->
  List.length (tasks b') = List.length (tasks b).
Proof.
  intros [i b0 b1 Hs].
  apply step_task_inv in Hs as (t & t' & _ & _ & -> & _).
  apply length_set_nth.
Qed.

(** A step changes nothing in the settings of the classifier. *)
Lemma begin_attempt_config attempts prompt key last st t' st' :
  begin_attempt chat attempts prompt key last st = (t', st') ->
  self st' = self st.
Proof.
  unfold begin_attempt. destruct attempts; intros H; injection H as _ <-; reflexivity.
Qed.

Lemma task_step_config st t t' st' :
  task_step json_loads chat st t t' st' -> config (self st') = config (self st).
Proof.
  intros [d t1 st1 He|t0 t1 st1 Hh Hr].
  - unfold enter in He.
    destruct (String.eqb _ ""); [injection He as _ <-; reflexivity|].
    destruct (OD.contains _ _).
    + destruct (OD.move_to_end _ _); [|injection He as _ <-; reflexivity].
      destruct (OD.get _ _); injection He as _ <-; reflexivity.
    + apply begin_attempt_config in He. now rewrite He.
  - destruct t0; try discriminate; simpl in Hr.
    + rewrite on_response_answer in Hr.
      destruct (answer _ _) as [e|v]; injection Hr as _ <-; [reflexivity|].
      apply stored_config.
    + injection Hr as Hr. apply begin_attempt_config in Hr. now rewrite Hr.
Qed.

(** Every step brings its task strictly closer to its end. *)
Lemma task_step_measure st t t' st' :
  task_step json_loads chat st t t' st' ->
  (task_measure (max_retries (self st)) t'
   < task_measure (max_retries (self st)) t)%nat.
Proof.
  intros [d t1 st1 He|t0 t1 st1 Hh Hr].
  - unfold enter in He.
    destruct (String.eqb _ ""); [injection He as <- _; simpl; lia|].
    destruct (OD.contains _ _).
    + destruct (OD.move_to_end _ _); [|injection He as <- _; simpl; lia].
      destruct (OD.get _ _); injection He as <- _; simpl; lia.
    + unfold begin_attempt in He.
      destruct (py_range _ _) as [|a rest] eqn:E;
        [injection He as <- _; simpl; lia|].
      injection He as <- _.
      apply (f_equal (@List.length Z)) in E. rewrite py_range_attempts in E.
      simpl in E. simpl task_measure. lia.
  - destruct t0; try discriminate; simpl in Hr.
    + destruct (on_response _ _ _ _) as ([e|v], st2);
        injection Hr as <- _; simpl; lia.
    + unfold begin_attempt in Hr.
      destruct rest as [|a rest']; injection Hr as <- _; simpl; lia.
Qed.

Lemma measure_set_nth (m : task -> nat) ts i t t' :
  nth_error ts i = Some t ->
  (list_sum (map m (set_nth i t' ts)) + m t = list_sum (map m ts) + m t')%nat.
Proof.
  revert i. induction ts as [|a ts IH]; intros [|i] H; simpl in H; try discriminate.
  - injection H as ->. simpl. lia.
  - simpl. specialize (IH _ H). lia.
Qed.

Lemma step_decreases b b' :
  step json_loads chat b b' -> (batch_measure b' < batch_measure b)%nat.
Proof.
  intros [i b0 b1 Hs].
  apply step_task_inv in Hs as (t & t' & Hn & Hts & Ht & _).
  unfold batch_measure. rewrite Ht.
  pose proof (task_step_config _ _ _ _ Hts) as Hcfg.
  assert (Hmr : max_retries (self (bstate b1)) = max_retries (self (bstate b0)))
    by (unfold config in Hcfg; congruence).
  rewrite Hmr.
  pose proof (task_step_measure _ _ _ _ Hts).
  pose proof (measure_set_nth (task_measure (max_retries (self (bstate b0))))
                              _ _ _ t' Hn).
  lia.
Qed.

Lemma step_keeps_config b b' :
  step json_loads chat b b' ->
  config (self (bstate b')) = config (self (bstate b)).
Proof.
  intros [i b0 b1 Hs].
  apply step_task_inv in Hs as (t & t' & _ & Hts & _).
  now apply task_step_config in Hts.
Qed.

Lemma in_set_nth {A} (l : list A) i y x :
  In x (set_nth i y l) -> x = y \/ In x l.
Proof.
  revert i. induction l as [|a l IH]; intros [|i]; simpl; intros H; auto.
  - destruct H; auto.
  - destruct H as [H|H]; auto. destruct (IH _ H); auto.
Qed.

Lemma step_keeps_none_failed b b' :
  step json_loads chat b b' -> none_failed b -> none_failed b'.
Proof.
  intros [i b0 b1 Hs] Hinv.
  apply step_task_inv in Hs as (t & t' & _ & _ & Ht & _ & _ & Hr).
  unfold none_failed in *. rewrite Hr, Ht. intros Hnone e Hin.
  apply in_set_nth in Hin as [<-|Hin].
  - destruct (raised b0); discriminate.
  - destruct (raised b0) eqn:E; [destruct t' as [| | |[|]]; discriminate|].
    now apply (Hinv eq_refl e).
Qed.

(** A task that holds a permit can always be resumed. *)
Lemma holder_can_step i b t :
  nth_error (tasks b) i = Some t -> holds_permit t = true ->
  exists b', step_task json_loads chat i b = Some b'.
Proof.
  intros Hn Hh. unfold step_task. rewrite Hn.
  destruct t as [d|a rest prompt key r|rest prompt key err|r]; try discriminate.
  - destruct (resume json_loads chat _ (bstate b)) as [(t', st')|] eqn:Er; eauto.
    simpl in Er. destruct (on_response _ _ _ _) as ([e|v], st2); discriminate.
  - destruct (resume json_loads chat _ (bstate b)) as [(t', st')|] eqn:Er; eauto.
    discriminate.
Qed.

Lemma queued_can_step i b d :
  nth_error (tasks b) i = Some (Queued d) -> 0 < permits b ->
  exists b', step_task json_loads chat i b = Some b'.
Proof.
  intros Hn Hp. unfold step_task. rewrite Hn.
  destruct (Z.ltb_spec 0 (permits b)); [|lia].
  destruct (enter chat d (bstate b)). eauto.
Qed.

Lemma in_flight_zero ts :
  in_flight ts = 0 -> forall t, In t ts -> holds_permit t = false.
Proof.
  induction ts as [|a ts IH]; intros H t Hin; [destruct Hin|].
  rewrite in_flight_cons in H. pose proof (in_flight_nonneg ts).
  unfold permit in H. destruct (holds_permit a) eqn:Ea; [lia|].
  destruct Hin as [<-|Hin]; [exact Ea | apply IH; [lia | exact Hin]].
Qed.

Lemma in_flight_pos ts :
  0 < in_flight ts -> exists t, In t ts /\ holds_permit t = true.
Proof.
  induction ts as [|a ts IH]; intros H; [discriminate|].
  rewrite in_flight_cons in H. unfold permit in H.
  destruct (holds_permit a) eqn:Ea.
  - exists a. split; [now left | exact Ea].
  - destruct IH as (t & Hin & Ht); [lia|]. exists t. split; [now right | exact Ht].
Qed.

Lemma all_values_none ts :
  all_values ts = None ->
  exists t, In t ts /\ forall v, t <> Finished (inr v).
Proof.
  induction ts as [|a ts IH]; [discriminate|]. simpl.
  destruct a as [d|a0 rest prompt key r|rest prompt key err|[e|v]];
    try (intros _; eexists; split; [now left | discriminate]).
  destruct (all_values ts); [discriminate|].
  intros _. destruct (IH eq_refl) as (t & Hin & Ht).
  exists t. split; [now right | exact Ht].
Qed.

(** As long as [gather] has nothing to deliver and the semaphore was
    created with at least one permit, some task can run. *)
Lemma step_possible b n :
  permits b + in_flight (tasks b) = n -> 1 <= n ->
  none_failed b ->
  gathered b = None ->
  exists i b', step_task json_loads chat i b = Some b'.
Proof.
  intros Hsum Hn Hnf Hg. unfold gathered in Hg.
  destruct (raised b) eqn:Er; [discriminate|].
  destruct (all_values (tasks b)) eqn:Ea; [discriminate|].
  destruct (Z.eq_dec (in_flight (tasks b)) 0) as [Hz|Hnz].
  - destruct (all_values_none _ Ea) as (t & Hin & Ht).
    pose proof (in_flight_zero _ Hz t Hin) as Hh.
    destruct (In_nth_error _ _ Hin) as (i & Hi).
    destruct t as [d|a rest prompt key r|rest prompt key err|[e|v]];
      try discriminate.
    + destruct (queued_can_step i b d Hi) as (b' & Hb); [lia|]. eauto.
    + exfalso. exact (Hnf Er e Hin).
    + exfalso. now apply (Ht v).
  - pose proof (in_flight_nonneg (tasks b)).
    destruct (in_flight_pos (tasks b)) as (t & Hin & Ht); [lia|].
    destruct (In_nth_error _ _ Hin) as (i & Hi).
    destruct (holder_can_step i b t Hi Ht) as (b' & Hb). eauto.
Qed.

Lemma first_step_some candidates b b' :
  first_step json_loads chat candidates b = Some b' -> step json_loads chat b b'.
Proof.
  induction candidates as [|i rest IH]; simpl; [discriminate|].
  destruct (step_task json_loads chat i b) as [b1|] eqn:E.
  - intros H. injection H as <-. now apply (step_intro _ _ i).
  - exact IH.
Qed.

Lemma first_step_none candidates b :
  first_step json_loads chat candidates b = None ->
  forall i, In i candidates -> step_task json_loads chat i b = None.
Proof.
  induction candidates as [|j rest IH]; simpl; intros H i Hin; [destruct Hin|].
  destruct (step_task json_loads chat j b) as [b1|] eqn:E; [discriminate|].
  destruct Hin as [<-|Hin]; [exact E | now apply IH].
Qed.

Lemma step_task_in_range i b b' :
  step_task json_loads chat i b = Some b' -> In i (seq 0 (List.length (tasks b))).
Proof.
  intros H. apply step_task_inv in H as (t & _ & Hn & _).
  apply in_seq. split; [lia|]. simpl.
  apply nth_error_Some. congruence.
Qed.

Lemma run_to_end_reachable fuel :
  forall b0 b, reachable json_loads chat b0 b -> reachable json_loads chat b0 (run_to_end json_loads chat fuel b).
Proof.
  induction fuel as [|k IH]; intros b0 b Hr; simpl; [exact Hr|].
  destruct (first_step _ _ _ b) as [b'|] eqn:E; [|exact Hr].
  apply IH. eapply reach_step; [exact Hr|]. now apply first_step_some in E.
Qed.

(** With the measure of the batch as fuel, the scheduler runs until no
    task can run any more. *)
Lemma run_to_end_stuck fuel :
  forall b, (batch_measure b <= fuel)%nat ->
  forall i, step_task json_loads chat i (run_to_end json_loads chat fuel b) = None.
Proof.
  induction fuel as [|k IH]; intros b Hm i; simpl.
  - destruct (step_task json_loads chat i b) as [b'|] eqn:E; [|reflexivity].
    pose proof (step_decreases b b' (step_intro _ _ i b b' E)). lia.
  - destruct (first_step _ _ _ b) as [b'|] eqn:E.
    + apply IH. pose proof (step_decreases b b' (first_step_some _ _ _ E)). lia.
    + destruct (step_task json_loads chat i b) as [b'|] eqn:Es; [|reflexivity].
      pose proof (first_step_none _ _ E i (step_task_in_range _ _ _ Es)).
      congruence.
Qed.

Lemma reachable_invariants b0 b :
  reachable json_loads chat b0 b ->
  0 <= permits b0 -> none_failed b0 ->
  permits b + in_flight (tasks b) = permits b0 + in_flight (tasks b0)
  /\ 0 <= permits b
  /\ List.length (tasks b) = List.length (tasks b0)
  /\ config (self (bstate b)) = config (self (bstate b0))
  /\ none_failed b.
Proof.
  intros Hr Hp0 Hnf0. induction Hr as [|b b' Hr IH Hs].
  - repeat split; auto.
  - destruct IH as (Hsum & Hpos & Hlen & Hcfg & Hnf).
    destruct (step_keeps_permits b b' _ Hs Hsum Hpos) as (Hsum' & Hpos').
    repeat split; try assumption.
    + rewrite <- Hlen. now apply step_keeps_length.
    + rewrite <- Hcfg. now apply step_keeps_config.
    + now apply (step_keeps_none_failed b b').
Qed.

End BatchFacts.

(* ------------------------------------------------------------------ *)
(** ** The batch against a stubbed model *)

Lemma in_set (k : string) (v : categories) d :
  forall e, In e (OD.set k v d) -> e = (k, v) \/ In e d.
Proof.
  induction d as [|(k2, v2) d IH]; simpl; intros e H.
  - destruct H as [<-|[]]. now left.
  - destruct (String.eqb k k2); simpl in H.
    + destruct H as [<-|H]; [now left | right; now right].
    + destruct H as [<-|H]; [right; now left|].
      destruct (IH _ H); [now left | right; now right].
Qed.

Lemma get_In (k : string) (v : categories) d : OD.get k d = Some v -> In (k, v) d.
Proof.
  induction d as [|(k2, v2) d IH]; simpl; [discriminate|].
  destruct (String.eqb k k2) eqn:E.
  - apply String.eqb_eq in E. subst. intros H. injection H as ->. now left.
  - intros H. right. now apply IH.
Qed.

Lemma in_stored key v st e :
  In e (cache (stored key v st)) -> e = (key, v) \/ In e (cache st).
Proof.
  destruct (stored_cases key v st) as [(_ & -> & _)|(_ & k & w & Hd & _)].
  - apply in_set.
  - intros H. apply (in_set key v (cache st)). rewrite Hd. now right.
Qed.

Lemma in_promoted key v st e :
  OD.get key (cache st) = Some v ->
  In e (cache (promoted key v st)) -> In e (cache st).
Proof.
  intros Hg. rewrite promoted_cache, in_app_iff.
  intros [H|[<-|[]]].
  - unfold OD.remove in H. now apply filter_In in H.
  - now apply get_In.
Qed.

Lemma Forall2_set_nth {A B} (P : A -> B -> Prop) l ts i d t' :
  Forall2 P l ts -> nth_error l i = Some d -> P d t' ->
  Forall2 P l (set_nth i t' ts).
Proof.
  intros H. revert i. induction H as [|x y l ts Hxy H IH]; intros [|i] Hn Hp;
    simpl in *; try discriminate.
  - injection Hn as ->. now constructor.
  - constructor; [exact Hxy | now apply IH].
Qed.

Lemma Forall2_nth_error {A B} (P : A -> B -> Prop) l ts i t :
  Forall2 P l ts -> nth_error ts i = Some t ->
  exists d, nth_error l i = Some d /\ P d t.
Proof.
  intros H. revert i. induction H as [|x y l ts Hxy H IH]; intros [|i] Hn;
    simpl in *; try discriminate.
  - injection Hn as ->. eauto.
  - now apply IH.
Qed.

Section StubFacts.

Variable json_loads : string -> result json.
Variable chat : nat -> client -> request -> api_result.
Variable f : request -> api_result.
Variable c0 : Classifier.
Variable descriptions : list string.

Hypothesis stubbed : forall n c q, chat n c q = f q.
Hypothesis distinct : no_collision descriptions.

Abbreviation expected_ := (expected json_loads f c0).
Abbreviation task_for_ := (task_for json_loads f c0).
Abbreviation cache_agrees_ := (cache_agrees json_loads f c0 descriptions).

Lemma begin_attempt_for d attempts last st t' st' :
  config (self st) = config c0 ->
  begin_attempt chat attempts (prompt_of d) (key_of d) last st = (t', st') ->
  task_for_ d t' /\ cache st' = cache st.
Proof.
  intros Hcfg. unfold begin_attempt.
  destruct attempts as [|a rest]; intros H.
  - injection H as <- <-. split; [exact I | reflexivity].
  - unfold create in H. injection H as <- <-. split; [|reflexivity].
    simpl. split; [reflexivity|]. split; [reflexivity|].
    rewrite stubbed. unfold request_of.
    unfold config in Hcfg. now replace (model_name c0) with (model_name (self st))
      by congruence.
Qed.

(** A step of the task of [d] keeps it the task of [d], and keeps the
    cache in agreement with the stub. *)
Lemma task_step_for d st t t' st' :
  In d descriptions ->
  config (self st) = config c0 ->
  task_step json_loads chat st t t' st' ->
  task_for_ d t -> cache_agrees_ st ->
  task_for_ d t' /\ cache_agrees_ st'.
Proof.
  intros Hd Hcfg [d0 t1 st1 He|t0 t1 st1 Hh Hr] Hfor Hagree.
  - simpl in Hfor. subst d0. unfold enter in He.
    destruct (String.eqb _ ""); [injection He as <- <-; split; [exact I|exact Hagree]|].
    fold (key_of d) in He. fold (prompt_of d) in He.
    destruct (OD.contains (key_of d) (cache st)) eqn:Ec.
    + destruct (ODFacts.move_to_end_spec _ _ Ec) as (v & Hv & Hm & Hg).
      rewrite Hm in He.
      change (cache (emit (EvLogHit (key_of d))
                          (set_cache (OD.remove (key_of d) (cache st) ++ [(key_of d, v)])%list st)))
        with (OD.remove (key_of d) (cache st) ++ [(key_of d, v)])%list in He.
      rewrite Hg in He. injection He as <- <-.
      split.
      * simpl. apply Hagree; [exact Hd | now apply get_In].
      * intros d' v' Hd' Hin. apply Hagree; [exact Hd'|].
        now apply (in_promoted (key_of d) v st).
    + destruct (begin_attempt_for d _ _ _ _ _ Hcfg He) as (Ht & Hc).
      split; [exact Ht|]. unfold cache_agrees. now rewrite Hc.
  - destruct t0 as [d0|a rest prompt key r|rest prompt key err|r0];
      try discriminate; simpl in Hr, Hfor.
    + destruct Hfor as (-> & -> & ->).
      rewrite on_response_answer in Hr.
      fold (expected_ d) in Hr.
      destruct (expected_ d) as [e|v] eqn:Ee; injection Hr as <- <-.
      * split; [split; reflexivity | exact Hagree].
      * split; [exact Ee|].
        intros d' v' Hd' Hin. apply in_stored in Hin as [Hin|Hin].
        -- injection Hin as Hk ->.
           unfold expected, request_of.
           rewrite (distinct d' d Hd' Hd Hk). exact Ee.
        -- now apply Hagree.
    + destruct Hfor as (-> & ->). injection Hr as Hr.
      destruct (begin_attempt_for d _ _ _ _ _ Hcfg Hr) as (Ht & Hc).
      split; [exact Ht|]. unfold cache_agrees. now rewrite Hc.
Qed.

Lemma step_keeps_tasks_for b b' :
  config (self (bstate b)) = config c0 ->
  step json_loads chat b b' ->
  Forall2 task_for_ descriptions (tasks b) /\ cache_agrees_ (bstate b) ->
  Forall2 task_for_ descriptions (tasks b') /\ cache_agrees_ (bstate b').
Proof.
  intros Hcfg Hstep. revert Hcfg.
  destruct Hstep as [i b0 b1 Hs]. intros Hcfg (Hall & Hagree).
  apply step_task_inv in Hs as (t & t' & Hn & Hts & Ht & _).
  destruct (Forall2_nth_error _ _ _ _ _ Hall Hn) as (d & Hd & Hfor).
  assert (Hin : In d descriptions) by (eapply nth_error_In; eassumption).
  destruct (task_step_for d _ _ _ _ Hin Hcfg Hts Hfor Hagree) as (Hfor' & Hagree').
  split; [|exact Hagree'].
  rewrite Ht. eapply Forall2_set_nth; eassumption.
Qed.

Lemma all_values_for ts :
  forall ds vs,
    Forall2 task_for_ ds ts -> all_values ts = Some vs ->
    Forall2 (fun d v => expected_ d = inr v) ds vs.
Proof.
  induction ts as [|t ts IH]; intros ds vs Hall Hv.
  - inversion Hall; subst. simpl in Hv. injection Hv as <-. constructor.
  - inversion Hall as [|d t0 ds' ts0 Hfor Hrest]; subst.
    simpl in Hv.
    destruct t as [d0|a rest prompt key r|rest prompt key err|[e|v]];
      try discriminate.
    destruct (all_values ts) as [vs'|] eqn:E; [|discriminate].
    injection Hv as <-. constructor; [exact Hfor | now apply IH].
Qed.

End StubFacts.

(* ------------------------------------------------------------------ *)
(** ** The tasks of the batch run [classify] *)

Section DriveFacts.

Variable json_loads : string -> result json.
Variable chat : nat -> client -> request -> api_result.

Lemma drive_finished fuel r st :
  drive json_loads chat fuel (Finished r) st = Some (r, st).
Proof. destruct fuel; reflexivity. Qed.

Lemma drive_begin_attempt attempts prompt key :
  forall last st fuel,
    (2 * List.length attempts <= fuel)%nat ->
    drive json_loads chat fuel
          (fst (begin_attempt chat attempts prompt key last st))
          (snd (begin_attempt chat attempts prompt key last st))
    = Some (classify_loop json_loads chat attempts prompt key last st).
Proof.
  induction attempts as [|a rest IH]; intros last st fuel Hf.
  - simpl. now rewrite drive_finished.
  - simpl in Hf. destruct fuel as [|[|fuel]]; try lia.
    cbn [begin_attempt classify_loop].
    destruct (create chat AsyncGroq _ st) as (r, st1).
    cbn [fst snd drive resume].
    destruct (on_response json_loads r key st1) as ([err|v], st2).
    + cbn [drive resume].
      match goal with
      | |- context [begin_attempt chat rest prompt key (Some err) ?s] =>
          pose proof (IH (Some err) s fuel) as H
      end.
      destruct (begin_attempt chat rest prompt key (Some err) _) as (t', st').
      apply H. lia.
    + reflexivity.
Qed.

(** A task driven alone from the queue to its end does what [classify]
    does. *)
Lemma drive_is_classify d st fuel :
  (2 * Z.to_nat (max_retries (self st)) <= fuel)%nat ->
  drive json_loads chat fuel (fst (enter chat d st)) (snd (enter chat d st))
  = Some (classify json_loads chat d st).
Proof.
  intros Hf. unfold enter, classify.
  destruct (String.eqb _ ""); [cbn [fst snd]; now rewrite drive_finished|].
  destruct (OD.contains _ _).
  - destruct (OD.move_to_end _ _); [|cbn [fst snd]; now rewrite drive_finished].
    destruct (OD.get _ _); cbn [fst snd]; now rewrite drive_finished.
  - apply drive_begin_attempt. now rewrite py_range_attempts.
Qed.

Lemma run_schedule_reachable schedule :
  forall b0 b,
    reachable json_loads chat b0 b ->
    reachable json_loads chat b0 (run_schedule json_loads chat schedule b).
Proof.
  induction schedule as [|i rest IH]; intros b0 b Hr; simpl; [exact Hr|].
  destruct (step_task json_loads chat i b) as [b'|] eqn:E; [|now apply IH].
  apply IH. eapply reach_step; [exact Hr|]. exact (step_intro _ _ i b b' E).
Qed.

End DriveFacts.

(* ------------------------------------------------------------------ *)
(** ** Order and bound of the batch *)



(* ------------------------------------------------------------------ *)
(** ** Keys do collide *)

Lemma hash_by_words text :
  _hash text = hex_word (fst (key_words text)) ++ hex_word (snd (key_words text)).
Proof.
  unfold _hash, key_words, MD5.hexdigest, MD5.digest, hex_word.
  destruct (MD5.compress (PyStr.encode text)) as (((a, b), c), d).
  reflexivity.
Qed.

Lemma block_range st M :
  let '(a, b, _, _) := MD5.block st M in
  0 <= a < 2 ^ 32 /\ 0 <= b < 2 ^ 32.
Proof.
  unfold MD5.block. destruct st as (((a0, b0), c0), d0).
  destruct (fold_left (MD5.round M) MD5.indices (a0, b0, c0, d0)) as (((a, b), c), d).
  unfold MD5.w32. split; apply Z.mod_pos_bound; reflexivity.
Qed.

Lemma fold_block_range blocks :
  forall st,
    (let '(a, b, _, _) := st in 0 <= a < 2 ^ 32 /\ 0 <= b < 2 ^ 32) ->
    let '(a, b, _, _) := fold_left MD5.block blocks st in
    0 <= a < 2 ^ 32 /\ 0 <= b < 2 ^ 32.
Proof.
  induction blocks as [|M blocks IH]; intros st Hst; [exact Hst|].
  cbn [fold_left]. apply IH. apply block_range.
Qed.

Lemma key_words_range text :
  0 <= fst (key_words text) < 2 ^ 32 /\ 0 <= snd (key_words text) < 2 ^ 32.
Proof.
  unfold key_words, MD5.compress.
  pose proof (fold_block_range
                (MD5.blocks (List.length (MD5.pad (PyStr.encode text)))
                            (MD5.words (List.length (MD5.pad (PyStr.encode text)))
                                       (MD5.pad (PyStr.encode text))))
                MD5.init) as H.
  cbv zeta.
  destruct (fold_left MD5.block _ MD5.init) as (((a, b), c), d).
  apply H. unfold MD5.init. split; split; reflexivity || discriminate.
Qed.

Lemma key_space_spec : Z.of_nat key_space = 2 ^ 64.
Proof. unfold key_space. apply Z2Nat.id. apply Z.pow_nonneg. lia. Qed.

Lemma key_code_bound text : (key_code text < key_space)%nat.
Proof.
  pose proof key_space_spec as Hs.
  pose proof (key_words_range text) as Hr.
  unfold key_code. destruct (key_words text) as (a, b). cbn [fst snd] in Hr.
  change (2 ^ 32) with 4294967296 in *.
  change (2 ^ 64) with 18446744073709551616 in Hs.
  lia.
Qed.

Lemma key_code_hash text text' :
  key_code text = key_code text' -> _hash text = _hash text'.
Proof.
  intros H. rewrite !hash_by_words.
  pose proof (key_words_range text) as Hr.
  pose proof (key_words_range text') as Hr'.
  unfold key_code in H.
  destruct (key_words text) as (a, b), (key_words text') as (a', b').
  cbn [fst snd] in *. change (2 ^ 32) with 4294967296 in *.
  assert (a = a' /\ b = b') as (-> & ->) by lia.
  reflexivity.
Qed.

(** More items than values: two of them share a value. *)
Lemma shared_value (g : nat -> nat) (l : list nat) :
  NoDup l ->
  NoDup (map g l)
  \/ exists x y, In x l /\ In y l /\ x <> y /\ g x = g y.
Proof.
  induction l as [|x l IH]; intros Hnd; [left; constructor|].
  apply NoDup_cons_iff in Hnd as (Hx & Hnd).
  destruct (IH Hnd) as [Hm|(y & z & Hy & Hz & Hne & He)].
  - destruct (in_dec Nat.eq_dec (g x) (map g l)) as [Hin|Hnin].
    + right. apply in_map_iff in Hin as (y & Hy & Hin).
      exists x, y. repeat split; [now left | now right | | now symmetry].
      intros ->. contradiction.
    + left. simpl. now constructor.
  - right. exists y, z. repeat split; [now right | now right | exact Hne | exact He].
Qed.

Lemma pigeonhole (g : nat -> nat) (n : nat) :
  (forall i, (g i < n)%nat) ->
  exists i j, i <> j /\ g i = g j.
Proof.
  intros Hg.
  destruct (shared_value g (seq 0 (S n)) (seq_NoDup _ _))
    as [Hnd|(x & y & _ & _ & Hne & He)]; [|eauto].
  exfalso.
  assert (Hincl : incl (map g (seq 0 (S n))) (seq 0 n)).
  { intros v Hv. apply in_map_iff in Hv as (i & <- & _).
    apply in_seq. specialize (Hg i). lia. }
  pose proof (NoDup_incl_length Hnd Hincl) as Hlen.
  rewrite length_map, !length_seq in Hlen. lia.
Qed.

Lemma no_space_rstrip s : no_space s = true -> PyStr.rstrip s = s.
Proof.
  unfold no_space. induction s as [|c s IH]; [reflexivity|].
  cbn [list_ascii_of_string forallb PyStr.rstrip].
  intros H. apply andb_true_iff in H as (Hc & Hs).
  rewrite (IH Hs). apply negb_true_iff in Hc. rewrite Hc.
  destruct s; reflexivity.
Qed.

Lemma no_space_strip s : no_space s = true -> PyStr.strip s = s.
Proof.
  intros H. unfold PyStr.strip.
  assert (Hl : PyStr.lstrip s = s).
  { destruct s as [|c s]; [reflexivity|].
    unfold no_space in H. cbn [list_ascii_of_string forallb] in H.
    apply andb_true_iff in H as (Hc & _). apply negb_true_iff in Hc.
    cbn [PyStr.lstrip]. now rewrite Hc. }
  rewrite Hl. now apply no_space_rstrip.
Qed.

Lemma no_space_app s t : no_space (s ++ t) = no_space s && no_space t.
Proof.
  unfold no_space. induction s as [|c s IH]; [reflexivity|].
  cbn [append list_ascii_of_string forallb]. now rewrite IH, andb_assoc.
Qed.

Lemma no_space_digits d : no_space (NilEmpty.string_of_uint d) = true.
Proof.
  unfold no_space. induction d; cbn [NilEmpty.string_of_uint list_ascii_of_string forallb];
    [reflexivity | rewrite IHd; reflexivity ..].
Qed.

Lemma append_inv_head s t t' : s ++ t = s ++ t' -> t = t'.
Proof.
  induction s as [|c s IH]; [auto|].
  cbn [append]. intros H. injection H as H. auto.
Qed.

Lemma long_text_length : String.length (long_text "") = 2000%nat.
Proof. vm_compute. reflexivity. Qed.

Lemma long_text_no_space : no_space (long_text "") = true.
Proof. vm_compute. reflexivity. Qed.

Lemma long_text_app t : long_text t = long_text "" ++ t.
Proof.
  unfold long_text.
  generalize (String.concat "" (repeat "a" 2000)) as base.
  induction base as [|c base IH]; [reflexivity|].
  cbn [append]. now rewrite <- IH.
Qed.

Lemma numbered_text_strip i : PyStr.strip (numbered_text i) = numbered_text i.
Proof.
  apply no_space_strip. unfold numbered_text.
  rewrite long_text_app, !no_space_app, long_text_no_space, no_space_digits.
  reflexivity.
Qed.

Lemma numbered_text_take i : PyStr.take 2000 (numbered_text i) = long_text "".
Proof.
  unfold numbered_text. rewrite long_text_app.
  apply PyStrFacts.take_app. apply long_text_length.
Qed.

Lemma numbered_text_inj i j : numbered_text i = numbered_text j -> i = j.
Proof.
  unfold numbered_text. rewrite !(long_text_app (_ ++ _)).
  intros H. apply append_inv_head in H.
  cbn [append] in H. injection H as H.
  apply DecimalNat.Unsigned.to_uint_inj.
  pose proof (NilEmpty.usu (Nat.to_uint i)) as Hi.
  pose proof (NilEmpty.usu (Nat.to_uint j)) as Hj.
  rewrite H in Hi. congruence.
Qed.

Lemma numbered_text_nonempty i : numbered_text i <> "".
Proof.
  intros H. pose proof (numbered_text_take i) as Ht. rewrite H in Ht.
  apply (f_equal String.length) in Ht. rewrite long_text_length in Ht.
  discriminate.
Qed.

(** Two texts that agree on their first 2000 characters, differ after
    them, and have the same key. *)
Lemma colliding_long_texts :
  exists d1 d2,
    PyStr.take 2000 (PyStr.strip d1) = PyStr.take 2000 (PyStr.strip d2)
    /\ PyStr.strip d1 <> PyStr.strip d2
    /\ PyStr.strip d1 <> "" /\ PyStr.strip d2 <> ""
    /\ key_of d1 = key_of d2.
Proof.
  destruct (pigeonhole (fun i => key_code (numbered_text i)) key_space
                       (fun i => key_code_bound _)) as (i & j & Hne & He).
  exists (numbered_text i), (numbered_text j).
  unfold key_of. rewrite !numbered_text_strip, !numbered_text_take.
  split; [reflexivity|].
  split; [intros H; apply Hne; now apply numbered_text_inj|].
  split; [apply numbered_text_nonempty|].
  split; [apply numbered_text_nonempty|].
  now apply key_code_hash.
Qed.

(** C9 as stated fails. There are two texts that agree on their first
    2000 characters and differ after them whose keys are equal: once
    [classify] has stored the pair of the first, [classify] on the second
    is served from that entry and makes no call to the model. And with a
    retry budget of zero no description incurs a call at all. *)
Lemma colliding_keys_share_entry :
  (exists d1 d2 v st1 st2,
      PyStr.take 2000 (PyStr.strip d1) = PyStr.take 2000 (PyStr.strip d2)
      /\ PyStr.strip d1 <> PyStr.strip d2
      /\ key_of d1 = key_of d2
      /\ classify Json.loads (always good_answer) d1 (fresh default_classifier)
         = (inr v, st1)
      /\ classify Json.loads (always good_answer) d2 st1 = (inr v, st2)
      /\ calls (trace st1) = 1%nat
      /\ calls (trace st2) = 1%nat)
  /\ (let r := classify Json.loads (always good_answer) (long_text "b")
                        (fresh (new_classifier 0 50)) in
      is_ok (fst r) = false /\ calls (trace (snd r)) = 0%nat).
Proof.
  split; [|vm_compute; split; reflexivity].
  destruct colliding_long_texts as (d1 & d2 & Htake & Hdiff & Hne1 & Hne2 & Hkey).
  set (v := (JString "Has Very Good Grammar + Demonstrates Very Good Understanding + Has Clear Visual Clarity",
             JString "Product Description + Prototype Status + Unique Value Statement")).
  set (st0 := emit (EvCall AsyncGroq (request_of default_classifier d1))
                   (fresh default_classifier)).
  assert (H1 : classify Json.loads (always good_answer) d1 (fresh default_classifier)
               = (inr v, stored (key_of d1) v st0)).
  { apply classify_first_answer; [exact Hne1 | reflexivity | reflexivity |].
    vm_compute. reflexivity. }
  assert (Hst1 : forall k,
             cache (stored k v st0) = [(k, v)]
             /\ trace (stored k v st0)
                = [EvCall AsyncGroq (request_of default_classifier d1); EvLogAdded k]).
  { intros k. destruct (stored_cases k v st0) as [(_ & Hd & Ht)|(Hgt & _)].
    - split; [exact Hd | exact Ht].
    - exfalso. revert Hgt. unfold OD.len. cbn. lia. }
  destruct (Hst1 (key_of d1)) as (Hc1 & Ht1).
  exists d1, d2, v, (stored (key_of d1) v st0),
         (promoted (key_of d2) v (stored (key_of d1) v st0)).
  split; [exact Htake|]. split; [exact Hdiff|]. split; [exact Hkey|].
  split; [exact H1|]. split.
  - apply classify_hit; [exact Hne2|].
    rewrite Hc1, <- Hkey. cbn [OD.get]. now rewrite String.eqb_refl.
  - split.
    + rewrite Ht1. reflexivity.
    + rewrite promoted_trace, Ht1. reflexivity.
Qed.

(* ------------------------------------------------------------------ *)
(** ** The shape of a cache key *)

Lemma hex_digit_is_hex n : 0 <= n < 16 -> is_hex_digit (MD5.hex_digit n) = true.
Proof.
  intros H.
  assert (Hall : forallb (fun k => is_hex_digit (MD5.hex_digit (Z.of_nat k)))
                         (seq 0 16) = true) by reflexivity.
  rewrite forallb_forall in Hall.
  rewrite <- (Z2Nat.id n) by lia.
  apply Hall. apply in_seq. lia.
Qed.

Lemma hex_byte_is_hex b :
  forallb is_hex_digit (list_ascii_of_string (MD5.hex_byte (Z.land b 255))) = true.
Proof.
  assert (Hb : 0 <= Z.land b 255 < 256).
  { change 255 with (Z.ones 8). rewrite Z.land_ones by lia.
    apply Z.mod_pos_bound. lia. }
  unfold MD5.hex_byte. cbn [list_ascii_of_string forallb].
  rewrite !hex_digit_is_hex; [reflexivity| |].
  - change 15 with (Z.ones 4). rewrite Z.land_ones by lia.
    apply Z.mod_pos_bound. lia.
  - rewrite Z.shiftr_div_pow2 by lia. change (2 ^ 4) with 16.
    split; [apply Z.div_pos; lia | apply Z.div_lt_upper_bound; lia].
Qed.

Lemma list_ascii_app s t :
  list_ascii_of_string (s ++ t)
  = (list_ascii_of_string s ++ list_ascii_of_string t)%list.
Proof. induction s as [|c s IH]; simpl; [reflexivity | now rewrite IH]. Qed.

Lemma string_length_app s t :
  String.length (s ++ t) = (String.length s + String.length t)%nat.
Proof. induction s as [|c s IH]; simpl; [reflexivity | now rewrite IH]. Qed.

Lemma hex_word_is_hex x :
  String.length (hex_word x) = 8%nat
  /\ forallb is_hex_digit (list_ascii_of_string (hex_word x)) = true.
Proof.
  unfold hex_word. cbn [MD5.le_bytes map String.concat].
  split; [reflexivity|].
  rewrite !list_ascii_app, !forallb_app, !hex_byte_is_hex. reflexivity.
Qed.

(** X1. Whatever the text, its cache key has exactly sixteen characters,
    each of them one of [0123456789abcdef]. *)
Theorem hash_is_sixteen_hex_digits :
  forall text,
    String.length (_hash text) = 16%nat
    /\ forallb is_hex_digit (list_ascii_of_string (_hash text)) = true.
Proof.
  intros text. rewrite hash_by_words.
  destruct (hex_word_is_hex (fst (key_words text))) as [La Ha].
  destruct (hex_word_is_hex (snd (key_words text))) as [Lb Hb].
  split.
  - rewrite string_length_app, La, Lb. reflexivity.
  - rewrite list_ascii_app, forallb_app, Ha, Hb. reflexivity.
Qed.

(* ------------------------------------------------------------------ *)
(** ** Surrounding whitespace *)

Lemma all_space_app s t :
  PyStr.all_space (s ++ t) = PyStr.all_space s && PyStr.all_space t.
Proof.
  unfold PyStr.all_space. rewrite list_ascii_app. apply forallb_app.
Qed.

Lemma lstrip_app_space ws s :
  PyStr.all_space ws = true -> PyStr.lstrip (ws ++ s) = PyStr.lstrip s.
Proof.
  induction ws as [|c ws IH]; intros H; [reflexivity|].
  unfold PyStr.all_space in H. simpl in H.
  apply andb_true_iff in H. destruct H as [Hc Hws].
  simpl. rewrite Hc. apply IH. exact Hws.
Qed.

Lemma rstrip_all_space s : PyStr.all_space s = true -> PyStr.rstrip s = "".
Proof.
  induction s as [|c s IH]; intros H; [reflexivity|].
  unfold PyStr.all_space in H. simpl in H.
  apply andb_true_iff in H. destruct H as [Hc Hs].
  simpl. rewrite (IH Hs), Hc. reflexivity.
Qed.

Lemma rstrip_app_space s ws :
  PyStr.all_space ws = true -> PyStr.rstrip (s ++ ws) = PyStr.rstrip s.
Proof.
  intros H. induction s as [|c s IH].
  - simpl. apply rstrip_all_space. exact H.
  - simpl. rewrite IH. reflexivity.
Qed.

Lemma lstrip_app_nonspace s t :
  PyStr.all_space s = false -> PyStr.lstrip (s ++ t) = PyStr.lstrip s ++ t.
Proof.
  induction s as [|c s IH]; intros H; [discriminate|].
  unfold PyStr.all_space in H. simpl in H. simpl.
  destruct (PyStr.isspace c); [|reflexivity].
  apply IH. exact H.
Qed.

(** [strip] removes the whitespace around a text and nothing else. *)
Lemma strip_surrounded before d after :
  PyStr.all_space before = true -> PyStr.all_space after = true ->
  PyStr.strip (before ++ d ++ after) = PyStr.strip d.
Proof.
  intros Hb Ha. unfold PyStr.strip. rewrite (lstrip_app_space _ _ Hb).
  destruct (PyStr.all_space d) eqn:Hd.
  - rewrite (PyStrFacts.lstrip_all_space d Hd).
    rewrite PyStrFacts.lstrip_all_space; [reflexivity|].
    rewrite all_space_app, Hd, Ha. reflexivity.
  - rewrite (lstrip_app_nonspace _ _ Hd). apply rstrip_app_space. exact Ha.
Qed.

(** X2. Whitespace around a description does not count: [classify] and
    [classify_sync] do on [before ++ d ++ after], with [before] and
    [after] made of whitespace only, exactly what they do on [d]; the same
    key, the same prompt, the same result and the same final state. *)
Theorem classify_ignores_surrounding_whitespace :
  forall json_loads chat before d after st,
    PyStr.all_space before = true ->
    PyStr.all_space after = true ->
    key_of (before ++ d ++ after) = key_of d
    /\ prompt_of (before ++ d ++ after) = prompt_of d
    /\ classify json_loads chat (before ++ d ++ after) st
       = classify json_loads chat d st
    /\ classify_sync json_loads chat (before ++ d ++ after) st
       = classify_sync json_loads chat d st.
Proof.
  intros json_loads chat before d after st Hb Ha.
  pose proof (strip_surrounded before d after Hb Ha) as Hs.
  unfold key_of, prompt_of, classify, classify_sync. rewrite Hs.
  repeat split; reflexivity.
Qed.

Lemma classify_ignores_surrounding_whitespace_witness :
  classify Json.loads (always good_answer)
           ("  " ++ "a robot" ++ nl) (fresh default_classifier)
  = classify Json.loads (always good_answer) "a robot" (fresh default_classifier).
Proof.
  apply (classify_ignores_surrounding_whitespace
           Json.loads (always good_answer) "  " "a robot" nl
           (fresh default_classifier)); reflexivity.
Defined.

(* ------------------------------------------------------------------ *)
(** ** Calls, sleeps and errors of one call, whatever the model does *)

Lemma slept_seconds_app tr tr' :
  slept_seconds (tr ++ tr') = slept_seconds tr + slept_seconds tr'.
Proof.
  induction tr as [|e tr IH]; [reflexivity|].
  destruct e; simpl; rewrite IH; lia.
Qed.

Lemma stored_calls key v st :
  calls (trace (stored key v st)) = calls (trace st)
  /\ slept_seconds (trace (stored key v st)) = slept_seconds (trace st).
Proof.
  destruct (stored_cases key v st) as [(_ & _ & Ht) | (_ & k & w & _ & Ht)];
    rewrite Ht, calls_app, slept_seconds_app; unfold calls; simpl; lia.
Qed.

Lemma stored_self_config key v st :
  model_name (self (stored key v st)) = model_name (self st)
  /\ max_retries (self (stored key v st)) = max_retries (self st)
  /\ _cache_size (self (stored key v st)) = _cache_size (self st).
Proof.
  pose proof (stored_config key v st) as H. unfold config in H.
  injection H as H1 H2 H3. auto.
Qed.

Section CostFacts.

Variable json_loads : string -> result json.
Variable chat : nat -> client -> request -> api_result.

Lemma loop_cost_gen (c : client)
      (loop : list Z -> string -> string -> option exn -> state
              -> result categories * state) :
  (forall prompt key last st,
      loop [] prompt key last st
      = (inl (failed_after (max_retries (self st)) last), st)) ->
  (forall a rest prompt key last st,
      loop (a :: rest) prompt key last st
      = let q := Request (model_name (self st)) (user_message prompt) in
        match answer json_loads (chat (calls (trace st)) c q) with
        | inr v => (inr v, stored key v (emit (EvCall c q) st))
        | inl e =>
            loop rest prompt key (Some e)
                 (mkState (self st)
                          (trace st ++ failed_attempt c q a (max_retries (self st)) e))
        end) ->
  forall attempts prompt key last st res st',
    loop attempts prompt key last st = (res, st') ->
    loop_cost (List.length attempts) st res st'.
Proof.
  intros Hnil Hcons attempts prompt key.
  induction attempts as [|a rest IH]; intros last st res st' H.
  - rewrite Hnil in H. injection H as <- <-.
    exists 0%nat. repeat split; try lia. now exists last.
  - rewrite Hcons in H. cbv zeta in H.
    destruct (answer json_loads _) as [e|v] eqn:Ea.
    + apply IH in H. destruct H as (made & Hc & Hle & Hres).
      cbn [trace self] in *.
      assert (Hs : slept_seconds
                     (trace st ++ failed_attempt c
                        (Request (model_name (self st)) (user_message prompt))
                        a (max_retries (self st)) e)
                   = slept_seconds (trace st) + 1).
      { rewrite slept_seconds_app. destruct c; simpl; lia. }
      rewrite calls_app, calls_failed_attempt in Hc.
      exists (S made). split; [lia|]. split; [simpl; lia|].
      destruct res as [e'|v'].
      * destruct Hres as (Hm & Hsl & Hself & Hlast).
        rewrite Hs in Hsl. repeat split; [simpl; lia | lia | exact Hself | exact Hlast].
      * destruct Hres as (Hm & Hsl). rewrite Hs in Hsl. split; lia.
    + injection H as <- <-.
      set (st1 := emit (EvCall c (Request (model_name (self st)) (user_message prompt))) st).
      destruct (stored_calls key v st1) as [Hc Hs].
      assert (Ht : trace st1
                   = (trace st ++ [EvCall c (Request (model_name (self st))
                                                     (user_message prompt))])%list)
        by reflexivity.
      rewrite Ht, calls_app in Hc. rewrite Ht, slept_seconds_app in Hs.
      change (calls [EvCall c (Request (model_name (self st)) (user_message prompt))])
        with 1%nat in Hc.
      simpl in Hs.
      exists 1%nat. repeat split; simpl; lia.
Qed.

Lemma classify_loop_cost attempts prompt key last st res st' :
  classify_loop json_loads chat attempts prompt key last st = (res, st') ->
  loop_cost (List.length attempts) st res st'.
Proof.
  apply (loop_cost_gen AsyncGroq (classify_loop json_loads chat)).
  - reflexivity.
  - intros. apply classify_loop_cons.
Qed.

Lemma classify_sync_loop_cost attempts prompt key last st res st' :
  classify_sync_loop json_loads chat attempts prompt key last st = (res, st') ->
  loop_cost (List.length attempts) st res st'.
Proof.
  apply (loop_cost_gen Groq (classify_sync_loop json_loads chat)).
  - reflexivity.
  - intros. apply classify_sync_loop_cons.
Qed.

(** The three ways through a call, with the loop still to run. *)
Lemma run_op_cases o st :
  (PyStr.strip (op_text o) = ""
   /\ run_op json_loads chat o st
      = (inl (Exn ClassificationError "Description cannot be empty."), st))
  \/ (exists v,
         PyStr.strip (op_text o) <> ""
         /\ OD.get (key_of (op_text o)) (cache st) = Some v
         /\ run_op json_loads chat o st
            = (inr v, promoted (key_of (op_text o)) v st))
  \/ (PyStr.strip (op_text o) <> ""
      /\ OD.contains (key_of (op_text o)) (cache st) = false
      /\ forall res st',
          run_op json_loads chat o st = (res, st') ->
          loop_cost (Z.to_nat (max_retries (self st))) st res st').
Proof.
  destruct (string_dec (PyStr.strip (op_text o)) "") as [Hb|Hne].
  - left. split; [exact Hb|].
    destruct o as [d|d]; simpl in *;
      [apply classify_blank | apply classify_sync_blank]; exact Hb.
  - right.
    destruct (OD.get (key_of (op_text o)) (cache st)) as [v|] eqn:Eg.
    + left. exists v. repeat split; try assumption.
      destruct o as [d|d]; simpl in *;
        [apply classify_hit | apply classify_sync_hit]; assumption.
    + right. apply ODFacts.get_none in Eg.
      repeat split; try assumption.
      intros res st' H. rewrite <- py_range_attempts.
      destruct o as [d|d]; simpl in *.
      * rewrite (classify_miss _ _ _ _ Hne Eg) in H.
        now apply classify_loop_cost in H.
      * rewrite (classify_sync_miss _ _ _ _ Hne Eg) in H.
        now apply classify_sync_loop_cost in H.
Qed.

End CostFacts.

Lemma promoted_calls k v st :
  calls (trace (promoted k v st)) = calls (trace st)
  /\ slept_seconds (trace (promoted k v st)) = slept_seconds (trace st).
Proof.
  unfold promoted, emit. cbn [trace set_cache].
  rewrite calls_app, slept_seconds_app. unfold calls. simpl. lia.
Qed.

(** X3. Whatever the model answers, one call of [classify] or
    [classify_sync] makes at most [max_retries] calls to the model (none
    when [max_retries] is not positive) and sleeps one second after each
    call that failed: a call that returns a pair after [n] calls to the
    model has slept [n - 1] seconds, and one that raises has made
    [max_retries] calls and slept as many seconds, the last of them after
    the last attempt, just before raising. *)
Theorem classify_stays_within_retry_budget :
  forall json_loads chat o st res st',
    run_op json_loads chat o st = (res, st') ->
    exists made : nat,
      calls (trace st') = (calls (trace st) + made)%nat
      /\ Z.of_nat made <= Z.max 0 (max_retries (self st))
      /\ slept_seconds (trace st')
         = slept_seconds (trace st)
           + (if is_ok res then Z.max 0 (Z.of_nat made - 1) else Z.of_nat made)
      /\ (is_ok res = false -> PyStr.strip (op_text o) <> "" ->
          Z.of_nat made = Z.max 0 (max_retries (self st))).
Proof.
  intros json_loads chat o st res st' H.
  destruct (run_op_cases json_loads chat o st)
    as [(Hb & E) | [(v & Hne & Hg & E) | (Hne & Hc & Hcost)]].
  - rewrite E in H. injection H as <- <-.
    exists 0%nat. cbn [is_ok]. split; [lia|]. split; [lia|]. split; [lia|].
    intros _ Hne. contradiction.
  - rewrite E in H. injection H as <- <-.
    destruct (promoted_calls (key_of (op_text o)) v st) as [Hcl Hsl].
    exists 0%nat. cbn [is_ok]. split; [lia|]. split; [lia|]. split; [lia|].
    discriminate.
  - destruct (Hcost res st' H) as (made & Hcl & Hle & Hres).
    exists made. split; [exact Hcl|]. split; [lia|].
    destruct res as [e|v]; simpl.
    + destruct Hres as (Hm & Hsl & _). split; [lia|]. intros _ _. lia.
    + destruct Hres as (Hm & Hsl). split; [lia|]. discriminate.
Qed.

Lemma classify_stays_within_retry_budget_witness :
  exists made : nat,
    calls (trace (snd (classify Json.loads (always malformed_answer) bottle
                                (fresh default_classifier))))
    = (0 + made)%nat
    /\ Z.of_nat made <= 2.
Proof.
  destruct (classify_stays_within_retry_budget
              Json.loads (always malformed_answer) (Classify bottle)
              (fresh default_classifier) _ _ (surjective_pairing _))
    as (made & Hc & Hle & _).
  exists made. split; [exact Hc | exact Hle].
Defined.

(** X5. With [max_retries] zero or negative the loop body never runs: on
    a description that is neither blank nor cached, [classify] and
    [classify_sync] raise at once, without any call to the model and
    without sleeping, and the message reports [None] as the last
    error. *)
Theorem classify_without_retry_budget :
  forall json_loads chat o st,
    max_retries (self st) <= 0 ->
    PyStr.strip (op_text o) <> "" ->
    OD.contains (key_of (op_text o)) (cache st) = false ->
    run_op json_loads chat o st
    = (inl (Exn ClassificationError
                ("Classification failed after " ++ str_int (max_retries (self st))
                   ++ " attempts: None")), st).
Proof.
  intros json_loads chat o st Hm Hne Hc.
  assert (Hr : py_range 1 (max_retries (self st) + 1) = []).
  { unfold py_range. replace (Z.to_nat (max_retries (self st) + 1 - 1)) with 0%nat by lia.
    reflexivity. }
  destruct o as [d|d]; simpl in *.
  - rewrite (classify_miss _ _ _ _ Hne Hc), Hr. reflexivity.
  - rewrite (classify_sync_miss _ _ _ _ Hne Hc), Hr. reflexivity.
Qed.

Lemma classify_without_retry_budget_witness :
  classify Json.loads (always good_answer) bottle (fresh (new_classifier 0 50))
  = (inl (Exn ClassificationError "Classification failed after 0 attempts: None"),
     fresh (new_classifier 0 50)).
Proof.
  apply (classify_without_retry_budget
           Json.loads (always good_answer) (Classify bottle)
           (fresh (new_classifier 0 50))).
  - simpl. lia.
  - vm_compute. discriminate.
  - reflexivity.
Defined.

(* ------------------------------------------------------------------ *)
(** ** The size of the cache *)

Lemma keys_set_cases k (v : categories) d :
  OD.keys (OD.set k v d)
  = if OD.contains k d then OD.keys d else (OD.keys d ++ [k])%list.
Proof.
  induction d as [|(k', v') d IH]; [reflexivity|].
  unfold OD.contains in *. simpl.
  destruct (String.eqb_spec k k') as [->|Hne]; simpl; [reflexivity|].
  unfold OD.keys in *. rewrite IH.
  destruct (existsb _ d); reflexivity.
Qed.

Lemma len_keys (d : OD.t categories) : OD.len d = Z.of_nat (List.length (OD.keys d)).
Proof. unfold OD.len, OD.keys. now rewrite length_map. Qed.

Lemma len_set k (v : categories) d : OD.len (OD.set k v d) <= OD.len d + 1.
Proof.
  rewrite !len_keys, keys_set_cases.
  destruct (OD.contains k d); [lia|]. rewrite length_app. simpl. lia.
Qed.

Lemma nodup_set k (v : categories) d :
  NoDup (OD.keys d) -> NoDup (OD.keys (OD.set k v d)).
Proof.
  intros H. rewrite keys_set_cases.
  destruct (OD.contains k d) eqn:Hc; [exact H|].
  apply ODFacts.contains_false in Hc.
  apply NoDup_app; [exact H | repeat constructor; intros [] |].
  intros x Hx [<-|[]]. contradiction.
Qed.

Lemma stored_within_capacity key v st :
  within_capacity st -> within_capacity (stored key v st).
Proof.
  intros [Hl Hn]. unfold within_capacity.
  destruct (stored_self_config key v st) as (_ & _ & ->).
  pose proof (len_set key v (cache st)) as Hs.
  pose proof (nodup_set key v (cache st) Hn) as Hn1.
  destruct (stored_cases key v st)
    as [(Hle & -> & _) | (Hgt & k & w & Hd & _)].
  - split; [lia | exact Hn1].
  - cbv zeta in Hd. rewrite Hd in Hs, Hn1.
    unfold OD.len in *. simpl in Hs, Hn1.
    split; [lia|]. now inversion Hn1.
Qed.

Lemma filter_shorter (k : string) (l : list string) :
  In k l ->
  (List.length (filter (fun k' => negb (String.eqb k k')) l) < List.length l)%nat.
Proof.
  induction l as [|x l IH]; intros Hin; [destruct Hin|].
  simpl. destruct (String.eqb_spec k x) as [->|Hne]; simpl.
  - pose proof (filter_length_le (fun k' => negb (String.eqb x k')) l). lia.
  - destruct Hin as [->|Hin]; [contradiction|]. specialize (IH Hin). lia.
Qed.

Lemma promoted_within_capacity k v st :
  OD.get k (cache st) = Some v ->
  within_capacity st -> within_capacity (promoted k v st).
Proof.
  intros Hg [Hl Hn]. unfold within_capacity.
  rewrite promoted_cache.
  change (self (promoted k v st)) with
    (mkClassifier (model_name (self st)) (max_retries (self st))
                  (OD.remove k (cache st) ++ [(k, v)])%list (_cache_size (self st))).
  cbn [_cache_size].
  assert (Hin : In k (OD.keys (cache st))).
  { apply ODFacts.contains_In, ODFacts.contains_get. eauto. }
  rewrite len_keys in *. rewrite ODFacts.keys_app, ODFacts.keys_remove.
  pose proof (filter_shorter k _ Hin) as Hf.
  split.
  - rewrite length_app. simpl. lia.
  - apply NoDup_app; [now apply NoDup_filter | repeat constructor; intros [] |].
    intros x Hx [<-|[]]. apply filter_In in Hx. destruct Hx as [_ Hx].
    rewrite String.eqb_refl in Hx. discriminate.
Qed.

Lemma attempts_only_within_capacity st stk :
  attempts_only st stk -> within_capacity st -> within_capacity stk.
Proof.
  intros Ha [Hl Hn]. unfold within_capacity.
  rewrite (attempts_only_cache _ _ Ha). destruct Ha as (-> & _). auto.
Qed.

Section SizeFacts.

Variable json_loads : string -> result json.
Variable chat : nat -> client -> request -> api_result.

Lemma call_within_capacity o st res st' :
  call_outcome json_loads chat o st res st' ->
  within_capacity st -> within_capacity st'.
Proof.
  intros H Hw. destruct H as [Hb | v Hne Hg | res st' Hne Hc Hl].
  - exact Hw.
  - now apply promoted_within_capacity.
  - destruct res as [e|v].
    + destruct Hl as (Ha & _). eapply attempts_only_within_capacity; eauto.
    + destruct Hl as (stk & Ha & -> & _).
      apply stored_within_capacity.
      eapply attempts_only_within_capacity; eauto.
Qed.

Lemma run_ops_within_capacity ops :
  forall st rs st',
    run_ops json_loads chat ops st = (rs, st') ->
    within_capacity st -> within_capacity st'.
Proof.
  induction ops as [|o ops IH]; intros st rs st' H Hw.
  - injection H as <- <-. exact Hw.
  - simpl in H.
    destruct (run_op json_loads chat o st) as [r st1] eqn:E1.
    destruct (run_ops json_loads chat ops st1) as [rs' st2] eqn:E2.
    injection H as <- <-.
    apply (IH _ _ _ E2).
    apply (call_within_capacity o st r st1); [|exact Hw].
    now apply run_op_outcome.
Qed.

Lemma run_ops_config ops :
  forall st rs st',
    run_ops json_loads chat ops st = (rs, st') ->
    config (self st') = config (self st).
Proof.
  induction ops as [|o ops IH]; intros st rs st' H.
  - injection H as <- <-. reflexivity.
  - simpl in H.
    destruct (run_op json_loads chat o st) as [r st1] eqn:E1.
    destruct (run_ops json_loads chat ops st1) as [rs' st2] eqn:E2.
    injection H as <- <-.
    rewrite (IH _ _ _ E2).
    apply (call_config json_loads chat o st r st1).
    now apply run_op_outcome.
Qed.

End SizeFacts.

Lemma fresh_within_capacity c : _cache c = [] -> within_capacity (fresh c).
Proof.
  intros H. unfold within_capacity, cache, fresh. cbn [self]. rewrite H.
  split; [unfold OD.len; simpl; lia | constructor].
Qed.

(** X6. The cache never outgrows its capacity. A new classifier holds an
    empty cache, and calls of [classify] and [classify_sync], whatever
    they are and however they end, keep the cache within
    [max(0, cache_size)] entries, with no key twice; they never change
    the model name, the retry budget or the capacity. *)
Theorem cache_never_exceeds_capacity :
  forall json_loads chat ops st rs st',
    within_capacity st ->
    run_ops json_loads chat ops st = (rs, st') ->
    OD.len (cache st') <= Z.max 0 (_cache_size (self st))
    /\ NoDup (OD.keys (cache st'))
    /\ config (self st') = config (self st)
    /\ forall retries capacity,
        within_capacity (fresh (new_classifier retries capacity)).
Proof.
  intros json_loads chat ops st rs st' Hw H.
  pose proof (run_ops_within_capacity json_loads chat ops st rs st' H Hw) as [Hl Hn].
  pose proof (run_ops_config json_loads chat ops st rs st' H) as Hc.
  assert (Hsz : _cache_size (self st') = _cache_size (self st)).
  { unfold config in Hc. now injection Hc. }
  rewrite Hsz in Hl. repeat split; try assumption.
  - now apply fresh_within_capacity.
  - now apply fresh_within_capacity.
Qed.

Lemma cache_never_exceeds_capacity_witness :
  OD.len (cache (snd (run_ops Json.loads (stubbed_by robot_stub)
                             (classify_each sample_batch)
                             (fresh (new_classifier 2 1)))))
  <= Z.max 0 1
  /\ NoDup (OD.keys (cache (snd (run_ops Json.loads (stubbed_by robot_stub)
                                         (classify_each sample_batch)
                                         (fresh (new_classifier 2 1)))))).
Proof.
  destruct (cache_never_exceeds_capacity
              Json.loads (stubbed_by robot_stub) (classify_each sample_batch)
              (fresh (new_classifier 2 1)) _ _
              (fresh_within_capacity (new_classifier 2 1) eq_refl)
              (surjective_pairing _))
    as (Hl & Hn & _).
  split; [exact Hl | exact Hn].
Defined.

Lemma len_zero_nil (d : OD.t categories) : OD.len d <= 0 -> d = [].
Proof. destruct d; [reflexivity|]. unfold OD.len. simpl. lia. Qed.

(** X7. A capacity of zero, or a negative one, switches the cache off:
    after any calls on a new classifier the cache is empty, so that,
    with a positive retry budget, every call on a description that is
    not blank goes to the model, the repeat of a classified description
    included. *)
Theorem no_capacity_no_cache :
  forall json_loads chat retries capacity ops rs st o res st',
    capacity <= 0 ->
    0 < retries ->
    run_ops json_loads chat ops (fresh (new_classifier retries capacity))
    = (rs, st) ->
    PyStr.strip (op_text o) <> "" ->
    run_op json_loads chat o st = (res, st') ->
    cache st = [] /\ cache st' = []
    /\ (calls (trace st) < calls (trace st'))%nat.
Proof.
  intros json_loads chat retries capacity ops rs st o res st' Hcap Hr Hops Hne H.
  set (st0 := fresh (new_classifier retries capacity)) in *.
  assert (Hw0 : within_capacity st0) by now apply fresh_within_capacity.
  pose proof (run_ops_within_capacity _ _ _ _ _ _ Hops Hw0) as Hw.
  pose proof (run_ops_config _ _ _ _ _ _ Hops) as Hc.
  unfold config in Hc. injection Hc as _ Hret Hsz.
  change (max_retries (self st0)) with retries in Hret.
  change (_cache_size (self st0)) with capacity in Hsz.
  assert (He : cache st = []).
  { apply len_zero_nil. destruct Hw as [Hl _]. rewrite Hsz in Hl. lia. }
  pose proof (call_within_capacity _ _ _ _ _ _ (run_op_outcome _ _ _ _ _ _ H) Hw)
    as [Hl' _].
  pose proof (call_config _ _ _ _ _ _ (run_op_outcome _ _ _ _ _ _ H)) as Hc'.
  unfold config in Hc'. injection Hc' as _ _ Hsz'.
  split; [exact He|]. split; [apply len_zero_nil; lia|].
  destruct (run_op_cases json_loads chat o st)
    as [(Hb & _) | [(v & _ & Hg & _) | (_ & _ & Hcost)]].
  - contradiction.
  - rewrite He in Hg. discriminate.
  - destruct (Hcost _ _ H) as (made & Hcl & _ & Hres).
    destruct res as [e|v].
    + destruct Hres as (-> & _). lia.
    + destruct Hres as (Hm & _). lia.
Qed.

Lemma no_capacity_no_cache_witness :
  (calls (trace (snd (classify Json.loads (always good_answer) bottle
                               (fresh (new_classifier 2 0)))))
   < calls (trace (snd (classify Json.loads (always good_answer) bottle
                          (snd (classify Json.loads (always good_answer) bottle
                                         (fresh (new_classifier 2 0))))))))%nat.
Proof.
  refine (proj2 (proj2 (no_capacity_no_cache
                   Json.loads (always good_answer) 2 0 [Classify bottle] _ _
                   (Classify bottle) _ _ _ _ _ _ _))).
  - lia.
  - lia.
  - vm_compute. reflexivity.
  - vm_compute. discriminate.
  - cbn [run_op]. apply surjective_pairing.
Defined.

Section RepeatFacts.

Variable json_loads : string -> result json.
Variable chat : nat -> client -> request -> api_result.

(** With room for one entry at least, the pair a call returns is in the
    cache when the call ends. *)
Lemma call_caches_its_pair o st v st' :
  1 <= _cache_size (self st) ->
  call_outcome json_loads chat o st (inr v) st' ->
  PyStr.strip (op_text o) <> ""
  /\ OD.get (key_of (op_text o)) (cache st') = Some v.
Proof.
  intros Hcap H. inversion H as [Hb | v' Hne Hg | res st'' Hne Hc Hl]; subst.
  - split; [exact Hne|]. rewrite promoted_get by exact Hg. exact Hg.
  - split; [exact Hne|].
    destruct Hl as (stk & Ha & -> & _).
    pose proof (attempts_only_cache _ _ Ha) as Hck.
    pose proof (attempts_only_config _ _ Ha) as Hcf.
    unfold config in Hcf. injection Hcf as _ _ Hsz.
    destruct (stored_cases (key_of (op_text o)) v stk)
      as [(_ & -> & _) | (Hgt & k & w & Hd & _)].
    + apply ODFacts.get_set_same.
    + cbv zeta in Hd, Hgt. rewrite Hck in Hd, Hgt.
      rewrite (ODFacts.set_new _ _ _ Hc) in Hd, Hgt.
      destruct (cache st) as [|(k0, w0) d] eqn:Ec.
      * unfold OD.len in Hgt. simpl in Hgt. lia.
      * simpl in Hd. injection Hd as _ _ Hd. rewrite <- Hd.
        rewrite ODFacts.get_app.
        assert (Hn : OD.get (key_of (op_text o)) d = None).
        { apply ODFacts.get_none. unfold OD.contains in *. simpl in Hc.
          apply orb_false_iff in Hc. tauto. }
        rewrite Hn. simpl. now rewrite String.eqb_refl.
Qed.

End RepeatFacts.

(** X8. With a capacity of one entry or more, a description that has
    just been classified is served from the cache: the call that follows
    a successful call on the same text, by either method and whatever the
    first call evicted, returns the same pair without any call to the
    model. *)
Theorem repeated_call_is_served_from_cache :
  forall json_loads chat o1 o2 st v st1,
    1 <= _cache_size (self st) ->
    PyStr.strip (op_text o2) = PyStr.strip (op_text o1) ->
    run_op json_loads chat o1 st = (inr v, st1) ->
    run_op json_loads chat o2 st1
    = (inr v, promoted (key_of (op_text o1)) v st1)
    /\ calls (trace (promoted (key_of (op_text o1)) v st1)) = calls (trace st1).
Proof.
  intros json_loads chat o1 o2 st v st1 Hcap Ht H.
  apply run_op_outcome in H.
  destruct (call_caches_its_pair json_loads chat o1 st v st1 Hcap H) as [Hne Hg].
  split; [|apply promoted_calls].
  assert (Hk : key_of (op_text o2) = key_of (op_text o1))
    by (unfold key_of; now rewrite Ht).
  rewrite <- Ht in Hne. rewrite <- Hk in *.
  destruct o2 as [d|d]; simpl in *.
  - now apply classify_hit.
  - now apply classify_sync_hit.
Qed.

Lemma repeated_call_is_served_from_cache_witness :
  fst (classify_sync Json.loads (always good_answer) (" " ++ bottle)
         (snd (classify Json.loads (always good_answer) bottle
                        (fresh (new_classifier 2 1)))))
  = fst (classify Json.loads (always good_answer) bottle
                  (fresh (new_classifier 2 1))).
Proof.
  assert (H : run_op Json.loads (always good_answer) (Classify bottle)
                     (fresh (new_classifier 2 1))
              = (inr (JString "Has Very Good Grammar + Demonstrates Very Good Understanding + Has Clear Visual Clarity",
                      JString "Product Description + Prototype Status + Unique Value Statement"),
                 snd (classify Json.loads (always good_answer) bottle
                               (fresh (new_classifier 2 1)))))
    by (vm_compute; reflexivity).
  assert (Hs : PyStr.strip (op_text (ClassifySync (" " ++ bottle)))
               = PyStr.strip (op_text (Classify bottle)))
    by (vm_compute; reflexivity).
  destruct (repeated_call_is_served_from_cache
              Json.loads (always good_answer) (Classify bottle)
              (ClassifySync (" " ++ bottle)) (fresh (new_classifier 2 1)) _ _
              ltac:(simpl; lia) Hs H)
    as [E _].
  cbn [run_op] in E, H. rewrite E, H. reflexivity.
Defined.

(* ------------------------------------------------------------------ *)
(** ** The batch at its edges *)

Section BatchEdges.

Variable json_loads : string -> result json.
Variable chat : nat -> client -> request -> api_result.

Lemma nth_error_queued ds i t :
  nth_error (map Queued ds) i = Some t -> exists d, t = Queued d.
Proof.
  rewrite nth_error_map. destruct (nth_error ds i) as [d|]; [|discriminate].
  intros H. injection H as <-. now exists d.
Qed.

Lemma no_permit_no_step ds st raised i :
  step_task json_loads chat i (mkBatch st 0 (map Queued ds) raised) = None.
Proof.
  unfold step_task. cbn [tasks permits].
  destruct (nth_error (map Queued ds) i) as [t|] eqn:E; [|reflexivity].
  destruct (nth_error_queued _ _ _ E) as [d ->]. reflexivity.
Qed.

End BatchEdges.

(** X9. A batch created with [max_concurrent=0] never ends: the semaphore
    has no permit to give, so no worker ever enters [classify], nothing
    is sent to the model, and [gather] has neither a list nor an
    exception to deliver, however long the event loop runs. A negative
    [max_concurrent] is refused by the semaphore before any worker
    exists, and an empty batch delivers the empty list at once. *)
Theorem classify_batch_without_permits_hangs :
  forall json_loads chat descriptions st,
    (descriptions <> [] ->
     exists b0,
       classify_batch_start descriptions (Some 0) st = inr b0
       /\ forall b, reachable json_loads chat b0 b ->
                    b = b0 /\ gathered b = None /\ bstate b = st)
    /\ (forall m, m < 0 ->
                  exists e, classify_batch_start descriptions (Some m) st = inl e
                            /\ exn_class_of e = ValueError)
    /\ (forall m b0,
           classify_batch_start [] m st = inr b0 ->
           gathered b0 = Some (inr []) /\ bstate b0 = st
           /\ forall b, reachable json_loads chat b0 b -> b = b0).
Proof.
  intros json_loads chat descriptions st. split; [|split].
  - intros Hne. eexists. split; [reflexivity|].
    assert (Hstuck : forall b,
               reachable json_loads chat
                 (mkBatch st 0 (map Queued descriptions) None) b ->
               b = mkBatch st 0 (map Queued descriptions) None).
    { intros b Hr. induction Hr as [|b b' _ IH Hs]; [reflexivity|].
      subst b. inversion Hs as [i b1 b2 Hi]; subst.
      rewrite no_permit_no_step in Hi. discriminate. }
    intros b Hr. rewrite (Hstuck b Hr). split; [reflexivity|]. split; [|reflexivity].
    destruct descriptions as [|d ds]; [contradiction|]. reflexivity.
  - intros m Hm. unfold classify_batch_start. cbn [concurrency_limit].
    destruct (Z.ltb_spec m 0); [|lia]. eexists. split; reflexivity.
  - intros m b0 H. unfold classify_batch_start in H.
    destruct (_ <? 0); [discriminate|]. injection H as <-.
    split; [reflexivity|]. split; [reflexivity|].
    intros b Hr. induction Hr as [|b b' _ IH Hs]; [reflexivity|].
    subst b. inversion Hs as [i b1 b2 Hi]; subst.
    unfold step_task in Hi. cbn [tasks map] in Hi.
    destruct i; discriminate.
Qed.

Lemma classify_batch_without_permits_hangs_witness :
  exists b0,
    classify_batch_start sample_batch (Some 0) (fresh default_classifier) = inr b0
    /\ forall b, reachable Json.loads (stubbed_by robot_stub) b0 b ->
                 b = b0 /\ gathered b = None /\ bstate b = fresh default_classifier.
Proof.
  apply (classify_batch_without_permits_hangs
           Json.loads (stubbed_by robot_stub) sample_batch (fresh default_classifier)).
  discriminate.
Defined.

(* ------------------------------------------------------------------ *)
(** ** One blank description in a batch *)

Section BatchErrors.

Variable json_loads : string -> result json.
Variable chat : nat -> client -> request -> api_result.

(** The three ways into [classify], as a worker takes them. *)
Lemma enter_cases d st :
  (PyStr.strip d = ""
   /\ enter chat d st
      = (Finished (inl (Exn ClassificationError "Description cannot be empty.")), st))
  \/ (exists v,
         PyStr.strip d <> ""
         /\ OD.get (key_of d) (cache st) = Some v
         /\ enter chat d st = (Finished (inr v), promoted (key_of d) v st))
  \/ (PyStr.strip d <> ""
      /\ OD.contains (key_of d) (cache st) = false
      /\ enter chat d st
         = begin_attempt chat (py_range 1 (max_retries (self st) + 1))
                         (prompt_of d) (key_of d) None st).
Proof.
  unfold enter. fold (key_of d). fold (prompt_of d).
  destruct (String.eqb_spec (PyStr.strip d) "") as [Hb|Hne]; [left; auto|].
  right.
  destruct (OD.contains (key_of d) (cache st)) eqn:Hc; [left|right; auto].
  destruct (ODFacts.move_to_end_spec _ _ Hc) as (v & Hv & Hm & Hg).
  exists v. rewrite Hm. repeat split; try assumption.
  unfold promoted, emit, set_cache, cache in *. simpl. now rewrite Hg.
Qed.

Lemma begin_attempt_error attempts prompt key last st e st' :
  begin_attempt chat attempts prompt key last st = (Finished (inl e), st') ->
  exn_class_of e = ClassificationError.
Proof.
  unfold begin_attempt. destruct attempts; [|discriminate].
  intros H. injection H as <- _. reflexivity.
Qed.

(** A worker ends with no other exception than [ClassificationError]. *)
Lemma task_step_error st t e st' :
  task_step json_loads chat st t (Finished (inl e)) st' ->
  exn_class_of e = ClassificationError.
Proof.
  intros H. inversion H as [d t1 st1 He|t0 t1 st1 Hh Hr]; subst.
  - destruct (enter_cases d st) as [(_ & E) | [(v & _ & _ & E) | (_ & _ & E)]];
      rewrite E in He.
    + injection He as <- _. reflexivity.
    + discriminate.
    + now apply begin_attempt_error in He.
  - destruct t; try discriminate; simpl in Hr.
    + destruct (on_response _ _ _ _) as ([e'|v], st2); discriminate.
    + injection Hr as Hr. now apply begin_attempt_error in Hr.
Qed.

Lemma all_values_some ts :
  forall vs t, all_values ts = Some vs -> In t ts -> exists v, t = Finished (inr v).
Proof.
  induction ts as [|t0 ts IH]; intros vs t H Hin; [destruct Hin|].
  simpl in H. destruct t0 as [| | |[e|v]]; try discriminate.
  destruct (all_values ts) as [vs'|] eqn:E; [|discriminate].
  destruct Hin as [<-|Hin]; [now exists v|]. now apply (IH vs').
Qed.

Lemma step_keeps_blank i b b' :
  step json_loads chat b b' -> blank_at i b -> blank_at i b'.
Proof.
  intros Hs [(t & Hi & Ht) Hr]. inversion Hs as [j b1 b2 Hj]; subst.
  apply step_task_inv in Hj as (tj & tj' & Hnj & Hts & Htasks & _ & _ & Hraised).
  split.
  - rewrite Htasks. destruct (Nat.eq_dec j i) as [->|Hne].
    + exists tj'. split; [eapply nth_error_set_nth_same; eauto|].
      rewrite Hi in Hnj. injection Hnj as <-.
      destruct Ht as [(d & -> & Hb) | (e & ->)].
      * inversion Hts as [d' t1 st1 He|t0 t1 st1 Hh Hres]; subst; [|discriminate].
        destruct (enter_cases d (bstate b)) as [(_ & E) | [(v & Hne & _) | (Hne & _)]];
          try contradiction.
        rewrite E in He. injection He as <- _. right. eauto.
      * inversion Hts; subst; discriminate.
    + exists t. split; [|exact Ht].
      now rewrite nth_error_set_nth_other.
  - intros e He. rewrite Hraised in He. unfold note in He.
    destruct (raised b) as [e0|] eqn:Er; [apply Hr; congruence|].
    destruct tj' as [| | |[e'|v]]; try discriminate.
    injection He as <-. eapply task_step_error; eauto.
Qed.

Lemma reachable_keeps_blank i b0 b :
  reachable json_loads chat b0 b -> blank_at i b0 -> blank_at i b.
Proof.
  intros Hr H0. induction Hr as [|b b' _ IH Hs]; [exact H0|].
  eapply step_keeps_blank; eauto.
Qed.

Lemma blank_never_gathers_list i b :
  blank_at i b -> forall vs, gathered b <> Some (inr vs).
Proof.
  intros [(t & Hi & Ht) _] vs Hg. unfold gathered in Hg.
  destruct (raised b); [discriminate|].
  destruct (all_values (tasks b)) as [vs'|] eqn:Ea; [|discriminate].
  destruct (all_values_some _ _ t Ea) as (v & ->); [eapply nth_error_In; eauto|].
  destruct Ht as [(d & Hd & _) | (e & He)]; discriminate.
Qed.

End BatchErrors.

(** X10. One blank description makes the whole batch fail. However the
    event loop schedules the workers, [gather] never delivers a list of
    results when one of the descriptions is empty or whitespace only,
    whatever the others are; and with at least one permit the batch ends
    with a [ClassificationError] for [gather] to raise. *)
Theorem blank_description_fails_the_batch :
  forall json_loads chat descriptions max_concurrent st b0 i d,
    classify_batch_start descriptions max_concurrent st = inr b0 ->
    nth_error descriptions i = Some d ->
    PyStr.all_space d = true ->
    (forall b vs,
        reachable json_loads chat b0 b -> gathered b <> Some (inr vs))
    /\ (1 <= concurrency_limit max_concurrent ->
        exists e,
          gathered (run_to_end json_loads chat (batch_measure b0) b0)
          = Some (inl e)
          /\ exn_class_of e = ClassificationError).
Proof.
  intros json_loads chat descriptions max_concurrent st b0 i d Hstart Hi Hd.
  unfold classify_batch_start in Hstart.
  destruct (Z.ltb_spec (concurrency_limit max_concurrent) 0) as [|Hlim];
    [discriminate|].
  injection Hstart as <-.
  set (b0 := mkBatch st (concurrency_limit max_concurrent)
                     (map Queued descriptions) None).
  assert (H0 : blank_at i b0).
  { split; [|discriminate].
    exists (Queued d). split.
    - cbn [tasks b0]. now rewrite nth_error_map, Hi.
    - left. exists d. split; [reflexivity|].
      now apply PyStrFacts.strip_empty_iff. }
  split.
  - intros b vs Hr. apply (blank_never_gathers_list i).
    eapply reachable_keeps_blank; eauto.
  - intros Hn.
    set (b := run_to_end json_loads chat (batch_measure b0) b0).
    assert (Hr : reachable json_loads chat b0 b)
      by (apply run_to_end_reachable; constructor).
    assert (Hnf0 : none_failed b0).
    { intros _ e Hin. cbn [tasks b0] in Hin. apply in_map_iff in Hin.
      destruct Hin as (x & Hx & _). discriminate. }
    destruct (reachable_invariants json_loads chat b0 b Hr Hlim Hnf0)
      as (Hsum & _ & _ & _ & Hnf).
    assert (Hfl : in_flight (tasks b0) = 0) by apply in_flight_queued.
    pose proof (reachable_keeps_blank json_loads chat i b0 b Hr H0) as Hb.
    destruct (gathered b) as [[e|vs]|] eqn:Eg.
    + exists e. split; [reflexivity|].
      destruct Hb as [_ He]. apply He.
      unfold gathered in Eg. destruct (raised b) as [e'|]; [congruence|].
      destruct (all_values (tasks b)); discriminate.
    + exfalso. exact (blank_never_gathers_list i b Hb vs Eg).
    + exfalso.
      destruct (step_possible json_loads chat b _ Hsum) as (j & b' & Hj);
        [cbn [permits b0]; lia | exact Hnf | exact Eg |].
      unfold b in Hj. rewrite run_to_end_stuck in Hj by lia. discriminate.
Qed.

Lemma blank_description_fails_the_batch_witness :
  exists e,
    gathered (run_to_end Json.loads (stubbed_by robot_stub)
                (batch_measure (mkBatch (fresh default_classifier)
                                        DEFAULT_MAX_CONCURRENT
                                        (map Queued ["a robot"; "   "]) None))
                (mkBatch (fresh default_classifier) DEFAULT_MAX_CONCURRENT
                         (map Queued ["a robot"; "   "]) None))
    = Some (inl e)
    /\ exn_class_of e = ClassificationError.
Proof.
  refine (proj2 (blank_description_fails_the_batch
                   Json.loads (stubbed_by robot_stub) ["a robot"; "   "] None
                   (fresh default_classifier) _ 1%nat "   " eq_refl eq_refl eq_refl)
                _).
  vm_compute. discriminate.
Defined.

(* ------------------------------------------------------------------ *)
(** ** The first round of the event loop *)

Lemma nth_error_middle {A} (l1 : list A) x l2 :
  nth_error (l1 ++ x :: l2) (List.length l1) = Some x.
Proof. induction l1 as [|y l1 IH]; [reflexivity | exact IH]. Qed.

Lemma set_nth_middle {A} (l1 : list A) x y l2 :
  set_nth (List.length l1) y (l1 ++ x :: l2) = (l1 ++ y :: l2)%list.
Proof.
  induction l1 as [|z l1 IH]; [reflexivity|]. simpl. now rewrite IH.
Qed.

Lemma in_flight_app ts ts' : in_flight (ts ++ ts') = in_flight ts + in_flight ts'.
Proof.
  unfold in_flight. rewrite filter_app, length_app. lia.
Qed.

Section FirstRound.

Variable json_loads : string -> result json.
Variable chat : nat -> client -> request -> api_result.

Lemma first_round ds :
  forall started st p r,
    0 < max_retries (self st) ->
    Z.of_nat (List.length ds) <= p ->
    (forall d, In d ds ->
               PyStr.strip d <> "" /\ OD.contains (key_of d) (cache st) = false) ->
    exists st' begun,
      run_schedule json_loads chat (seq (List.length started) (List.length ds))
                   (mkBatch st p (started ++ map Queued ds) r)
      = mkBatch st' (p - Z.of_nat (List.length ds)) (started ++ begun) r
      /\ self st' = self st
      /\ trace st'
         = (trace st
              ++ map (fun d => EvCall AsyncGroq (request_of (self st) d)) ds)%list
      /\ in_flight begun = Z.of_nat (List.length ds).
Proof.
  induction ds as [|d ds IH]; intros started st p r Hm Hp Hds.
  - exists st, []. cbn [List.length seq run_schedule map].
    rewrite !app_nil_r, Z.sub_0_r. repeat split; reflexivity.
  - cbn [List.length seq run_schedule map]. cbn [List.length] in Hp.
    destruct (Hds d (or_introl eq_refl)) as [Hne Hc].
    unfold step_task. cbn [tasks permits bstate raised].
    rewrite nth_error_middle.
    destruct (Z.ltb_spec 0 p) as [_|]; [|lia].
    destruct (enter_cases chat d st) as [(Hb & _) | [(v & _ & Hg & _) | (_ & _ & E)]].
    + contradiction.
    + apply ODFacts.get_none in Hc. congruence.
    + rewrite E. unfold begin_attempt.
      destruct (py_range 1 (max_retries (self st) + 1)) as [|a rest] eqn:Er.
      { apply (f_equal (@List.length Z)) in Er. rewrite py_range_attempts in Er.
        simpl in Er. lia. }
      unfold create. cbn [holds_permit note].
      rewrite set_nth_middle.
      set (q := Request (model_name (self st)) (user_message (prompt_of d))).
      set (t := AwaitCreate a rest (prompt_of d) (key_of d)
                            (chat (calls (trace st)) AsyncGroq q)).
      set (st1 := emit (EvCall AsyncGroq q) st).
      destruct (IH (started ++ [t])%list st1 (p - 1) r) as (st' & begun & Hrun & Hs & Ht & Hf).
      * exact Hm.
      * lia.
      * intros d' Hd'. apply Hds. now right.
      * rewrite length_app in Hrun. cbn [List.length] in Hrun.
        rewrite Nat.add_1_r, <- app_assoc in Hrun. cbn [app] in Hrun.
        exists st', (t :: begun).
        assert (Hn : note t r = r) by (destruct r; reflexivity).
        rewrite Hn, Hrun. rewrite <- app_assoc. cbn [app].
        repeat split.
        -- f_equal. lia.
        -- exact Hs.
        -- rewrite Ht. unfold st1, emit. cbn [trace self map].
           rewrite <- app_assoc. reflexivity.
        -- rewrite in_flight_cons, Hf. unfold permit, t. cbn [holds_permit]. lia.
Qed.

End FirstRound.

(** X11. The cache does not see requests that are under way. When the
    semaphore has a permit for every worker, the event loop lets each
    worker run to its first [await] in turn, and each one, finding
    nothing under its key, sends its request: [n] descriptions that are
    neither blank nor cached cost [n] calls to the model, all of them
    pending at once, even when the descriptions are identical. *)
Theorem batch_sends_every_description :
  forall json_loads chat descriptions max_concurrent st b0,
    0 < max_retries (self st) ->
    Z.of_nat (List.length descriptions) <= concurrency_limit max_concurrent ->
    (forall d, In d descriptions ->
               PyStr.strip d <> ""
               /\ OD.contains (key_of d) (cache st) = false) ->
    classify_batch_start descriptions max_concurrent st = inr b0 ->
    let b := run_schedule json_loads chat
                          (seq 0 (List.length descriptions)) b0 in
    trace (bstate b)
    = (trace st
         ++ map (fun d => EvCall AsyncGroq (request_of (self st) d))
                descriptions)%list
    /\ in_flight (tasks b) = Z.of_nat (List.length descriptions)
    /\ self (bstate b) = self st.
Proof.
  intros json_loads chat descriptions max_concurrent st b0 Hm Hp Hds Hstart b.
  unfold classify_batch_start in Hstart.
  destruct (_ <? 0); [discriminate|]. injection Hstart as <-.
  destruct (first_round json_loads chat descriptions [] st
              (concurrency_limit max_concurrent) None Hm Hp Hds)
    as (st' & begun & Hrun & Hs & Ht & Hf).
  cbn [List.length app] in Hrun. unfold b. rewrite Hrun.
  cbn [bstate tasks]. auto.
Qed.

Lemma batch_sends_every_description_witness :
  calls (trace (bstate (run_schedule Json.loads (always good_answer)
                          (seq 0 2)
                          (mkBatch (fresh default_classifier)
                                   DEFAULT_MAX_CONCURRENT
                                   (map Queued [bottle; bottle]) None))))
  = 2%nat.
Proof.
  assert (Hd : forall d, In d [bottle; bottle] ->
                         PyStr.strip d <> ""
                         /\ OD.contains (key_of d) (cache (fresh default_classifier))
                            = false).
  { intros d [<-|[<-|[]]]; (split; [vm_compute; discriminate | reflexivity]). }
  destruct (batch_sends_every_description
              Json.loads (always good_answer) [bottle; bottle] None
              (fresh default_classifier) _
              ltac:(vm_compute; reflexivity) ltac:(vm_compute; discriminate)
              Hd eq_refl)
    as (Ht & _).
  cbn [concurrency_limit List.length] in Ht.
  rewrite Ht. reflexivity.
Defined.

(* ------------------------------------------------------------------ *)
(** ** Construction *)

(** X12. The constructor sets up logging before it looks at the key:
    an exception of [logging.basicConfig] leaves the constructor as it
    is, whatever the keys. When logging is set up without an exception,
    the constructor raises [ClassificationError] exactly when neither its
    [api_key] argument nor the environment variable gives a key that is
    not empty. A classifier is built only after both steps: the clients
    get the argument if it is not empty and the environment's key if it
    is, and the classifier starts with an empty cache and with the retry
    budget and the capacity it was given, unchecked: zero and negative
    values are accepted. *)
Theorem init_needs_a_key :
  forall basicConfig env api_key model retries capacity log_level,
    let made :=
      __init__ basicConfig env api_key model retries capacity log_level in
    (forall e, basicConfig log_level = Some e -> made = inl e)
    /\ (basicConfig log_level = None ->
        (no_key api_key /\ no_key env <->
         exists e, made = inl e /\ exn_class_of e = ClassificationError))
    /\ (forall key c,
           made = inr (key, c) ->
           basicConfig log_level = None
           /\ key <> ""
           /\ (no_key api_key -> env = Some key)
           /\ (~ no_key api_key -> api_key = Some key)
           /\ c = mkClassifier model retries [] capacity
           /\ within_capacity (fresh c)).
Proof.
  intros basicConfig env api_key model retries capacity log_level.
  cbv zeta. unfold no_key, __init__, py_or.
  destruct (basicConfig log_level) as [e0|].
  { split; [|split].
    - intros e H. now injection H as ->.
    - discriminate.
    - discriminate. }
  split; [discriminate|]. split; [intros _; split|].
  - intros [[->| ->] [->| ->]]; simpl; eexists; split; reflexivity.
  - intros (e & H & _).
    destruct api_key as [k|]; [destruct (String.eqb_spec k "") as [->|Hk]|].
    + split; [auto|]. destruct env as [k'|]; [|auto].
      destruct (String.eqb_spec k' "") as [->|]; [auto|discriminate].
    + apply String.eqb_neq in Hk. rewrite Hk in H. discriminate.
    + split; [auto|]. destruct env as [k'|]; [|auto].
      destruct (String.eqb_spec k' "") as [->|]; [auto|discriminate].
  - intros key c H. split; [reflexivity|].
    assert (Hfresh : within_capacity (fresh (mkClassifier model retries OD.empty capacity)))
      by now apply fresh_within_capacity.
    destruct api_key as [k|]; [destruct (String.eqb_spec k "") as [->|Hk]|].
    + destruct env as [k'|]; [|discriminate].
      destruct (String.eqb_spec k' "") as [->|Hk']; [discriminate|].
      injection H as <- <-.
      split; [exact Hk'|]. split; [reflexivity|].
      split; [|split; [reflexivity | exact Hfresh]].
      intros Ha. exfalso. apply Ha. auto.
    + pose proof Hk as Hk'. apply String.eqb_neq in Hk'. rewrite Hk' in H.
      injection H as <- <-.
      split; [exact Hk|]. split; [|split; [reflexivity|split; [reflexivity | exact Hfresh]]].
      intros [Ha|Ha]; [discriminate | injection Ha as ->; contradiction].
    + destruct env as [k'|]; [|discriminate].
      destruct (String.eqb_spec k' "") as [->|Hk']; [discriminate|].
      injection H as <- <-.
      split; [exact Hk'|]. split; [reflexivity|].
      split; [|split; [reflexivity | exact Hfresh]].
      intros Ha. exfalso. apply Ha. auto.
Qed.

(* ------------------------------------------------------------------ *)
(** ** [classify_problem_statement]: calls and backoff *)

Lemma usable_key_dec api_key : usable_key api_key \/ ~ usable_key api_key.
Proof.
  destruct api_key as [k|]; [|right; intros (k & H & _); discriminate].
  destruct (string_dec k "") as [->|Hne];
    [right; intros (k & H & Hk & _); injection H as <-; contradiction|].
  destruct (Z_le_gt_dec 10 (Z.of_nat (String.length (PyStr.strip k)))) as [Hl|Hs].
  - left. exists k. auto.
  - right. intros (k' & H & _ & Hl). injection H as <-. lia.
Qed.

Lemma classify_problem_statement_unusable json_loads chat key sys idea ps tr :
  ~ usable_key key ->
  exists msg,
    classify_problem_statement json_loads chat key sys idea ps tr
    = (Some (failure msg), tr).
Proof.
  intros Hn. unfold classify_problem_statement.
  destruct key as [k|]; [|eauto].
  destruct (String.eqb_spec k "") as [->|Hne]; [eauto|].
  destruct (Z.ltb_spec (Z.of_nat (String.length (PyStr.strip k))) 10); [eauto|].
  exfalso. apply Hn. exists k. auto.
Qed.

(** X13. [classify_problem_statement] calls the model only with a key
    that passed its two checks, and then at most three times, always
    with the same request: its log is the beginning of
    [call, sleep 1, call, sleep 2, call] up to one of the three calls.
    So it never sleeps after its last call, and never more than three
    seconds in all. *)
Theorem classify_problem_statement_backs_off :
  forall json_loads chat api_key system_instruction idea problem_statement
         tr env tr',
    classify_problem_statement json_loads chat api_key system_instruction
                               idea problem_statement tr = (env, tr') ->
    let q := groq_request system_instruction idea problem_statement in
    (usable_key api_key ->
     exists k,
       (k < 3)%nat
       /\ tr' = (tr ++ firstn (2 * k + 1) (backoff_log q))%list
       /\ calls tr' = (calls tr + k + 1)%nat
       /\ slept_seconds tr' = slept_seconds tr + 2 ^ Z.of_nat k - 1)
    /\ (~ usable_key api_key -> tr' = tr).
Proof.
  intros json_loads chat api_key sys idea ps tr env tr' H q. split.
  - intros Hk. rewrite (classify_problem_statement_usable _ _ _ _ _ _ _ Hk) in H.
    fold (groq_request sys idea ps) in H. fold q in H.
    assert (Hcalls : forall l, calls (tr ++ l) = (calls tr + calls l)%nat)
      by (intros; apply calls_app).
    assert (Hslept : forall l, slept_seconds (tr ++ l)
                               = slept_seconds tr + slept_seconds l)
      by (intros; apply slept_seconds_app).
    assert (H0 : exists k, (k < 3)%nat
                           /\ (tr ++ [EvCall Groq q])%list
                              = (tr ++ firstn (2 * k + 1) (backoff_log q))%list
                           /\ calls (tr ++ [EvCall Groq q]) = (calls tr + k + 1)%nat
                           /\ slept_seconds (tr ++ [EvCall Groq q])
                              = slept_seconds tr + 2 ^ Z.of_nat k - 1).
    { exists 0%nat. rewrite Hcalls, Hslept.
      repeat split; try lia; unfold calls; simpl; lia. }
    set (tr1 := (((tr ++ [EvCall Groq q]) ++ [EvTimeSleep (2 ^ 0)])
                   ++ [EvCall Groq q])%list).
    assert (H1 : exists k, (k < 3)%nat
                           /\ tr1 = (tr ++ firstn (2 * k + 1) (backoff_log q))%list
                           /\ calls tr1 = (calls tr + k + 1)%nat
                           /\ slept_seconds tr1
                              = slept_seconds tr + 2 ^ Z.of_nat k - 1).
    { exists 1%nat. unfold tr1. rewrite <- !app_assoc, Hcalls, Hslept.
      repeat split; try lia; unfold calls; simpl; lia. }
    set (tr2 := ((tr1 ++ [EvTimeSleep (2 ^ 1)]) ++ [EvCall Groq q])%list).
    assert (H2 : exists k, (k < 3)%nat
                           /\ tr2 = (tr ++ firstn (2 * k + 1) (backoff_log q))%list
                           /\ calls tr2 = (calls tr + k + 1)%nat
                           /\ slept_seconds tr2
                              = slept_seconds tr + 2 ^ Z.of_nat k - 1).
    { exists 2%nat. unfold tr2, tr1. rewrite <- !app_assoc, Hcalls, Hslept.
      repeat split; try lia; unfold calls; simpl; lia. }
    cbn [cps_loop] in H.
    change (0 <? 3 - 1) with true in H. change (1 <? 3 - 1) with true in H.
    change (2 <? 3 - 1) with false in H. cbv iota in H.
    repeat match type of H with
           | (match ?c with _ => _ end) = _ => destruct c
           | (if ?c then _ else _) = _ => destruct c
           end;
      try discriminate; injection H as _ <-; assumption.
  - intros Hn.
    destruct (classify_problem_statement_unusable
                json_loads chat api_key sys idea ps tr Hn) as (msg & E).
    rewrite E in H. now injection H.
Qed.

Lemma classify_problem_statement_backs_off_witness :
  usable_key sample_key
  /\ exists k,
      (k < 3)%nat
      /\ snd (classify_problem_statement Json.loads (always bad_request) sample_key
                                         "system" "idea" "problem" [])
         = firstn (2 * k + 1) (backoff_log (groq_request "system" "idea" "problem")).
Proof.
  assert (Hk : usable_key sample_key).
  { eexists. split; [reflexivity|]. split; [discriminate | vm_compute; discriminate]. }
  split; [exact Hk|].
  destruct (proj1 (classify_problem_statement_backs_off
                     Json.loads (always bad_request) sample_key
                     "system" "idea" "problem" [] _ _ (surjective_pairing _)) Hk)
    as (k & Hlt & Htr & _).
  exists k. split; [exact Hlt | exact Htr].
Defined.

(* ------------------------------------------------------------------ *)
(** ** What the two parsers accept *)

Lemma getitem_object payload key v :
  getitem payload key = inr v ->
  exists d, payload = JObject d /\ OD.get key d = Some v.
Proof.
  destruct payload as [| | | | |d]; try discriminate.
  simpl. destruct (OD.get key d) as [w|] eqn:E; [|discriminate].
  intros H. injection H as <-. eauto.
Qed.

Lemma parse_success_iff json_loads text x y :
  _parse_classification_response json_loads text = success x y
  <-> exists payload,
      json_loads text = inr payload
      /\ getitem payload X_KEY = inr x /\ getitem payload Y_KEY = inr y.
Proof.
  unfold _parse_classification_response. split.
  - destruct (json_loads text) as [e|payload];
      [destruct (is_JSONDecodeError e); discriminate|].
    destruct (all_in [X_KEY; Y_KEY] payload) as [e|[|]]; try discriminate.
    destruct (getitem payload X_KEY) as [e|x'] eqn:Ex; [discriminate|].
    destruct (getitem payload Y_KEY) as [e|y'] eqn:Ey; [discriminate|].
    unfold success. intros H. injection H as <- <-.
    exists payload. auto.
  - intros (payload & -> & Hx & Hy).
    destruct (getitem_object _ _ _ Hx) as (d & -> & Hdx).
    destruct (getitem_object _ _ _ Hy) as (d' & Hd' & Hdy).
    injection Hd' as <-.
    assert (Ha : all_in [X_KEY; Y_KEY] (JObject d) = inr true).
    { cbn [all_in json_contains].
      assert (Hcx : OD.contains X_KEY d = true)
        by (apply ODFacts.contains_get; eauto).
      assert (Hcy : OD.contains Y_KEY d = true)
        by (apply ODFacts.contains_get; eauto).
      now rewrite Hcx, Hcy. }
    rewrite Ha, Hx, Hy. reflexivity.
Qed.

(** X14. The two entry points accept the same answers. A text is parsed
    to a success envelope by [_parse_classification_response] exactly
    when [_parse_response_and_update_cache] returns a pair for it, and
    the two values are then the same: in both cases the text must be
    JSON for an object that has the two category keys, whatever it holds
    under them. Any other text gives the first a failure envelope that
    keeps the text, and makes the second raise and leave the cache
    alone. *)
Theorem parsers_accept_the_same_answers :
  forall json_loads text key st x y,
    (_parse_classification_response json_loads text = success x y
     <-> fst (_parse_response_and_update_cache json_loads text key st)
         = inr (x, y))
    /\ ((forall x' y',
            _parse_classification_response json_loads text <> success x' y') ->
        (exists msg,
            _parse_classification_response json_loads text
            = failure_raw msg text)
        /\ exists e,
            _parse_response_and_update_cache json_loads text key st = (inl e, st)).
Proof.
  intros json_loads text key st x y.
  assert (Hfst : forall x y,
             fst (_parse_response_and_update_cache json_loads text key st)
             = inr (x, y)
             <-> exists payload,
                 json_loads text = inr payload
                 /\ getitem payload X_KEY = inr x /\ getitem payload Y_KEY = inr y).
  { intros x0 y0. rewrite parse_spec. split.
    - destruct (json_loads text) as [e|payload]; [discriminate|].
      destruct (getitem payload X_KEY) as [e|x'] eqn:Ex; [discriminate|].
      destruct (getitem payload Y_KEY) as [e|y'] eqn:Ey; [discriminate|].
      simpl. intros H. injection H as <- <-. exists payload. auto.
    - intros (payload & -> & -> & ->). reflexivity. }
  split.
  - rewrite parse_success_iff, Hfst. reflexivity.
  - intros Hno. split.
    + destruct (parse_envelope json_loads text) as [(x' & y' & E)|Hf];
        [exfalso; exact (Hno _ _ E) | exact Hf].
    + rewrite parse_spec.
      destruct (json_loads text) as [e|payload] eqn:El; [eauto|].
      destruct (getitem payload X_KEY) as [e|x'] eqn:Ex; [eauto|].
      destruct (getitem payload Y_KEY) as [e|y'] eqn:Ey; [eauto|].
      exfalso. apply (Hno x' y'). apply parse_success_iff. eauto.
Qed.

Section Attempts.

Variable json_loads : string -> result json.
Variable chat : nat -> client -> request -> api_result.

Lemma cps_loop_retry max_retries a rest messages tr :
  retriable (chat (calls tr) Groq (Request "llama-3.3-70b-versatile" messages))
  = true ->
  a < max_retries - 1 ->
  cps_loop json_loads chat max_retries (a :: rest) messages tr
  = cps_loop json_loads chat max_retries rest messages
             ((tr ++ [EvCall Groq (Request "llama-3.3-70b-versatile" messages)])
                ++ [EvTimeSleep (2 ^ a)])%list.
Proof.
  intros Hr Ha. cbn [cps_loop].
  destruct (Z.ltb_spec a (max_retries - 1)); [|lia].
  destruct (chat _ _ _) as [e|choices]; cbn [retriable] in Hr.
  - apply andb_true_iff in Hr. destruct Hr as [H1 H2].
    apply negb_true_iff in H1, H2. now rewrite H1, H2.
  - now rewrite Hr.
Qed.

Lemma cps_loop_content max_retries a rest messages tr text more :
  chat (calls tr) Groq (Request "llama-3.3-70b-versatile" messages)
  = Completion (Some text :: more) ->
  text <> "" ->
  cps_loop json_loads chat max_retries (a :: rest) messages tr
  = (Some (_parse_classification_response json_loads text),
     (tr ++ [EvCall Groq (Request "llama-3.3-70b-versatile" messages)])%list).
Proof.
  intros Hc Hne. cbn [cps_loop]. rewrite Hc.
  cbn [no_content empty_content first_content].
  apply String.eqb_neq in Hne. now rewrite Hne.
Qed.

End Attempts.

(** X15. The first answer that has content settles
    [classify_problem_statement], at whichever of its three attempts it
    comes: the result is the parse of that text and nothing is asked
    again. In particular a text that does not parse to an object with
    the two keys is returned as a failure, with the text under
    ['raw_response']; unlike an exception or an empty answer, it is not
    retried. *)
Theorem first_answer_with_content_is_final :
  forall json_loads chat api_key system_instruction idea problem_statement
         tr k text more,
    usable_key api_key ->
    let q := groq_request system_instruction idea problem_statement in
    (k < 3)%nat ->
    (forall i, (i < k)%nat -> retriable (chat (calls tr + i)%nat Groq q) = true) ->
    chat (calls tr + k)%nat Groq q = Completion (Some text :: more) ->
    text <> "" ->
    classify_problem_statement json_loads chat api_key system_instruction
                               idea problem_statement tr
    = (Some (_parse_classification_response json_loads text),
       (tr ++ firstn (2 * k + 1) (backoff_log q))%list)
    /\ ((forall x y,
            _parse_classification_response json_loads text <> success x y) ->
        exists msg,
          _parse_classification_response json_loads text
          = failure_raw msg text).
Proof.
  intros json_loads chat api_key sys idea ps tr k text more Hk q Hlt Hretry Hc Hne.
  split.
  - rewrite (classify_problem_statement_usable _ _ _ _ _ _ _ Hk).
    fold (groq_request sys idea ps). fold q.
    assert (Hcalls : forall l, calls (tr ++ l) = (calls tr + calls l)%nat)
      by (intros; apply calls_app).
    destruct k as [|[|[|k]]]; [| | |lia].
    + rewrite Nat.add_0_r in Hc.
      rewrite (cps_loop_content _ _ _ _ _ _ _ _ _ Hc Hne). reflexivity.
    + pose proof (Hretry 0%nat ltac:(lia)) as H0. rewrite Nat.add_0_r in H0.
      rewrite (cps_loop_retry _ _ _ _ _ _ _ H0) by lia.
      rewrite (cps_loop_content _ _ _ _ _ _ _ text more).
      * rewrite <- !app_assoc. reflexivity.
      * rewrite <- app_assoc, Hcalls. exact Hc.
      * exact Hne.
    + pose proof (Hretry 0%nat ltac:(lia)) as H0. rewrite Nat.add_0_r in H0.
      pose proof (Hretry 1%nat ltac:(lia)) as H1.
      rewrite (cps_loop_retry _ _ _ _ _ _ _ H0) by lia.
      rewrite cps_loop_retry.
      * rewrite (cps_loop_content _ _ _ _ _ _ _ text more).
        -- rewrite <- !app_assoc. reflexivity.
        -- rewrite <- !app_assoc, Hcalls. exact Hc.
        -- exact Hne.
      * rewrite <- app_assoc, Hcalls. exact H1.
      * lia.
  - intros Hno.
    destruct (parse_envelope json_loads text) as [(x & y & Hs)|Hf]; [|exact Hf].
    exfalso. exact (Hno _ _ Hs).
Qed.

Lemma first_answer_with_content_is_final_witness :
  classify_problem_statement Json.loads (always malformed_answer) sample_key
                             "system" "idea" "problem" []
  = (Some (_parse_classification_response Json.loads "not json"),
     [EvCall Groq (groq_request "system" "idea" "problem")]).
Proof.
  refine (proj1 (first_answer_with_content_is_final
                   Json.loads (always malformed_answer) sample_key
                   "system" "idea" "problem" [] 0 "not json" [] _ _ _ _ _)).
  - eexists. split; [reflexivity|]. split; [discriminate | vm_compute; discriminate].
  - lia.
  - intros i Hi. lia.
  - reflexivity.
  - discriminate.
Defined.

(* ------------------------------------------------------------------ *)
(** ** The caller in [main_groq.py] *)

(** X16. As long as printing the result succeeds,
    [evaluate_problem_statement] relays what [classify_problem_statement]
    returns and adds nothing of its own: a success becomes
    [{'success': True, 'evaluation': data}] with the two categories, a
    failure becomes [{'success': False, 'error': message}] with the
    message of the classifier, the raw model text being dropped; the
    [except] branch and the default message are not used. When printing
    the result raises, the [except] branch takes over whatever the
    classifier returned: a classification that succeeded is dropped, and
    the caller gets [{'success': False, 'error': str(e)}] with the text
    of the exception of [print]; if the [print] of the [except] branch
    raises too, its exception leaves the function. In every case the
    classifier always returns a dictionary, and the calls to the model
    are those of the classifier. *)
Theorem evaluate_problem_statement_relays_the_envelope :
  forall print json_loads chat api_key system_instruction idea
         problem_statement tr,
    exists env tr',
      classify_problem_statement json_loads chat api_key system_instruction
                                 idea problem_statement tr
      = (Some env, tr')
      /\ let run :=
           evaluate_problem_statement print json_loads chat api_key
             system_instruction idea problem_statement tr in
         (print (PrintResult (Some env)) = None ->
          (exists x y,
              env = success x y
              /\ run = (inr (evaluation (PDict [(X_KEY, x); (Y_KEY, y)])),
                        [PrintResult (Some env)], tr'))
          \/ (exists msg,
                 OD.get "success" env = Some (PBool false)
                 /\ OD.get "error" env = Some (PStr msg)
                 /\ run = (inr (no_evaluation (PStr msg)),
                           [PrintResult (Some env)], tr')))
         /\ (forall e,
                print (PrintResult (Some env)) = Some e ->
                run = match print (PrintError (exn_str e)) with
                      | None =>
                          (inr (no_evaluation (PStr (exn_str e))),
                           [PrintError (exn_str e)], tr')
                      | Some e' => (inl e', [], tr')
                      end).
Proof.
  intros print json_loads chat api_key sys idea ps tr.
  assert (Hret : exists env tr',
             classify_problem_statement json_loads chat api_key sys idea ps tr
             = (Some env, tr')
             /\ envelope_origin json_loads chat (groq_request sys idea ps) env).
  { destruct (usable_key_dec api_key) as [Hk|Hn].
    - rewrite (classify_problem_statement_usable _ _ _ _ _ _ _ Hk).
      apply cps_loop_returns. exists 2. split; [simpl; auto | lia].
    - destruct (classify_problem_statement_unusable
                  json_loads chat api_key sys idea ps tr Hn) as (msg & E).
      exists (failure msg), tr. split; [exact E | left; eauto]. }
  destruct Hret as (env & tr' & E & Ho).
  exists env, tr'. split; [exact E|].
  cbv zeta. unfold evaluate_problem_statement. rewrite E.
  destruct (print (PrintResult (Some env))) as [e0|].
  { split; [discriminate|]. intros e H. injection H as ->.
    destruct (print (PrintError (exn_str e))); reflexivity. }
  split; [intros _|discriminate].
  assert (Hshape : (exists x y, env = success x y)
                   \/ (exists msg, env = failure msg)
                   \/ (exists msg raw, env = failure_raw msg raw)).
  { destruct Ho as [(msg & ->)|(n & text & rest & _ & _ & ->)]; [eauto|].
    destruct (parse_envelope json_loads text) as [(x & y & ->)|(msg & ->)]; eauto. }
  destruct Hshape as [(x & y & ->)|[(msg & ->)|(msg & raw & ->)]].
  - left. exists x, y. split; reflexivity.
  - right. exists msg. repeat split.
  - right. exists msg. repeat split.
Qed.

(* ------------------------------------------------------------------ *)
(** ** One permit: the batch is a loop *)

Lemma collect_raised rs :
  forall r0,
    fold_left (fun acc r => note (Finished r) acc) rs r0
    = match r0 with
      | Some e => Some e
      | None => match collect rs with inl e => Some e | inr _ => None end
      end.
Proof.
  induction rs as [|[e|v] rs IH]; intros [e0|]; simpl; try reflexivity;
    rewrite IH; try reflexivity.
  destruct (collect rs); reflexivity.
Qed.

Lemma collect_values rs :
  all_values (map Finished rs)
  = match collect rs with
    | inr vs => Some vs
    | inl _ => match all_values (map Finished rs) with
               | Some vs => Some vs
               | None => None
               end
    end.
Proof.
  induction rs as [|[e|v] rs IH]; simpl; try reflexivity.
  rewrite IH. destruct (collect rs); [|reflexivity].
  destruct (all_values (map Finished rs)); reflexivity.
Qed.

Lemma gathered_collect st p rs :
  gathered (mkBatch st p (map Finished rs)
                    (fold_left (fun acc r => note (Finished r) acc) rs None))
  = Some (collect rs).
Proof.
  unfold gathered. cbn [raised tasks]. rewrite collect_raised.
  destruct (collect rs) as [e|vs] eqn:E; [reflexivity|].
  rewrite collect_values, E. reflexivity.
Qed.

Section OnePermit.

Variable json_loads : string -> result json.
Variable chat : nat -> client -> request -> api_result.

Lemma first_step_app l1 l2 b :
  first_step json_loads chat (l1 ++ l2) b
  = match first_step json_loads chat l1 b with
    | Some b' => Some b'
    | None => first_step json_loads chat l2 b
    end.
Proof.
  induction l1 as [|i l1 IH]; [reflexivity|]. simpl.
  destruct (step_task json_loads chat i b); [reflexivity | exact IH].
Qed.

Lemma first_step_finished pre tl st p r :
  all_finished pre ->
  first_step json_loads chat (seq 0 (List.length pre))
             (mkBatch st p (pre ++ tl) r) = None.
Proof.
  intros Hpre.
  assert (H : forall l, (forall i, In i l -> (i < List.length pre)%nat) ->
                        first_step json_loads chat l (mkBatch st p (pre ++ tl) r)
                        = None).
  { induction l as [|i l IH]; intros Hl; [reflexivity|]. simpl.
    assert (Hi : (i < List.length pre)%nat) by (apply Hl; now left).
    unfold step_task at 1. cbn [tasks].
    rewrite nth_error_app1 by exact Hi.
    destruct (nth_error pre i) as [t|] eqn:E.
    - destruct (Hpre t (nth_error_In _ _ E)) as (res & ->).
      apply IH. intros j Hj. apply Hl. now right.
    - apply nth_error_None in E. lia. }
  apply H. intros i Hi. apply in_seq in Hi. lia.
Qed.

(** The scheduler resumes the first task that is not finished. *)
Lemma first_step_next pre t tl st p r :
  all_finished pre ->
  first_step json_loads chat (seq 0 (List.length (pre ++ t :: tl)))
             (mkBatch st p (pre ++ t :: tl) r)
  = match step_task json_loads chat (List.length pre)
                    (mkBatch st p (pre ++ t :: tl) r) with
    | Some b' => Some b'
    | None =>
        first_step json_loads chat
                   (seq (S (List.length pre)) (List.length tl))
                   (mkBatch st p (pre ++ t :: tl) r)
    end.
Proof.
  intros Hpre. rewrite length_app. cbn [List.length].
  rewrite seq_app, first_step_app, (first_step_finished pre _ st p r Hpre).
  reflexivity.
Qed.

Lemma all_finished_snoc pre res :
  all_finished pre -> all_finished (pre ++ [Finished res]).
Proof.
  intros H t Hin. apply in_app_or in Hin. destruct Hin as [Hin|[<-|[]]]; eauto.
Qed.

Lemma finishes_finished res st r st' :
  finishes json_loads chat (Finished res) st r st' -> r = res /\ st' = st.
Proof.
  intros (fuel & H). rewrite drive_finished in H. injection H as <- <-. auto.
Qed.

Lemma finishes_resume t st r st1 :
  holds_permit t = true ->
  finishes json_loads chat t st r st1 ->
  exists t' st',
    resume json_loads chat t st = Some (t', st')
    /\ finishes json_loads chat t' st' r st1.
Proof.
  intros Hh (fuel & H).
  destruct t; try discriminate; (destruct fuel as [|k]; [discriminate|]);
    cbn [drive] in H;
    (destruct (resume json_loads chat _ st) as [(t', st')|]; [|discriminate]);
    exists t', st'; (split; [reflexivity | now exists k]).
Qed.

Lemma finishes_enter d st :
  finishes json_loads chat (fst (enter chat d st)) (snd (enter chat d st))
           (fst (classify json_loads chat d st))
           (snd (classify json_loads chat d st)).
Proof.
  exists (2 * Z.to_nat (max_retries (self st)))%nat.
  rewrite drive_is_classify by lia. now rewrite <- surjective_pairing.
Qed.

Lemma step_shape t t' st st' :
  task_step json_loads chat st t t' st' ->
  holds_permit t' = true \/ exists res, t' = Finished res.
Proof.
  intros H. pose proof (task_step_not_queued json_loads chat _ _ _ _ H) as Hq.
  destruct t' as [d| | |res]; [exfalso; now apply (Hq d) | auto | auto | eauto].
Qed.

Lemma one_permit_run fuel :
  (forall pre rest st r rs st2,
      all_finished pre ->
      (batch_measure (mkBatch st 1 (pre ++ map Queued rest) r) <= fuel)%nat ->
      run_ops json_loads chat (classify_each rest) st = (rs, st2) ->
      run_to_end json_loads chat fuel (mkBatch st 1 (pre ++ map Queued rest) r)
      = mkBatch st2 1 (pre ++ map Finished rs)
                (fold_left (fun acc r => note (Finished r) acc) rs r))
  /\ (forall pre t rest st r rc st1 rs st2,
         all_finished pre ->
         holds_permit t = true ->
         (batch_measure (mkBatch st 0 (pre ++ t :: map Queued rest) r) <= fuel)%nat ->
         finishes json_loads chat t st rc st1 ->
         run_ops json_loads chat (classify_each rest) st1 = (rs, st2) ->
         run_to_end json_loads chat fuel
                    (mkBatch st 0 (pre ++ t :: map Queued rest) r)
         = mkBatch st2 1 (pre ++ map Finished (rc :: rs))
                   (fold_left (fun acc r => note (Finished r) acc) (rc :: rs) r)).
Proof.
  induction fuel as [|k [IHA IHB]].
  - split.
    + intros pre [|d rest] st r rs st2 Hpre Hm Hrun.
      * injection Hrun as <- <-. reflexivity.
      * exfalso. unfold batch_measure in Hm. cbn [tasks bstate] in Hm.
        rewrite map_app, list_sum_app in Hm. simpl in Hm. lia.
    + intros pre t rest st r rc st1 rs st2 Hpre Hh Hm.
      exfalso. unfold batch_measure in Hm. cbn [tasks bstate] in Hm.
      rewrite map_app, list_sum_app in Hm.
      destruct t; try discriminate; simpl in Hm; lia.
  - split.
    + intros pre [|d rest] st r rs st2 Hpre Hm Hrun.
      * injection Hrun as <- <-. cbn [map fold_left]. rewrite app_nil_r.
        pose proof (first_step_finished pre [] st 1 r Hpre) as Hf.
        rewrite app_nil_r in Hf.
        cbn [run_to_end tasks]. now rewrite Hf.
      * change (map Queued (d :: rest)) with (Queued d :: map Queued rest) in Hm.
        cbn [classify_each map run_ops run_op] in Hrun.
        destruct (classify json_loads chat d st) as [r0 st1] eqn:Ec.
        destruct (run_ops json_loads chat (map Classify rest) st1)
          as [rs' st2'] eqn:Er.
        injection Hrun as <- <-.
        cbn [map run_to_end tasks].
        rewrite (first_step_next pre (Queued d) (map Queued rest) st 1 r Hpre).
        destruct (step_task json_loads chat (List.length pre)
                            (mkBatch st 1 (pre ++ Queued d :: map Queued rest) r))
          as [b'|] eqn:Es.
        2:{ exfalso. unfold step_task in Es. cbn [tasks permits] in Es.
            rewrite nth_error_middle in Es. cbn in Es.
            destruct (enter chat d st). discriminate. }
        pose proof (step_decreases json_loads chat _ _
                      (step_intro json_loads chat _ _ _ Es)) as Hdec.
        unfold step_task in Es. cbn [tasks permits bstate raised] in Es.
        rewrite nth_error_middle in Es. cbn [Z.ltb Z.compare] in Es.
        pose proof (finishes_enter d st) as Hfin. rewrite Ec in Hfin.
        cbn [fst snd] in Hfin.
        assert (Hts : task_step json_loads chat st (Queued d)
                                (fst (enter chat d st)) (snd (enter chat d st)))
          by (constructor; apply surjective_pairing).
        destruct (enter chat d st) as [t' st'] eqn:Ee. cbn [fst snd] in Hfin, Hts.
        rewrite set_nth_middle in Es. injection Es as <-.
        destruct (step_shape _ _ _ _ Hts) as [Hh|(res & ->)].
        -- rewrite Hh in *. change (1 - 1) with 0 in *.
           assert (Hn : note t' r = r)
             by (destruct t' as [| | |?]; try discriminate; destruct r; reflexivity).
           rewrite Hn in *.
           apply (IHB pre t' rest st' r r0 st1 rs' st2' Hpre Hh); try assumption.
           unfold batch_measure in *. cbn [tasks bstate] in *. lia.
        -- cbn [holds_permit] in *.
           apply finishes_finished in Hfin. destruct Hfin as [-> ->].
           replace (pre ++ Finished res :: map Queued rest)%list
             with ((pre ++ [Finished res]) ++ map Queued rest)%list in *
             by (rewrite <- app_assoc; reflexivity).
           rewrite (IHA (pre ++ [Finished res])%list rest st' _ rs' st2').
           ++ rewrite <- app_assoc. reflexivity.
           ++ now apply all_finished_snoc.
           ++ unfold batch_measure in *. cbn [tasks bstate] in *. lia.
           ++ exact Er.
    + intros pre t rest st r rc st1 rs st2 Hpre Hh Hm Hfin Hrun.
      cbn [run_to_end tasks].
      rewrite (first_step_next pre t (map Queued rest) st 0 r Hpre).
      destruct (finishes_resume t st rc st1 Hh Hfin) as (t' & st' & Hres & Hfin').
      assert (Es : step_task json_loads chat (List.length pre)
                             (mkBatch st 0 (pre ++ t :: map Queued rest) r)
                   = Some (mkBatch st' (if holds_permit t' then 0 else 0 + 1)
                                   (pre ++ t' :: map Queued rest) (note t' r))).
      { unfold step_task. cbn [tasks permits bstate raised].
        rewrite nth_error_middle.
        destruct t; try discriminate; cbv iota;
          rewrite Hres, set_nth_middle; reflexivity. }
      rewrite Es.
      pose proof (step_decreases json_loads chat _ _
                    (step_intro json_loads chat _ _ _ Es)) as Hdec.
      assert (Hts : task_step json_loads chat st t t' st')
        by (now apply ts_resume).
      destruct (step_shape _ _ _ _ Hts) as [Hh'|(res & ->)].
      * rewrite Hh' in *.
        assert (Hn : note t' r = r)
          by (destruct t' as [| | |?]; try discriminate; destruct r; reflexivity).
        rewrite Hn in *.
        apply (IHB pre t' rest st' r rc st1 rs st2 Hpre Hh'); try assumption.
        unfold batch_measure in *. cbn [tasks bstate] in *. lia.
      * cbn [holds_permit] in *. change (0 + 1) with 1 in *.
        apply finishes_finished in Hfin'. destruct Hfin' as [-> ->].
        replace (pre ++ Finished res :: map Queued rest)%list
          with ((pre ++ [Finished res]) ++ map Queued rest)%list in *
          by (rewrite <- app_assoc; reflexivity).
        rewrite (IHA (pre ++ [Finished res])%list rest st' _ rs st2).
        -- rewrite <- app_assoc. reflexivity.
        -- now apply all_finished_snoc.
        -- unfold batch_measure in *. cbn [tasks bstate] in *. lia.
        -- exact Hrun.
Qed.

End OnePermit.

Section GatherFacts.

Variable json_loads : string -> result json.
Variable chat : nat -> client -> request -> api_result.

Lemma all_values_stuck ts l st p r vs :
  all_values ts = Some vs ->
  first_step json_loads chat l (mkBatch st p ts r) = None.
Proof.
  intros Hv. induction l as [|i l IH]; [reflexivity|]. simpl.
  unfold step_task at 1. cbn [tasks].
  destruct (nth_error ts i) as [t|] eqn:E; [|exact IH].
  destruct (all_values_some ts vs t Hv (nth_error_In _ _ E)) as (v & ->).
  exact IH.
Qed.

(** Once [gather] has something to deliver, nothing the event loop does
    afterwards changes it. *)
Lemma gathered_settled fuel :
  forall b g,
    gathered b = Some g ->
    gathered (run_to_end json_loads chat fuel b) = Some g.
Proof.
  induction fuel as [|k IH]; intros b g Hg; [exact Hg|].
  cbn [run_to_end].
  destruct (first_step json_loads chat _ b) as [b'|] eqn:Ef; [|exact Hg].
  apply IH.
  apply first_step_some in Ef. inversion Ef as [i b1 b2 Hi]; subst.
  unfold gathered in Hg.
  destruct (raised b) as [e|] eqn:Er.
  - apply step_task_inv in Hi as (t & t' & _ & _ & _ & _ & _ & Hraised).
    unfold gathered. rewrite Hraised, Er. exact Hg.
  - destruct (all_values (tasks b)) as [vs|] eqn:Ev; [|discriminate].
    exfalso. unfold step_task in Hi.
    destruct (nth_error (tasks b) i) as [t|] eqn:E; [|discriminate].
    destruct (all_values_some _ vs t Ev (nth_error_In _ _ E)) as (v & ->).
    discriminate.
Qed.

Lemma run_to_gather_delivers fuel :
  forall b,
    gathered (run_to_gather json_loads chat fuel b)
    = gathered (run_to_end json_loads chat fuel b).
Proof.
  induction fuel as [|k IH]; intros b.
  - assert (H0 : run_to_gather json_loads chat 0 b = b)
      by (cbn [run_to_gather]; destruct (gathered b); reflexivity).
    rewrite H0. reflexivity.
  - cbn [run_to_gather].
    destruct (gathered b) as [g|] eqn:Eg.
    + rewrite Eg. symmetry. now apply gathered_settled.
    + cbn [run_to_end].
      destruct (first_step json_loads chat _ b) as [b'|]; [apply IH | reflexivity].
Qed.

(** When all workers return, the event loop has run to its end. *)
Lemma run_to_gather_returned fuel :
  forall b vs,
    gathered (run_to_gather json_loads chat fuel b) = Some (inr vs) ->
    run_to_gather json_loads chat fuel b = run_to_end json_loads chat fuel b.
Proof.
  induction fuel as [|k IH]; intros b vs.
  - assert (H0 : run_to_gather json_loads chat 0 b = b)
      by (cbn [run_to_gather]; destruct (gathered b); reflexivity).
    rewrite H0. reflexivity.
  - cbn [run_to_gather run_to_end].
    destruct (gathered b) as [g|] eqn:Eg.
    + rewrite Eg. intros Hg. injection Hg as ->.
      unfold gathered in Eg.
      destruct (raised b); [discriminate|].
      destruct (all_values (tasks b)) as [vs'|] eqn:Ev; [|discriminate].
      destruct b as [st p ts r]. cbn [tasks] in *.
      now rewrite (all_values_stuck ts _ st p r vs' Ev).
    + destruct (first_step json_loads chat _ b) as [b'|]; [apply IH | reflexivity].
Qed.

(** The loop that stops at the first exception against the calls made
    whatever they give. *)
Lemma classify_all_collect descriptions :
  forall st,
    fst (classify_all json_loads chat descriptions st)
    = collect (fst (run_ops json_loads chat (classify_each descriptions) st))
    /\ (is_ok (fst (classify_all json_loads chat descriptions st)) = true ->
        snd (classify_all json_loads chat descriptions st)
        = snd (run_ops json_loads chat (classify_each descriptions) st)).
Proof.
  induction descriptions as [|d rest IH]; intros st; [split; reflexivity|].
  cbn [classify_all classify_each map run_ops run_op].
  destruct (classify json_loads chat d st) as [[e|v] st1].
  - destruct (run_ops json_loads chat (map Classify rest) st1) as [rs st2].
    split; [reflexivity | discriminate].
  - destruct (IH st1) as [Hf Hs]. unfold classify_each in Hf, Hs.
    destruct (run_ops json_loads chat (map Classify rest) st1) as [rs st2].
    cbn [fst snd collect] in *. rewrite <- Hf.
    destruct (classify_all json_loads chat rest st1) as [[e|vs] st3];
      cbn [fst snd is_ok] in *.
    + split; [reflexivity | discriminate].
    + split; [reflexivity | intros _; now apply Hs].
Qed.

End GatherFacts.

(** X17. With [max_concurrent=1] the batch is a loop. The semaphore lets
    one worker at a time into [classify], and the event loop, resuming
    the first task able to run, takes the descriptions in input order.
    What [gather] delivers is what classifying the descriptions one after
    the other gives: the pairs in input order, or the exception of the
    first description whose [classify] raises, each call starting from
    the classifier the calls before it left. When all the calls return,
    the batch also leaves the classifier, the cache and the log that the
    calls made one after the other leave. What the workers still pending
    do once a worker has raised is not described. *)
Theorem one_permit_batch_is_sequential :
  forall json_loads chat descriptions st b0,
    classify_batch_start descriptions (Some 1) st = inr b0 ->
    let b := run_to_gather json_loads chat (batch_measure b0) b0 in
    let loop := classify_all json_loads chat descriptions st in
    gathered b = Some (fst loop)
    /\ (is_ok (fst loop) = true -> bstate b = snd loop /\ permits b = 1).
Proof.
  intros json_loads chat descriptions st b0 Hstart b loop.
  injection Hstart as <-. cbn [concurrency_limit] in b.
  destruct (run_ops json_loads chat (classify_each descriptions) st)
    as [rs0 st2] eqn:Er.
  destruct (one_permit_run json_loads chat
              (batch_measure (mkBatch st 1 (map Queued descriptions) None)))
    as [HA _].
  specialize (HA [] descriptions st None rs0 st2).
  cbn [app] in HA.
  assert (Hend : run_to_end json_loads chat
                   (batch_measure (mkBatch st 1 (map Queued descriptions) None))
                   (mkBatch st 1 (map Queued descriptions) None)
                 = mkBatch st2 1 (map Finished rs0)
                           (fold_left (fun acc r => note (Finished r) acc) rs0 None)).
  { apply HA; [intros t [] | lia | exact Er]. }
  destruct (classify_all_collect json_loads chat descriptions st) as [Hf Hs].
  rewrite Er in Hf, Hs. cbn [fst snd] in Hf, Hs. fold loop in Hf, Hs.
  assert (Hg : gathered b = Some (fst loop)).
  { unfold b. rewrite run_to_gather_delivers, Hend, gathered_collect.
    now rewrite Hf. }
  split; [exact Hg|].
  intros Hok. destruct (fst loop) as [e|vs] eqn:El; [discriminate|].
  unfold b in *. rewrite (run_to_gather_returned _ _ _ _ vs Hg), Hend.
  cbn [bstate permits]. split; [symmetry; now apply Hs | reflexivity].
Qed.

Lemma one_permit_batch_is_sequential_witness :
  gathered (run_to_gather Json.loads (stubbed_by robot_stub)
              (batch_measure (mkBatch (fresh default_classifier) 1
                                      (map Queued sample_batch) None))
              (mkBatch (fresh default_classifier) 1
                       (map Queued sample_batch) None))
  = Some (fst (classify_all Json.loads (stubbed_by robot_stub) sample_batch
                            (fresh default_classifier))).
Proof.
  apply (one_permit_batch_is_sequential
           Json.loads (stubbed_by robot_stub) sample_batch
           (fresh default_classifier) _ eq_refl).
Defined.

(* ------------------------------------------------------------------ *)
(** ** Storing under a key that is already there *)

Lemma set_present k (v : categories) d :
  OD.contains k d = true ->
  OD.keys (OD.set k v d) = OD.keys d /\ List.length (OD.set k v d) = List.length d.
Proof.
  intros Hc. pose proof (keys_set_cases k v d) as Hk. rewrite Hc in Hk.
  split; [exact Hk|].
  apply (f_equal (@List.length string)) in Hk.
  unfold OD.keys in Hk. now rewrite !length_map in Hk.
Qed.

(** X18. Storing a pair under a key the cache already holds, as the
    second of two workers of a batch does for the same description,
    replaces the pair where it is: the key keeps its place in the
    eviction order, it is not moved to the most recent end as a hit would
    do, the other entries are untouched and nothing is evicted. *)
Theorem store_on_present_key_keeps_its_place :
  forall json_loads text key st payload x y,
    within_capacity st ->
    OD.contains key (cache st) = true ->
    json_loads text = inr payload ->
    getitem payload X_KEY = inr x ->
    getitem payload Y_KEY = inr y ->
    exists st',
      _parse_response_and_update_cache json_loads text key st = (inr (x, y), st')
      /\ OD.keys (cache st') = OD.keys (cache st)
      /\ OD.get key (cache st') = Some (x, y)
      /\ (forall k, k <> key -> OD.get k (cache st') = OD.get k (cache st))
      /\ trace st' = (trace st ++ [EvLogAdded key])%list.
Proof.
  intros json_loads text key st payload x y [Hl _] Hc Hp Hx Hy.
  exists (stored key (x, y) st).
  rewrite parse_spec, Hp, Hx, Hy. split; [reflexivity|].
  destruct (set_present key (x, y) (cache st) Hc) as [Hk Hlen].
  assert (Hpos : 0 < OD.len (cache st)).
  { unfold OD.len. destruct (cache st); [discriminate | simpl; lia]. }
  destruct (stored_cases key (x, y) st)
    as [(_ & Hcache & Htr) | (Hgt & _)].
  - rewrite Hcache. repeat split; try assumption.
    + apply ODFacts.get_set_same.
    + intros k Hne. now apply ODFacts.get_set_other.
  - exfalso. cbv zeta in Hgt. unfold OD.len in *. rewrite Hlen in Hgt. lia.
Qed.

Lemma store_on_present_key_keeps_its_place_witness :
  exists st',
    _parse_response_and_update_cache
      Json.loads (json_pair "Has some Grammar" "Prototype Status") "k1"
      (fresh (mkClassifier "m" 2 [("k1", (JNull, JNull)); ("k2", (JNull, JNull))] 2))
    = (inr (JString "Has some Grammar", JString "Prototype Status"), st')
    /\ OD.keys (cache st') = ["k1"; "k2"].
Proof.
  destruct (store_on_present_key_keeps_its_place
              Json.loads (json_pair "Has some Grammar" "Prototype Status") "k1"
              (fresh (mkClassifier "m" 2 [("k1", (JNull, JNull)); ("k2", (JNull, JNull))] 2))
              (JObject [(X_KEY, JString "Has some Grammar");
                        (Y_KEY, JString "Prototype Status")])
              (JString "Has some Grammar") (JString "Prototype Status"))
    as (st' & E & Hk & _).
  - split; [vm_compute; discriminate|].
    repeat constructor; simpl; intuition discriminate.
  - reflexivity.
  - vm_compute. reflexivity.
  - reflexivity.
  - reflexivity.
  - exists st'. split; [exact E | exact Hk].
Defined.

(* ------------------------------------------------------------------ *)
(** ** The length of the prompt *)

Lemma take_length n s :
  String.length (PyStr.take n s) = Nat.min n (String.length s).
Proof.
  revert s. induction n as [|n IH]; intros [|c s]; simpl; try reflexivity.
  now rewrite IH.
Qed.

(** X19. The prompt has a bounded length: it is the template with at
    most 2000 characters of the stripped description in the place of the
    placeholder, however long the description is. *)
Theorem prompt_is_bounded :
  forall description,
    String.length (prompt_of description)
    = (String.length (_PROMPT_format "")
       + Nat.min 2000 (String.length (PyStr.strip description)))%nat
    /\ (String.length (prompt_of description)
        <= String.length (_PROMPT_format "") + 2000)%nat.
Proof.
  intros d.
  assert (H : forall x, String.length (_PROMPT_format x)
                        = (String.length (_PROMPT_format "") + String.length x)%nat).
  { intros x. unfold _PROMPT_format. rewrite !string_length_app.
    change (String.length "") with 0%nat. lia. }
  unfold prompt_of. rewrite H, take_length. split; [reflexivity|].
  apply Nat.add_le_mono_l. apply Nat.le_min_l.
Qed.

(* ------------------------------------------------------------------ *)
(** ** Where the cached pairs come from *)

Section Provenance.

Variable json_loads : string -> result json.
Variable chat : nat -> client -> request -> api_result.

Lemma call_caches_answers o st res st' k v :
  call_outcome json_loads chat o st res st' ->
  In (k, v) (cache st') ->
  In (k, v) (cache st)
  \/ (key_of (op_text o) = k
      /\ PyStr.strip (op_text o) <> ""
      /\ exists n,
          answer json_loads
                 (chat n (op_client o) (request_of (self st) (op_text o)))
          = inr v).
Proof.
  intros H Hin. destruct H as [Hb | v0 Hne Hg | res st' Hne Hc Hl].
  - now left.
  - left. eapply in_promoted; eauto.
  - destruct res as [e|v0].
    + destruct Hl as (Ha & _). left.
      now rewrite <- (attempts_only_cache _ _ Ha).
    + destruct Hl as (stk & Ha & -> & _ & Hans & _).
      apply in_stored in Hin. destruct Hin as [Hin|Hin].
      * injection Hin as <- <-. right. eauto.
      * left. now rewrite <- (attempts_only_cache _ _ Ha).
Qed.

Lemma request_of_config c c' d :
  config c' = config c -> request_of c' d = request_of c d.
Proof.
  unfold config, request_of. intros H. injection H as -> _ _. reflexivity.
Qed.

Lemma run_ops_cache_answers ops :
  forall st rs st' k v,
    run_ops json_loads chat ops st = (rs, st') ->
    In (k, v) (cache st') ->
    In (k, v) (cache st)
    \/ exists o n,
        In o ops
        /\ key_of (op_text o) = k
        /\ PyStr.strip (op_text o) <> ""
        /\ answer json_loads
                  (chat n (op_client o) (request_of (self st) (op_text o)))
           = inr v.
Proof.
  induction ops as [|o ops IH]; intros st rs st' k v H Hin.
  - injection H as <- <-. now left.
  - simpl in H.
    destruct (run_op json_loads chat o st) as [r st1] eqn:E1.
    destruct (run_ops json_loads chat ops st1) as [rs' st2] eqn:E2.
    injection H as <- <-.
    apply run_op_outcome in E1.
    pose proof (call_config _ _ _ _ _ _ E1) as Hcfg.
    destruct (IH _ _ _ k v E2 Hin) as [Hin1|(o' & n & Ho' & Hk & Hne & Hans)].
    + destruct (call_caches_answers _ _ _ _ k v E1 Hin1)
        as [Hin0|(Hk & Hne & n & Hans)]; [now left|].
      right. exists o, n. repeat split; auto. now left.
    + right. exists o', n. repeat split; auto; [now right|].
      now rewrite <- (request_of_config _ _ _ Hcfg).
Qed.

End Provenance.

(** X20. The cache holds nothing but answers of the model. After any
    calls of [classify] and [classify_sync] on a new classifier, every
    pair in the cache is what the model answered, in a completion the
    parser accepted, to the request of one of the descriptions that were
    classified, and it is stored under the key of that description. *)
Theorem cache_holds_only_model_answers :
  forall json_loads chat retries capacity ops rs st' k v,
    run_ops json_loads chat ops (fresh (new_classifier retries capacity))
    = (rs, st') ->
    In (k, v) (cache st') ->
    exists o n,
      In o ops
      /\ key_of (op_text o) = k
      /\ PyStr.strip (op_text o) <> ""
      /\ answer json_loads
                (chat n (op_client o)
                      (request_of (new_classifier retries capacity) (op_text o)))
         = inr v.
Proof.
  intros json_loads chat retries capacity ops rs st' k v H Hin.
  destruct (run_ops_cache_answers json_loads chat ops _ _ _ k v H Hin)
    as [[]|Hex].
  exact Hex.
Qed.

Lemma cache_holds_only_model_answers_witness :
  exists o n,
    In o [Classify bottle]
    /\ key_of (op_text o) = "68cc7a90f71b8b07"
    /\ PyStr.strip (op_text o) <> ""
    /\ answer Json.loads
              (always good_answer n (op_client o)
                      (request_of (new_classifier 2 50) (op_text o)))
       = inr (JString "Has Very Good Grammar + Demonstrates Very Good Understanding + Has Clear Visual Clarity",
              JString "Product Description + Prototype Status + Unique Value Statement").
Proof.
  apply (cache_holds_only_model_answers
           Json.loads (always good_answer) 2 50 [Classify bottle]
           (fst (run_ops Json.loads (always good_answer) [Classify bottle]
                         (fresh (new_classifier 2 50))))
           (snd (run_ops Json.loads (always good_answer) [Classify bottle]
                         (fresh (new_classifier 2 50))))).
  - apply surjective_pairing.
  - vm_compute. left. reflexivity.
Defined.

(* ------------------------------------------------------------------ *)
(** ** What a batch keeps of the guarantees of [classify] *)

Section BatchBudget.

Variable json_loads : string -> result json.
Variable chat : nat -> client -> request -> api_result.

Lemma begin_attempt_calls attempts prompt key last st t' st' :
  begin_attempt chat attempts prompt key last st = (t', st') ->
  (forall budget,
      (calls (trace st') + calls_left budget t'
       = calls (trace st) + List.length attempts)%nat)
  /\ cache st' = cache st /\ self st' = self st.
Proof.
  unfold begin_attempt. destruct attempts as [|a rest].
  - intros H. injection H as <- <-. auto.
  - unfold create, emit. intros H. injection H as <- <-.
    cbn [trace calls_left List.length self]. rewrite calls_app.
    unfold calls at 2. simpl. repeat split. intros _. lia.
Qed.

(** A step of a task costs no more than what the task had left. *)
Lemma task_step_budget st t t' st' :
  task_step json_loads chat st t t' st' ->
  let budget := Z.to_nat (max_retries (self st)) in
  (calls (trace st') + calls_left budget t'
   <= calls (trace st) + calls_left budget t)%nat.
Proof.
  intros H budget. inversion H as [d t1 st1 He|t0 t1 st1 Hh Hr]; subst.
  - destruct (enter_cases chat d st) as [(_ & E) | [(v & _ & _ & E) | (_ & _ & E)]];
      rewrite E in He.
    + injection He as <- <-. simpl. lia.
    + injection He as <- <-. destruct (promoted_calls (key_of d) v st) as [-> _].
      simpl. lia.
    + apply begin_attempt_calls in He. destruct He as (Hc & _).
      specialize (Hc budget). rewrite py_range_attempts in Hc. fold budget in Hc.
      simpl. lia.
  - destruct t; try discriminate; simpl in Hr.
    + rewrite on_response_answer in Hr.
      destruct (answer json_loads r) as [e|v]; injection Hr as <- <-.
      * unfold emit. cbn [trace calls_left]. rewrite !calls_app.
        unfold calls at 2 3. simpl. lia.
      * destruct (stored_calls key v st) as [-> _]. simpl. lia.
    + injection Hr as Hr. apply begin_attempt_calls in Hr. destruct Hr as (Hc & _).
      specialize (Hc budget). simpl. lia.
Qed.

Lemma task_step_within_capacity st t t' st' :
  task_step json_loads chat st t t' st' ->
  within_capacity st -> within_capacity st'.
Proof.
  intros H Hw. inversion H as [d t1 st1 He|t0 t1 st1 Hh Hr]; subst.
  - destruct (enter_cases chat d st) as [(_ & E) | [(v & _ & Hg & E) | (_ & _ & E)]];
      rewrite E in He.
    + now injection He as _ <-.
    + injection He as _ <-. now apply promoted_within_capacity.
    + apply begin_attempt_calls in He. destruct He as (_ & Hc & Hs).
      destruct Hw as [Hl Hn]. unfold within_capacity. now rewrite Hc, Hs.
  - destruct t; try discriminate; simpl in Hr.
    + rewrite on_response_answer in Hr.
      destruct (answer json_loads r) as [e|v]; injection Hr as _ <-.
      * exact Hw.
      * now apply stored_within_capacity.
    + injection Hr as Hr. apply begin_attempt_calls in Hr. destruct Hr as (_ & Hc & Hs).
      destruct Hw as [Hl Hn]. unfold within_capacity. now rewrite Hc, Hs.
Qed.

Lemma step_keeps_batch st0 n b b' :
  step json_loads chat b b' -> batch_kept st0 n b -> batch_kept st0 n b'.
Proof.
  intros Hs (Hcfg & Hw & Hcalls).
  pose proof (step_keeps_config json_loads chat b b' Hs) as Hcfg'.
  inversion Hs as [i b1 b2 Hi]; subst.
  apply step_task_inv in Hi as (t & t' & Hn & Hts & Htasks & _).
  unfold batch_kept. split; [congruence|].
  split; [eapply task_step_within_capacity; eauto|].
  pose proof (task_step_budget _ _ _ _ Hts) as Hb. cbv zeta in Hb.
  assert (Hret : max_retries (self (bstate b)) = max_retries (self st0)).
  { unfold config in Hcfg. now injection Hcfg. }
  rewrite Hret in Hb. rewrite Htasks.
  pose proof (measure_set_nth
                (calls_left (Z.to_nat (max_retries (self st0))))
                (tasks b) i t t' Hn) as Hm.
  cbv zeta in Hcalls. lia.
Qed.

End BatchBudget.

(** X21. A batch keeps the guarantees of single calls, whatever the
    schedule and the number of permits. In every state the event loop can
    reach: the model has been called at most [max_retries] times per
    description; the cache is within its capacity, no key twice; and the
    settings of the classifier are unchanged. *)
Theorem batch_keeps_budget_and_capacity :
  forall json_loads chat descriptions max_concurrent st b0 b,
    within_capacity st ->
    classify_batch_start descriptions max_concurrent st = inr b0 ->
    reachable json_loads chat b0 b ->
    Z.of_nat (calls (trace (bstate b)))
    <= Z.of_nat (calls (trace st))
       + Z.of_nat (List.length descriptions) * Z.max 0 (max_retries (self st))
    /\ within_capacity (bstate b)
    /\ config (self (bstate b)) = config (self st).
Proof.
  intros json_loads chat descriptions max_concurrent st b0 b Hw Hstart Hr.
  unfold classify_batch_start in Hstart.
  destruct (_ <? 0); [discriminate|]. injection Hstart as <-.
  assert (H0 : batch_kept st (List.length descriptions)
                          (mkBatch st (concurrency_limit max_concurrent)
                                   (map Queued descriptions) None)).
  { unfold batch_kept. cbn [bstate tasks raised].
    split; [reflexivity|]. split; [exact Hw|].
    rewrite map_map. cbn [calls_left].
    assert (Hsum : forall (l : list string) c,
               list_sum (map (fun _ => c) l) = (List.length l * c)%nat).
    { induction l as [|x l IH]; intros c; simpl; [reflexivity | rewrite IH; lia]. }
    rewrite Hsum. lia. }
  assert (H : batch_kept st (List.length descriptions) b).
  { induction Hr as [|b b' _ IH Hs]; [exact H0|].
    eapply step_keeps_batch; eauto. }
  destruct H as (Hcfg & Hwb & Hcalls).
  split; [|split; [exact Hwb | exact Hcfg]].
  cbv zeta in Hcalls.
  assert (Hb : Z.of_nat (Z.to_nat (max_retries (self st)))
               = Z.max 0 (max_retries (self st))) by lia.
  rewrite <- Hb. nia.
Qed.

Lemma batch_keeps_budget_and_capacity_witness :
  Z.of_nat (calls (trace (bstate
     (run_schedule Json.loads (stubbed_by robot_stub) sample_schedule
                   (mkBatch (fresh default_classifier) 2
                            (map Queued sample_batch) None)))))
  <= Z.of_nat 0 + Z.of_nat 3 * Z.max 0 2
  /\ within_capacity (bstate
        (run_schedule Json.loads (stubbed_by robot_stub) sample_schedule
                      (mkBatch (fresh default_classifier) 2
                               (map Queued sample_batch) None))).
Proof.
  destruct (batch_keeps_budget_and_capacity
              Json.loads (stubbed_by robot_stub) sample_batch (Some 2)
              (fresh default_classifier) _
              (run_schedule Json.loads (stubbed_by robot_stub) sample_schedule
                            (mkBatch (fresh default_classifier) 2
                                     (map Queued sample_batch) None))
              (fresh_within_capacity default_classifier eq_refl) eq_refl)
    as (Hc & Hw & _).
  - apply run_schedule_reachable. constructor.
  - split; [exact Hc | exact Hw].
Defined.

Lemma cps_loop_last json_loads chat max_retries a messages tr :
  retriable (chat (calls tr) Groq (Request "llama-3.3-70b-versatile" messages))
  = true ->
  max_retries - 1 <= a ->
  cps_loop json_loads chat max_retries [a] messages tr
  = (Some (failure
             match chat (calls tr) Groq
                        (Request "llama-3.3-70b-versatile" messages) with
             | Raised e => "An unexpected error occurred: " ++ exn_str e
             | Completion _ => "Empty response from API"
             end),
     (tr ++ [EvCall Groq (Request "llama-3.3-70b-versatile" messages)])%list).
Proof.
  intros Hr Ha. cbn [cps_loop].
  destruct (Z.ltb_spec a (max_retries - 1)); [lia|].
  destruct (chat _ _ _) as [e|choices]; cbn [retriable] in Hr.
  - apply andb_true_iff in Hr. destruct Hr as [H1 H2].
    apply negb_true_iff in H1, H2. now rewrite H1, H2.
  - now rewrite Hr.
Qed.

(** X22. When each of the three answers is one that asks for another
    try, an empty completion or an exception that names neither an
    authentication failure nor a rate limit, in any mix,
    [classify_problem_statement] makes its three calls, sleeping one and
    then two seconds between them, and returns a failure that reports
    the third answer only: the message of its exception, or that the
    response was empty. *)
Theorem three_failed_attempts_report_the_last :
  forall json_loads chat api_key system_instruction idea problem_statement tr,
    usable_key api_key ->
    let q := groq_request system_instruction idea problem_statement in
    (forall i, (i < 3)%nat -> retriable (chat (calls tr + i)%nat Groq q) = true) ->
    classify_problem_statement json_loads chat api_key system_instruction
                               idea problem_statement tr
    = (Some (failure
               match chat (calls tr + 2)%nat Groq q with
               | Raised e => "An unexpected error occurred: " ++ exn_str e
               | Completion _ => "Empty response from API"
               end),
       (tr ++ backoff_log q)%list).
Proof.
  intros json_loads chat api_key sys idea ps tr Hk q Hretry.
  rewrite (classify_problem_statement_usable _ _ _ _ _ _ _ Hk).
  fold (groq_request sys idea ps). fold q.
  assert (Hcalls : forall l, calls (tr ++ l) = (calls tr + calls l)%nat)
    by (intros; apply calls_app).
  pose proof (Hretry 0%nat ltac:(lia)) as H0. rewrite Nat.add_0_r in H0.
  pose proof (Hretry 1%nat ltac:(lia)) as H1.
  pose proof (Hretry 2%nat ltac:(lia)) as H2.
  rewrite (cps_loop_retry _ _ _ _ _ _ _ H0) by lia.
  rewrite cps_loop_retry; [| rewrite <- app_assoc, Hcalls; exact H1 | lia].
  set (tr2 := ((((tr ++ [EvCall Groq q]) ++ [EvTimeSleep (2 ^ 0)])
                  ++ [EvCall Groq q]) ++ [EvTimeSleep (2 ^ 1)])%list).
  assert (Hc2 : calls tr2 = (calls tr + 2)%nat).
  { unfold tr2. rewrite <- !app_assoc, Hcalls. reflexivity. }
  rewrite (cps_loop_last json_loads chat 3 2 _ tr2);
    [| rewrite Hc2; exact H2 | lia].
  rewrite Hc2. unfold tr2. rewrite <- !app_assoc. reflexivity.
Qed.

Lemma three_failed_attempts_report_the_last_witness :
  classify_problem_statement Json.loads (always (Completion [None])) sample_key
                             "system" "idea" "problem" []
  = (Some (failure "Empty response from API"),
     backoff_log (groq_request "system" "idea" "problem")).
Proof.
  apply (three_failed_attempts_report_the_last
           Json.loads (always (Completion [None])) sample_key
           "system" "idea" "problem" []).
  - eexists. split; [reflexivity|]. split; [discriminate | vm_compute; discriminate].
  - intros i _. reflexivity.
Defined.

Lemma cps_loop_permanent json_loads chat max_retries a rest messages tr e :
  chat (calls tr) Groq (Request "llama-3.3-70b-versatile" messages) = Raised e ->
  retriable (Raised e) = false ->
  cps_loop json_loads chat max_retries (a :: rest) messages tr
  = (Some (failure
             (if PyStr.contains "authentication" (PyStr.lower (exn_str e))
              then "Invalid API key. Please check your OPENAI_API_KEY."
              else "API rate limit exceeded. Please check your API usage limits.")),
     (tr ++ [EvCall Groq (Request "llama-3.3-70b-versatile" messages)])%list).
Proof.
  intros Hc Hr. cbn [cps_loop]. rewrite Hc. cbv beta zeta iota.
  cbn [retriable] in Hr.
  destruct (PyStr.contains "authentication" _); [reflexivity|].
  destruct (PyStr.contains "rate_limit" _); [reflexivity | discriminate].
Qed.

(** X23. An exception whose message names an authentication failure or
    a rate limit, in any letter case, ends [classify_problem_statement]
    at whichever attempt it comes: no sleep follows and no further call,
    and the failure returned carries a fixed message, the one about the
    key when both are named, instead of the text of the exception. *)
Theorem permanent_exception_ends_the_attempts :
  forall json_loads chat api_key system_instruction idea problem_statement
         tr k e,
    usable_key api_key ->
    let q := groq_request system_instruction idea problem_statement in
    (k < 3)%nat ->
    (forall i, (i < k)%nat -> retriable (chat (calls tr + i)%nat Groq q) = true) ->
    chat (calls tr + k)%nat Groq q = Raised e ->
    retriable (Raised e) = false ->
    classify_problem_statement json_loads chat api_key system_instruction
                               idea problem_statement tr
    = (Some (failure
               (if PyStr.contains "authentication" (PyStr.lower (exn_str e))
                then "Invalid API key. Please check your OPENAI_API_KEY."
                else "API rate limit exceeded. Please check your API usage limits.")),
       (tr ++ firstn (2 * k + 1) (backoff_log q))%list).
Proof.
  intros json_loads chat api_key sys idea ps tr k e Hk q Hlt Hretry Hc Hp.
  rewrite (classify_problem_statement_usable _ _ _ _ _ _ _ Hk).
  fold (groq_request sys idea ps). fold q.
  assert (Hcalls : forall l, calls (tr ++ l) = (calls tr + calls l)%nat)
    by (intros; apply calls_app).
  destruct k as [|[|[|k]]]; [| | |lia].
  - rewrite Nat.add_0_r in Hc.
    rewrite (cps_loop_permanent _ _ _ _ _ _ _ e Hc Hp). reflexivity.
  - pose proof (Hretry 0%nat ltac:(lia)) as H0. rewrite Nat.add_0_r in H0.
    rewrite (cps_loop_retry _ _ _ _ _ _ _ H0) by lia.
    rewrite (cps_loop_permanent _ _ _ _ _ _ _ e).
    + rewrite <- !app_assoc. reflexivity.
    + rewrite <- app_assoc, Hcalls. exact Hc.
    + exact Hp.
  - pose proof (Hretry 0%nat ltac:(lia)) as H0. rewrite Nat.add_0_r in H0.
    pose proof (Hretry 1%nat ltac:(lia)) as H1.
    rewrite (cps_loop_retry _ _ _ _ _ _ _ H0) by lia.
    rewrite cps_loop_retry.
    + rewrite (cps_loop_permanent _ _ _ _ _ _ _ e).
      * rewrite <- !app_assoc. reflexivity.
      * rewrite <- !app_assoc, Hcalls. exact Hc.
      * exact Hp.
    + rewrite <- app_assoc, Hcalls. exact H1.
    + lia.
Qed.

Lemma permanent_exception_ends_the_attempts_witness :
  classify_problem_statement
    Json.loads (scripted [Completion [None]; rate_limited] good_answer)
    sample_key "system" "idea" "problem" []
  = (Some (failure "API rate limit exceeded. Please check your API usage limits."),
     firstn 3 (backoff_log (groq_request "system" "idea" "problem"))).
Proof.
  apply (permanent_exception_ends_the_attempts
           Json.loads (scripted [Completion [None]; rate_limited] good_answer)
           sample_key "system" "idea" "problem" [] 1
           (Exn RateLimitError "Error code: 429 - Rate_Limit_Exceeded")).
  - eexists. split; [reflexivity|]. split; [discriminate | vm_compute; discriminate].
  - lia.
  - intros i Hi. assert (i = 0%nat) as -> by lia. reflexivity.
  - reflexivity.
  - vm_compute. reflexivity.
Defined.

(* ------------------------------------------------------------------ *)
(** ** An exception at any attempt *)

Lemma nth_py_range a b j :
  (j < Z.to_nat (b - a))%nat -> nth j (py_range a b) 0 = a + Z.of_nat j.
Proof.
  intros H. unfold py_range.
  set (f := fun i => a + Z.of_nat i).
  rewrite (nth_indep _ 0 (f 0%nat)) by (now rewrite length_map, length_seq).
  rewrite map_nth, seq_nth by exact H. reflexivity.
Qed.

Section RaisedFacts.

Variable json_loads : string -> result json.
Variable chat : nat -> client -> request -> api_result.

(** The loop reaches the answer numbered [j] when the answers before it
    were refused; if that answer is an exception, the loop logs it,
    sleeps, and goes on with the attempts that are left. *)
Lemma classify_loop_raised attempts :
  forall j prompt key last st e,
    (j < List.length attempts)%nat ->
    let q := Request (model_name (self st)) (user_message prompt) in
    (forall i, (i < j)%nat ->
               is_ok (answer json_loads (chat (calls (trace st) + i)%nat AsyncGroq q))
               = false) ->
    chat (calls (trace st) + j)%nat AsyncGroq q = Raised e ->
    exists before,
      calls before = j
      /\ classify_loop json_loads chat attempts prompt key last st
         = classify_loop json_loads chat (skipn (S j) attempts) prompt key (Some e)
             (mkState (self st)
                (trace st ++ before
                   ++ failed_attempt AsyncGroq q (nth j attempts 0)
                                     (max_retries (self st)) e)).
Proof.
  induction attempts as [|a rest IH]; intros j prompt key last st e Hj q Hbefore Hraise;
    [simpl in Hj; lia|].
  rewrite classify_loop_cons. fold q. cbv zeta.
  destruct j as [|j].
  - rewrite Nat.add_0_r in Hraise. rewrite Hraise. cbn [answer].
    exists []. split; [reflexivity|]. reflexivity.
  - pose proof (Hbefore 0%nat ltac:(lia)) as H0. rewrite Nat.add_0_r in H0.
    destruct (answer json_loads (chat (calls (trace st)) AsyncGroq q)) as [e0|v];
      [|discriminate].
    set (st1 := mkState (self st)
                        (trace st ++ failed_attempt AsyncGroq q a
                                                   (max_retries (self st)) e0)).
    assert (Hc1 : calls (trace st1) = S (calls (trace st))).
    { unfold st1. cbn [trace]. rewrite calls_app, calls_failed_attempt. lia. }
    destruct (IH j prompt key (Some e0) st1 e) as (before & Hcb & Heq).
    + simpl in Hj. lia.
    + intros i Hi. rewrite Hc1. replace (S (calls (trace st)) + i)%nat
        with (calls (trace st) + S i)%nat by lia.
      apply Hbefore. lia.
    + rewrite Hc1. replace (S (calls (trace st)) + j)%nat
        with (calls (trace st) + S j)%nat by lia. exact Hraise.
    + exists (failed_attempt AsyncGroq q a (max_retries (self st)) e0 ++ before)%list.
      split; [rewrite calls_app, calls_failed_attempt; lia|].
      rewrite Heq. unfold st1. cbn [self trace skipn nth].
      rewrite <- !app_assoc. reflexivity.
Qed.

(** A loop that has an attempt to make starts with a call. *)
Lemma classify_loop_starts_with_call a rest prompt key last st :
  exists evs,
    trace (snd (classify_loop json_loads chat (a :: rest) prompt key last st))
    = (trace st
         ++ EvCall AsyncGroq (Request (model_name (self st)) (user_message prompt))
         :: evs)%list.
Proof.
  rewrite classify_loop_cons. cbv zeta.
  destruct (answer json_loads _) as [e|v].
  - destruct (classify_loop_trace json_loads chat rest prompt key (Some e)
                (mkState (self st)
                   (trace st ++ failed_attempt AsyncGroq
                      (Request (model_name (self st)) (user_message prompt))
                      a (max_retries (self st)) e)))
      as (evs & Hevs).
    rewrite Hevs. cbn [trace]. rewrite <- app_assoc.
    unfold failed_attempt. cbn [app]. eexists. reflexivity.
  - cbn [snd].
    destruct (stored_trace key v
                (emit (EvCall AsyncGroq
                         (Request (model_name (self st)) (user_message prompt))) st))
      as (evs & Hevs).
    rewrite Hevs. unfold emit. cbn [trace]. rewrite <- app_assoc. cbn [app].
    eexists. reflexivity.
Qed.

End RaisedFacts.

(** C2, as the code has it. [classify] knows no permanent failure: when
    the model call of any attempt raises an exception [e], of whatever
    class, the attempts before it having failed, the exception is logged
    as the failure of that attempt and followed by a sleep of one second,
    and then by another call to the model with the same request if an
    attempt is left; if none is left, [classify] raises the
    [ClassificationError] that quotes [e].
    [classify_problem_statement] returns at once, at whichever attempt
    it comes, on an exception it recognises as an authentication or a
    rate-limit failure, by the word [authentication] or [rate_limit] in
    its message: no sleep follows and no further call. *)
Theorem model_exceptions_are_retried :
  forall json_loads chat,
    (forall description st j e,
        PyStr.strip description <> "" ->
        OD.contains (key_of description) (cache st) = false ->
        let q := request_of (self st) description in
        let budget := Z.to_nat (max_retries (self st)) in
        (j < budget)%nat ->
        (forall i, (i < j)%nat ->
                   is_ok (answer json_loads
                                 (chat (calls (trace st) + i)%nat AsyncGroq q))
                   = false) ->
        chat (calls (trace st) + j)%nat AsyncGroq q = Raised e ->
        exists before after,
          trace (snd (classify json_loads chat description st))
          = (trace st ++ before
               ++ [EvCall AsyncGroq q;
                   EvLogFailed (Z.of_nat j + 1) (max_retries (self st)) AsyncGroq e;
                   EvAsyncioSleep 1]
               ++ after)%list
          /\ calls before = j
          /\ ((S j < budget)%nat ->
              exists rest, after = EvCall AsyncGroq q :: rest)
          /\ (S j = budget ->
              after = []
              /\ fst (classify json_loads chat description st)
                 = inl (failed_after (max_retries (self st)) (Some e))))
    /\ (forall api_key system_instruction idea problem_statement tr k e,
           usable_key api_key ->
           let q := groq_request system_instruction idea problem_statement in
           (k < 3)%nat ->
           (forall i, (i < k)%nat ->
                      retriable (chat (calls tr + i)%nat Groq q) = true) ->
           chat (calls tr + k)%nat Groq q = Raised e ->
           let message := PyStr.lower (exn_str e) in
           PyStr.contains "authentication" message
           || PyStr.contains "rate_limit" message = true ->
           classify_problem_statement json_loads chat api_key
             system_instruction idea problem_statement tr
           = (Some (failure
                      (if PyStr.contains "authentication" message
                       then "Invalid API key. Please check your OPENAI_API_KEY."
                       else "API rate limit exceeded. Please check your API usage limits.")),
              (tr ++ firstn (2 * k + 1) (backoff_log q))%list)).
Proof.
  intros json_loads chat. split.
  - intros description st j e Hne Hmiss q budget Hj Hbefore Hraise.
    rewrite (classify_miss _ _ _ _ Hne Hmiss).
    set (attempts := py_range 1 (max_retries (self st) + 1)).
    assert (Hlen : List.length attempts = budget) by apply py_range_attempts.
    destruct (classify_loop_raised json_loads chat attempts j
                (prompt_of description) (key_of description) None st e)
      as (before & Hcb & Heq); [lia | exact Hbefore | exact Hraise |].
    assert (Hnth : nth j attempts 0 = Z.of_nat j + 1).
    { unfold attempts. rewrite nth_py_range by lia. lia. }
    rewrite Heq, Hnth. fold (request_of (self st) description). fold q.
    exists before.
    destruct (skipn (S j) attempts) as [|a rest] eqn:Es.
    + exists []. cbn [classify_loop fst snd trace self].
      unfold failed_attempt. rewrite app_nil_r.
      split; [reflexivity|]. split; [exact Hcb|]. split.
      * intros Hlt. apply (f_equal (@List.length Z)) in Es.
        rewrite length_skipn in Es. simpl in Es. lia.
      * intros _. split; reflexivity.
    + set (stj := mkState (self st)
                          (trace st ++ before
                             ++ failed_attempt AsyncGroq q (Z.of_nat j + 1)
                                               (max_retries (self st)) e)).
      destruct (classify_loop_starts_with_call json_loads chat a rest
                  (prompt_of description) (key_of description) (Some e) stj)
        as (evs & Hevs).
      exists (EvCall AsyncGroq q :: evs). rewrite Hevs.
      unfold stj, failed_attempt. cbn [trace self].
      fold (request_of (self st) description). fold q.
      rewrite <- !app_assoc. split; [reflexivity|]. split; [exact Hcb|]. split.
      * intros _. eauto.
      * intros Heq'. apply (f_equal (@List.length Z)) in Es.
        rewrite length_skipn in Es. simpl in Es. lia.
  - intros api_key sys idea ps tr k e Hk q Hlt Hretry Hc message Hm.
    assert (Hp : retriable (Raised e) = false).
    { cbn [retriable]. fold message. rewrite <- negb_orb, Hm. reflexivity. }
    unfold message.
    rewrite (classify_problem_statement_usable _ _ _ _ _ _ _ Hk).
    fold (groq_request sys idea ps). fold q.
    assert (Hcalls : forall l, calls (tr ++ l) = (calls tr + calls l)%nat)
      by (intros; apply calls_app).
    destruct k as [|[|[|k]]]; [| | |lia].
    + rewrite Nat.add_0_r in Hc.
      rewrite (cps_loop_permanent _ _ _ _ _ _ _ e Hc Hp). reflexivity.
    + pose proof (Hretry 0%nat ltac:(lia)) as H0. rewrite Nat.add_0_r in H0.
      rewrite (cps_loop_retry _ _ _ _ _ _ _ H0) by lia.
      rewrite (cps_loop_permanent _ _ _ _ _ _ _ e).
      * rewrite <- !app_assoc. reflexivity.
      * rewrite <- app_assoc, Hcalls. exact Hc.
      * exact Hp.
    + pose proof (Hretry 0%nat ltac:(lia)) as H0. rewrite Nat.add_0_r in H0.
      pose proof (Hretry 1%nat ltac:(lia)) as H1.
      rewrite (cps_loop_retry _ _ _ _ _ _ _ H0) by lia.
      rewrite cps_loop_retry.
      * rewrite (cps_loop_permanent _ _ _ _ _ _ _ e).
        -- rewrite <- !app_assoc. reflexivity.
        -- rewrite <- !app_assoc, Hcalls. exact Hc.
        -- exact Hp.
      * rewrite <- app_assoc, Hcalls. exact H1.
      * lia.
Qed.

Lemma model_exceptions_are_retried_witness :
  let chat := scripted [malformed_answer; auth_failure] good_answer in
  let q := request_of (new_classifier 3 50) bottle in
  (exists before rest,
      trace (snd (classify Json.loads chat bottle (fresh (new_classifier 3 50))))
      = ([] ++ before
            ++ [EvCall AsyncGroq q;
                EvLogFailed (Z.of_nat 1 + 1) 3 AsyncGroq
                            (Exn AuthenticationError "Error code: 401 - Invalid API Key");
                EvAsyncioSleep 1]
            ++ EvCall AsyncGroq q :: rest)%list
      /\ calls before = 1%nat)
  /\ classify_problem_statement
       Json.loads (scripted [Completion [None]; rate_limited] good_answer)
       sample_key "system" "idea" "problem" []
     = (Some (failure "API rate limit exceeded. Please check your API usage limits."),
        firstn 3 (backoff_log (groq_request "system" "idea" "problem"))).
Proof.
  intros chat q. split.
  - destruct (proj1 (model_exceptions_are_retried Json.loads chat)
                bottle (fresh (new_classifier 3 50)) 1%nat
                (Exn AuthenticationError "Error code: 401 - Invalid API Key"))
      as (before & after & Ht & Hc & Hnext & _).
    + vm_compute. discriminate.
    + reflexivity.
    + cbn. lia.
    + intros i Hi. assert (i = 0%nat) as -> by lia. reflexivity.
    + reflexivity.
    + destruct Hnext as (rest & ->); [cbn; lia|].
      exists before, rest. split; [exact Ht | exact Hc].
  - apply (proj2 (model_exceptions_are_retried
                    Json.loads (scripted [Completion [None]; rate_limited] good_answer))
             sample_key "system" "idea" "problem" [] 1%nat
             (Exn RateLimitError "Error code: 429 - Rate_Limit_Exceeded")).
    + eexists. split; [reflexivity|]. split; [discriminate | vm_compute; discriminate].
    + lia.
    + intros i Hi. assert (i = 0%nat) as -> by lia. reflexivity.
    + reflexivity.
    + vm_compute. reflexivity.
Defined.
